(** * Claryfy backend: bounded-concurrency aggregation and retrieval pipeline

    A shallow embedding of the parts of the backend that the specification
    talks about, each definition following the JavaScript / TypeScript source.

    The model:
    - [Js]            strings as sequences of UTF-16 code units and the few
                      [String.prototype] / [RegExp] operations the code uses;
    - [Client]        [CanvasClient]'s response interceptors (client.ts):
                      automatic pagination and the retry handler;
    - [Gate]          [processWithConcurrency] (http-server.js);
    - [Batch]         [processBatchWithRetry] and the performance metrics;
    - [Dashboard]     the [/api/dashboard] handler and its three fetchers;
    - [Eff]           state and exceptions for the async handlers;
    - [Ingestion]     the [/api/recordings/process] handler, with
                      [SupabaseRecordingService.updateRecording] and
                      [SupabaseStorageService];
    - [Gemini]        [GeminiQueryService.fallbackQueryProcessing];
    - [Conversation]  [ConversationService.addMessage] and friends;
    - [Paging], [Scenarios]  paged upstreams and the concrete inputs used
                      below;
    - [RequestQueue]  the request queue of [CanvasClient];
    - [ClientTrace], [BatchTrace]  the client and the orchestrator with
                      one log of requests, calls and delays in order;
    - [DashboardRows] the rows a category processor makes of one card;
    - [EffLogic]      triples over [Eff], and the states of the local disk
                      during the ingestion;
    - [GeminiSearch]  [GeminiQueryService.buildSearchQuery] and
                      [generateSearchSummary];
    - [ConversationService]  [generateTitle], [getOrCreateConversation]
                      and [deleteConversation].

    The properties follow, one module of facts per module of the model. *)

From Stdlib Require Import ZArith NArith Lia List String Ascii Bool Arith.
From Stdlib Require DecimalString.
From Stdlib Require Sorted.
From stdpp Require Import base option gmap.
Import ListNotations.

Set Implicit Arguments.
Unset Strict Implicit.
Set Default Proof Using "Type".

(* ===================================================================== *)
(** * JavaScript strings *)
(* ===================================================================== *)

Module Js.

(** A JavaScript string is a finite sequence of UTF-16 code units. *)
Definition jstr := list N.

(** String literals of the source, which are all ASCII. *)
Definition lit (s : string) : jstr :=
  List.map N_of_ascii (list_ascii_of_string s).

Definition dquote : N := 34%N.

Fixpoint jstr_eqb (a b : jstr) : bool :=
  match a, b with
  | [], [] => true
  | x :: a', y :: b' => N.eqb x y && jstr_eqb a' b'
  | _, _ => false
  end.

(** [s.startsWith(p)] *)
Fixpoint startsWith (p s : jstr) : bool :=
  match p, s with
  | [], _ => true
  | _ :: _, [] => false
  | x :: p', y :: s' => N.eqb x y && startsWith p' s'
  end.

(** [s.includes(p)]: [p] occurs in [s] as a contiguous run of code units. *)
Fixpoint includes (p s : jstr) : bool :=
  startsWith p s ||
  match s with
  | [] => false
  | _ :: s' => includes p s'
  end.

(** [s.split(sep)] for a separator of one code unit; never returns [[]]. *)
Fixpoint split (sep : N) (s : jstr) : list jstr :=
  match s with
  | [] => [[]]
  | c :: s' =>
      if N.eqb c sep then [] :: split sep s'
      else match split sep s' with
           | [] => [[c]]
           | w :: ws => (c :: w) :: ws
           end
  end.

(** Truthiness of a string value: only the empty string is falsy. *)
Definition truthy (s : jstr) : bool :=
  match s with [] => false | _ :: _ => true end.

(** ** The regular-expression fragments used by the source *)

(** [.] matches every code unit but the four line terminators. *)
Definition line_terminator (c : N) : bool :=
  N.eqb c 10 || N.eqb c 13 || N.eqb c 8232 || N.eqb c 8233.

Definition is_digit (c : N) : bool := N.leb 48 c && N.leb c 57.

(** Canonicalisation of the [i] flag.  The patterns of the source are
    ASCII; a code unit above 127 never canonicalises to an ASCII one, so
    folding the ASCII letters is all that matters for them. *)
Definition canon (c : N) : N :=
  if N.leb 97 c && N.leb c 122 then (c - 32)%N else c.

(** [/p/i.test(s)] for a pattern [p] of literal ASCII characters. *)
Definition test_ci (p : string) (s : jstr) : bool :=
  includes (List.map canon (lit p)) (List.map canon s).

(** [/p\d+/i.test(s)] for a literal [p]: [p] followed by one digit at least. *)
Fixpoint starts_lit_digit (p s : jstr) : bool :=
  match p, s with
  | [], d :: _ => is_digit d
  | [], [] => false
  | _ :: _, [] => false
  | x :: p', y :: s' => N.eqb x (canon y) && starts_lit_digit p' s'
  end.

Fixpoint test_ci_digits_from (p s : jstr) : bool :=
  starts_lit_digit p s ||
  match s with
  | [] => false
  | _ :: s' => test_ci_digits_from p s'
  end.

Definition test_ci_digits (p : string) (s : jstr) : bool :=
  test_ci_digits_from (List.map canon (lit p)) s.

(** The lazy group of [/<(.+?)>/] once [<] and the first character of the
    group have been consumed: extend the group up to the first [>]. *)
Fixpoint lazy_until_gt (s : jstr) : option jstr :=
  match s with
  | [] => None
  | c :: s' =>
      if N.eqb c 62 then Some []
      else if line_terminator c then None
      else match lazy_until_gt s' with
           | Some g => Some (c :: g)
           | None => None
           end
  end.

(** [s.match(/<(.+?)>/)], giving capture group 1 of the leftmost match. *)
Fixpoint match_angle (s : jstr) : option jstr :=
  match s with
  | [] => None
  | c :: s' =>
      let here :=
        if N.eqb c 60 then
          match s' with
          | d :: s'' =>
              if line_terminator d then None
              else match lazy_until_gt s'' with
                   | Some g => Some (d :: g)
                   | None => None
                   end
          | [] => None
          end
        else None in
      match here with
      | Some g => Some g
      | None => match_angle s'
      end
  end.

End Js.

Import Js.

(* ===================================================================== *)
(** * RetryingPaginatedClient: the interceptors of [CanvasClient] *)
(* ===================================================================== *)

Module Client.

Section WithItems.

(** Elements of a JSON array body. *)
Variable item : Type.

(** A response body: a JSON array, or a value that is not iterable (an
    object, a number, [null]). *)
Inductive body :=
| BArray (xs : list item)
| BOther.

(** What the interceptors read of an axios response: [status],
    [headers.link] ([None] when the header is absent) and [data]. *)
Record response := Response {
  status : Z;
  link : option jstr;
  data : body
}.

(** What the upstream does with one HTTP request. *)
Inductive reply :=
| NoResponse                 (* network-level failure: [error.response] unset *)
| Replied (r : response).

(** The request configuration, with the two fields the interceptors add. *)
Record config := Config {
  url : jstr;
  __retryCount : option nat;      (* [None] is [undefined] *)
  _isPaginationRequest : bool
}.

Inductive error :=
| CanvasAPIError (statusCode : Z) (raw : body)
| TransportError                 (* the axios error, rethrown as it is *)
| TypeError.

Inductive outcome :=
| Resolved (r : response)
| Thrown (e : error).

(** The client's settings ([maxRetries], [retryDelay]) *)
Record settings := Settings {
  maxRetries : nat;
  retryDelay : Z
}.

(** The constructor's defaults. *)
Definition default_settings : settings :=
  {| maxRetries := 3; retryDelay := 1000 |}.

(** The observable effects of the client: the requests put on the wire, in
    order, and the delays slept, in order. *)
Record world := World {
  sent : list config;
  slept : list Z
}.

Definition start : world := {| sent := []; slept := [] |}.

(** The upstream decides the reply from the position of the request in the
    sequence of all requests and from its URL. *)
Definition upstream := nat -> jstr -> reply.

(** [getNextPageUrl(linkHeader)] on a string. *)
Definition rel_next : jstr := lit "rel=" ++ [dquote] ++ lit "next" ++ [dquote].

Definition getNextPageUrl (linkHeader : jstr) : option jstr :=
  match List.find (includes rel_next) (split 44 linkHeader) with
  | None => None
  | Some nextLink => match_angle nextLink
  end.

(** The call [this.getNextPageUrl(h)] on a header that may be absent:
    [undefined.split] raises a TypeError. *)
Definition getNextPageUrl_header (h : option jstr) : error + option jstr :=
  match h with
  | None => inl TypeError
  | Some s => inr (getNextPageUrl s)
  end.

(** [while (nextUrl)]: [null] and the empty string end the loop. *)
Definition continues (nextUrl : option jstr) : option jstr :=
  match nextUrl with
  | Some u => if truthy u then Some u else None
  | None => None
  end.

(** [shouldRetry(error)] *)
Definition shouldRetry (r : reply) : bool :=
  match r with
  | NoResponse => true
  | Replied resp => Z.eqb (status resp) 429 || Z.leb 500 (status resp)
  end.

(** [config.__retryCount < this.maxRetries]: a comparison with [undefined]
    is false. *)
Definition retryCount_lt (c : option nat) (m : nat) : bool :=
  match c with
  | None => false
  | Some k => Nat.ltb k m
  end.

(** [config.__retryCount || 0] *)
Definition retryCount_or_0 (c : option nat) : nat :=
  match c with
  | None => 0
  | Some k => k
  end.

(** What the error interceptor throws when it does not retry: a
    [CanvasAPIError] when there is a response, the axios error otherwise. *)
Definition transformed (rep : reply) : error :=
  match rep with
  | NoResponse => TransportError
  | Replied r => CanvasAPIError (status r) (data r)
  end.

(** axios resolves a reply whose status is 2xx and rejects the others. *)
Definition validateStatus (s : Z) : bool := Z.leb 200 s && Z.ltb s 300.

(** [Array.isArray(data) && linkHeader] *)
Definition paginated_link (r : response) : option jstr :=
  match data r, link r with
  | BArray _, Some h => if truthy h then Some h else None
  | _, _ => None
  end.

Section Interceptors.

Variable cfg : settings.

(** [this.client.request] / [this.client.get], which the interceptors call
    back into. *)
Variable again : config -> world -> option (outcome * world).

(** The [while (nextUrl)] loop of the pagination interceptor; [k] bounds
    the number of pages followed, [None] when the bound is hit. *)
Fixpoint follow (first : response) (k : nat) (allData : list item)
    (nextUrl : option jstr) (w : world) : option (outcome * world) :=
  match continues nextUrl with
  | None =>
      Some (Resolved {| status := status first; link := link first;
                        data := BArray allData |}, w)
  | Some u =>
      match k with
      | 0 => None
      | S k' =>
          match again {| url := u; __retryCount := None;
                         _isPaginationRequest := true |} w with
          | None => None
          | Some (Thrown e, w') => Some (Thrown e, w')
          | Some (Resolved nextResponse, w') =>
              match data nextResponse with
              | BOther => Some (Thrown TypeError, w')
              | BArray ys =>
                  match getNextPageUrl_header (link nextResponse) with
                  | inl e => Some (Thrown e, w')
                  | inr nxt => follow first k' (allData ++ ys) nxt w'
                  end
              end
          end
      end
  end.

(** The first response interceptor: automatic pagination. *)
Definition on_fulfilled (k : nat) (c : config) (resp : response) (w : world)
  : option (outcome * world) :=
  match data resp, paginated_link resp, _isPaginationRequest c with
  | BArray xs, Some h, false => follow resp k xs (getNextPageUrl h) w
  | _, _, _ => Some (Resolved resp, w)
  end.

(** The second response interceptor: retry, or transform the error. *)
Definition on_rejected (c : config) (rep : reply) (w : world)
  : option (outcome * world) :=
  if shouldRetry rep && retryCount_lt (__retryCount c) (maxRetries cfg)
  then
    let n := S (retryCount_or_0 (__retryCount c)) in
    let delay := (retryDelay cfg * 2 ^ (Z.of_nat n - 1))%Z in
    again {| url := url c; __retryCount := Some n;
             _isPaginationRequest := _isPaginationRequest c |}
          {| sent := sent w; slept := slept w ++ [delay] |}
  else
    Some (Thrown (transformed rep), w).

End Interceptors.

Section Run.

Variable cfg : settings.
Variable up : upstream.

(** One pass of [this.client.request(config)]: the request goes on the
    wire and the reply through the interceptors.  Every request costs one
    unit of fuel; [None] means the fuel ran out. *)
Fixpoint request (fuel : nat) (c : config) (w : world)
  : option (outcome * world) :=
  match fuel with
  | 0 => None
  | S f =>
      let w1 := {| sent := sent w ++ [c]; slept := slept w |} in
      match up (List.length (sent w)) (url c) with
      | NoResponse => on_rejected cfg (request f) c NoResponse w1
      | Replied resp =>
          if validateStatus (status resp)
          then on_fulfilled (request f) f c resp w1
          else on_rejected cfg (request f) c (Replied resp) w1
      end
  end.

(** A logical request as the methods of the client issue it:
    [this.client.get(url)], with neither field set. *)
Definition get (fuel : nat) (u : jstr) : option (outcome * world) :=
  request fuel {| url := u; __retryCount := None;
                  _isPaginationRequest := false |} start.

End Run.

End WithItems.

Arguments BOther {item}.
Arguments NoResponse {item}.
Arguments TransportError {item}.
Arguments TypeError {item}.

End Client.

(* ===================================================================== *)
(** * ConcurrencyGate: [processWithConcurrency] *)
(* ===================================================================== *)

Module Gate.

Section WithTypes.

Variables (I O E : Type).

(** An entry of [Promise.allSettled]: [status] is ['fulfilled'] or
    ['rejected']. *)
Inductive settled :=
| Fulfilled (value : O)
| Rejected (reason : E).

(** What a call [processor(item)] amounts to for the gate: the promise it
    returns settles [latency] ticks of a logical clock after the call, with
    [result]. *)
Record job := Job {
  latency : nat;
  result : settled
}.

Definition processor := I -> job.

(** The promise [processor(item).then(...)] kept in [results] and in
    [executing]; [slot] is its index in [results], which stands for the
    identity that [executing.indexOf(promise)] looks for. *)
Record promise := Promise {
  slot : nat;
  settles_at : nat;
  value_of : settled
}.

Record loop_state := LoopState {
  now : nat;
  results : list promise;
  executing : list promise;
  invoked : list I
}.

Definition initial : loop_state :=
  {| now := 0; results := []; executing := []; invoked := [] |}.

(** How the promise returned by the gate ends. *)
Inductive answer :=
| Returned (outs : list settled)   (* resolved with the allSettled array *)
| Escaped (reason : E)             (* rejected: the await threw *)
| Pending.                         (* never settles *)

Record run := Run {
  ended : answer;
  calls : list I                   (* the items the processor was called on *)
}.

(** The instant at which a promise is seen settled by code running at
    [t]. *)
Definition seen (t : nat) (p : promise) : nat := Nat.max t (settles_at p).

(** [Promise.race(executing)] settles as the member that settles first;
    members settled already, or settling at the same tick, win in array
    order.  The race over an empty array never settles. *)
Fixpoint race (t : nat) (ex : list promise) : option promise :=
  match ex with
  | [] => None
  | p :: ps =>
      match race t ps with
      | None => Some p
      | Some q => if Nat.ltb (seen t q) (seen t p) then Some q else Some p
      end
  end.

(** The [then] callback splices a promise out of [executing] once it is
    fulfilled; a rejected promise skips the callback and stays. *)
Definition stays (t : nat) (p : promise) : bool :=
  match value_of p with
  | Rejected _ => true
  | Fulfilled _ => Nat.ltb t (settles_at p)
  end.

Variable worker : processor.
Variable maxConcurrency : nat.

(** The [for (const item of items)] loop and the final
    [Promise.allSettled(results)]. *)
Fixpoint loop (items : list I) (st : loop_state) : run :=
  match items with
  | [] => {| ended := Returned (List.map value_of (results st));
             calls := invoked st |}
  | item :: rest =>
      let j := worker item in
      let p := {| slot := List.length (results st);
                  settles_at := now st + latency j;
                  value_of := result j |} in
      let st1 := {| now := now st;
                    results := results st ++ [p];
                    executing := executing st ++ [p];
                    invoked := invoked st ++ [item] |} in
      if Nat.leb maxConcurrency (List.length (executing st1)) then
        match race (now st1) (executing st1) with
        | None => {| ended := Pending; calls := invoked st1 |}
        | Some w =>
            match value_of w with
            | Rejected e => {| ended := Escaped e; calls := invoked st1 |}
            | Fulfilled _ =>
                let t := seen (now st1) w in
                loop rest {| now := t;
                             results := results st1;
                             executing := List.filter (stays t) (executing st1);
                             invoked := invoked st1 |}
            end
        end
      else loop rest st1
  end.

Definition processWithConcurrency (items : list I) : run :=
  loop items initial.

(** The settled result of the worker on an item. *)
Definition outcome_of (item : I) : settled := result (worker item).

(** What a completed run looks like from a state of the loop: one outcome
    per item, in input order, and every item handed to the worker. *)
Definition completed (items : list I) (st : loop_state) : run :=
  {| ended := Returned (List.map value_of (results st)
                        ++ List.map outcome_of items);
     calls := invoked st ++ items |}.

End WithTypes.

Arguments Fulfilled {O E} value.
Arguments Rejected {O E} reason.
Arguments Returned {O E} outs.
Arguments Escaped {O E} reason.
Arguments Pending {O E}.
Arguments initial {I O E}.

End Gate.

(* ===================================================================== *)
(** * BatchOrchestrator: [processBatchWithRetry] and the metrics *)
(* ===================================================================== *)

Module Batch.

Import Gate.

(** [PERFORMANCE_CONFIG] *)
Definition MAX_CONCURRENT_REQUESTS : nat := 12.
Definition COURSE_BATCH_SIZE : nat := 10.
Definition REQUEST_DELAY : nat := 50.
Definition TIMEOUT_MS : Z := 30000.
Definition MAX_COURSES : nat := 15.

(** [performanceMetrics] *)
Record metrics := Metrics {
  totalRequests : nat;
  successfulRequests : nat;
  failedRequests : nat;
  averageResponseTime : nat;
  lastResetTime : nat
}.

(** The object literal of the module's top level and of [/logout]. *)
Definition fresh_metrics (date_now : nat) : metrics :=
  {| totalRequests := 0; successfulRequests := 0; failedRequests := 0;
     averageResponseTime := 0; lastResetTime := date_now |}.

(** The three counters of the metrics, compared pointwise. *)
Definition grows (m m' : metrics) : Prop :=
  totalRequests m <= totalRequests m' /\
  successfulRequests m <= successfulRequests m' /\
  failedRequests m <= failedRequests m'.

(** The accounting identity of the counters. *)
Definition balanced (m : metrics) : Prop :=
  successfulRequests m + failedRequests m = totalRequests m.

Section WithTypes.

Variables (I O E : Type).

(** [items.slice(i, j)] *)
Definition slice (i j : nat) (items : list I) : list I :=
  List.firstn (j - i) (List.skipn i items).

(** [for (let i = 0; i < items.length; i += batchSize) batches.push(...)];
    one unit of fuel per iteration, [None] when it runs out. *)
Fixpoint make_batches (fuel : nat) (i : nat) (items : list I)
    (batchSize : nat) : option (list (list I)) :=
  if Nat.ltb i (List.length items) then
    match fuel with
    | 0 => None
    | S f =>
        match make_batches f (i + batchSize) items batchSize with
        | None => None
        | Some bs => Some (slice i (i + batchSize) items :: bs)
        end
    end
  else Some [].

Definition is_fulfilled (r : settled O E) : bool :=
  match r with Fulfilled _ => true | Rejected _ => false end.

Definition is_rejected (r : settled O E) : bool :=
  match r with Fulfilled _ => false | Rejected _ => true end.

(** The state the [for (const batch of batches)] loop threads:
    [allResults], the global metrics and the pacing delays slept. *)
Record batch_state := BatchState {
  allResults : list (settled O E);
  perf : metrics;
  paced : list nat
}.

Variable worker : processor I O E.

(** One iteration of the loop, for the batch at position [idx] of
    [count] batches; [None] when the awaited gate never settles. *)
Definition one_batch (count idx : nat) (batch : list I) (st : batch_state)
  : option batch_state :=
  match ended (processWithConcurrency worker MAX_CONCURRENT_REQUESTS batch) with
  | Returned batchResults =>
      let m := perf st in
      Some {| allResults := allResults st ++ batchResults;
              paced := if Nat.ltb idx (count - 1)
                       then paced st ++ [REQUEST_DELAY] else paced st;
              perf :=
                {| totalRequests := totalRequests m + List.length batch;
                   successfulRequests :=
                     successfulRequests m +
                     List.length (List.filter is_fulfilled batchResults);
                   failedRequests :=
                     failedRequests m +
                     List.length (List.filter is_rejected batchResults);
                   averageResponseTime := averageResponseTime m;
                   lastResetTime := lastResetTime m |} |}
  | Escaped _ =>
      (* the catch block *)
      let m := perf st in
      Some {| allResults := allResults st;
              paced := paced st;
              perf :=
                {| totalRequests := totalRequests m;
                   successfulRequests := successfulRequests m;
                   failedRequests := failedRequests m + List.length batch;
                   averageResponseTime := averageResponseTime m;
                   lastResetTime := lastResetTime m |} |}
  | Pending => None
  end.

Fixpoint each_batch (count idx : nat) (batches : list (list I))
    (st : batch_state) : option batch_state :=
  match batches with
  | [] => Some st
  | batch :: rest =>
      match one_batch count idx batch st with
      | None => None
      | Some st' => each_batch count (S idx) rest st'
      end
  end.

(** [processBatchWithRetry(items, processor, batchSize)], run on the
    current metrics.  [None]: the call does not return within the fuel. *)
Definition processBatchWithRetry (fuel : nat) (items : list I)
    (batchSize : nat) (m : metrics) : option batch_state :=
  match make_batches fuel 0 items batchSize with
  | None => None
  | Some batches =>
      each_batch (List.length batches) 0 batches
        {| allResults := []; perf := m; paced := [] |}
  end.

End WithTypes.

(** The events that touch [performanceMetrics] during the life of the
    server: a run of the orchestrator, and [POST /logout]. *)
Inductive event (I O E : Type) :=
| RunBatches (worker : processor I O E) (items : list I) (batchSize : nat)
| Logout (date_now : nat).

Arguments RunBatches {I O E} worker items batchSize.
Arguments Logout {I O E} date_now.

Definition step {I O E} (fuel : nat) (m : metrics) (e : event I O E)
  : option metrics :=
  match e with
  | RunBatches worker items batchSize =>
      option_map (@perf O E)
        (processBatchWithRetry worker fuel items batchSize m)
  | Logout t => Some (fresh_metrics t)
  end.

(** A run whose batches are too small for the gate ever to await a race;
    the callers of the dashboard all use the default batch size. *)
Definition within_limit {I O E} (e : event I O E) : Prop :=
  match e with
  | RunBatches _ _ batchSize => 1 <= batchSize < MAX_CONCURRENT_REQUESTS
  | Logout _ => True
  end.

Fixpoint steps {I O E} (fuel : nat) (m : metrics) (es : list (event I O E))
  : option metrics :=
  match es with
  | [] => Some m
  | e :: es' =>
      match step fuel m e with
      | None => None
      | Some m' => steps fuel m' es'
      end
  end.

End Batch.

(* ===================================================================== *)
(** * AggregationPipeline: [GET /api/dashboard] *)
(* ===================================================================== *)

Module Dashboard.

Import Gate Batch.

(** [userToken], [userDomain] and [canvasClient]: all three are set by
    [initializeClient] and cleared by [/logout] together. *)
Record credentials := Credentials {
  token : jstr;
  domain : jstr
}.

Definition session := option credentials.

Definition same_credentials (a b : credentials) : bool :=
  jstr_eqb (token a) (token b) && jstr_eqb (domain a) (domain b).

Section WithTypes.

(** Dashboard cards, and the rows of the three categories. *)
Variables (Course Row : Type).

(** [{...row, course_id: course.id, course_name: ...}] *)
Variable annotate : Course -> Row -> Row.

(** The instants the three comparators build with [new Date(...)]:
    [due_at || '9999-12-31'], [posted_at || created_at] and
    [updated_at || created_at].  [None] is an Invalid Date, which
    [new Date] gives for [undefined] and for a string it cannot parse;
    its time value is [NaN]. *)
Variables (due posted updated : Row -> option Z).

(** The order in which the engine's sort leaves an array when the
    comparator is not consistent on it: it is implementation-defined. *)
Variable engine_order : (Row -> Row -> option Z) -> list Row -> list Row.

(** A remote list call made by a processor: how long it takes and the
    array it yields; [None] when the call throws or yields no array. *)
Record fetched := Fetched {
  took : nat;
  rows : option (list Row)
}.

Variables (listAssignments discussion_topics listFiles : Course -> fetched).

(** [new CanvasClient(token, domain).healthCheck()] has status ['ok']. *)
Variable healthy : credentials -> bool.

(** The three processors share one shape: the remote call inside a
    [try], the rows annotated with the course, [[]] in the [catch]; the
    promise of such an async function is never rejected. *)
Definition course_processor (call : Course -> fetched)
  : processor Course (list Row) unit :=
  fun course =>
    {| latency := took (call course);
       result := Fulfilled
                   match rows (call course) with
                   | Some rs => List.map (annotate course) rs
                   | None => []
                   end |}.

(** [results.filter(r => r.status === 'fulfilled').flatMap(r => r.value)] *)
Fixpoint fulfilled_values (rs : list (settled (list Row) unit)) : list Row :=
  match rs with
  | [] => []
  | Fulfilled v :: rs' => v ++ fulfilled_values rs'
  | Rejected _ :: rs' => fulfilled_values rs'
  end.

(** [aDate - bDate] on two [Date] objects: the difference of their time
    values, [NaN] ([None]) when one of them is invalid. *)
Definition minus (a b : option Z) : option Z :=
  match a, b with
  | Some x, Some y => Some (x - y)%Z
  | _, _ => None
  end.

(** A stable sort; [cmp a b <= 0] keeps [a] first. *)
Fixpoint insert_sorted (cmp : Row -> Row -> Z) (x : Row) (l : list Row)
  : list Row :=
  match l with
  | [] => [x]
  | y :: l' =>
      if Z.leb (cmp x y) 0 then x :: y :: l'
      else y :: insert_sorted cmp x l'
  end.

(** Every comparison of two elements of [l] is a number. *)
Definition numeric (cmp : Row -> Row -> option Z) (l : list Row) : bool :=
  List.forallb
    (fun a => List.forallb
                (fun b => match cmp a b with Some _ => true | None => false end)
                l)
    l.

Definition number (v : option Z) : Z :=
  match v with Some z => z | None => 0%Z end.

Definition stable_sort (cmp : Row -> Row -> Z) (l : list Row) : list Row :=
  List.fold_right (insert_sorted cmp) [] l.

(** [l.sort(cmp)] for the comparators of this file, which subtract two
    instants.  When every comparison is a number the comparator is
    consistent and [Array.prototype.sort], which is stable, gives the one
    sorted order.  A comparison that is [NaN] counts as [+0]; the
    comparator is then not consistent in general, and the order is the
    engine's. *)
Definition sort (cmp : Row -> Row -> option Z) (l : list Row) : list Row :=
  if numeric cmp l
  then stable_sort (fun a b => number (cmp a b)) l
  else engine_order cmp l.

(** The primary path of a category: the orchestrator over the cards,
    then flatten and sort.  The orchestrator catches whatever a batch
    throws, so the [catch] of the category (the five-course fallback) has
    nothing to catch. *)
Definition fetch_category (call : Course -> fetched)
    (cmp : Row -> Row -> option Z) (cards : list Course) (m : metrics)
  : option (list Row * metrics) :=
  match processBatchWithRetry (course_processor call)
          (S (List.length cards)) cards COURSE_BATCH_SIZE m with
  | None => None
  | Some st => Some (sort cmp (fulfilled_values (allResults st)), perf st)
  end.

Definition getAllAssignmentsOptimized (dashboardCards : list Course)
    (m : metrics) : option (list Row * metrics) :=
  if Nat.eqb (List.length dashboardCards) 0 then Some ([], m)
  else fetch_category listAssignments (fun a b => minus (due a) (due b))
         dashboardCards m.

Definition getAllAnnouncementsOptimized (dashboardCards : list Course)
    (m : metrics) : option (list Row * metrics) :=
  if Nat.eqb (List.length dashboardCards) 0 then Some ([], m)
  else fetch_category discussion_topics
         (fun a b => minus (posted b) (posted a)) dashboardCards m.

Definition getAllFilesOptimized (dashboardCards : list Course)
    (m : metrics) : option (list Row * metrics) :=
  let limitedCourses :=
    slice 0 (Nat.min 8 (List.length dashboardCards)) dashboardCards in
  fetch_category listFiles (fun a b => minus (updated b) (updated a))
    limitedCourses m.

Record performance := Performance {
  totalTime : nat;
  coursesProcessed : nat;
  assignmentsCount : nat;
  announcementsCount : nat;
  filesCount : nat
}.

Record payload := Payload {
  courses : list Course;
  assignments : list Row;
  announcements : list Row;
  files : list Row;
  perf_summary : performance
}.

Inductive http :=
| Ok200 (body : payload)
| Unauthorized401 (error : jstr)
| Failed500 (error : jstr).

(** The query parameters and what the outside world answers during the
    request: the result of [getDashboardCards()] (an error message when
    it throws) and the clock difference reported as [totalTime]. *)
Record request := Request {
  query : option credentials;      (* [token && domain] *)
  dashboard_cards : jstr + list Course;
  elapsed : nat
}.

Definition needs_login (q : option credentials) (s : session) : bool :=
  match q, s with
  | Some c, None => true
  | Some c, Some cur => negb (same_credentials c cur)
  | None, _ => false
  end.

(** The auto-authentication at the head of the handler: the response it
    ends the request with, or the session it leaves. *)
Definition authenticate (req : request) (s : session) : http + session :=
  match query req with
  | Some c =>
      if needs_login (query req) s then
        if healthy c then inr (Some c)
        else inl (Unauthorized401 (lit "Invalid Canvas credentials"))
      else inr s
  | None => inr s
  end.

(** The handler, on the session and the metrics of the process.  The
    three fetchers run under [Promise.all]; each only adds to the
    counters, so their updates are threaded one after the other.
    [None]: no response is sent. *)
Definition dashboard (req : request) (s : session) (m : metrics)
  : option (http * session * metrics) :=
  match authenticate req s with
  | inl resp => Some (resp, s, m)
  | inr None =>
      Some (Unauthorized401
              (lit "Not authenticated. Please provide token and domain parameters."),
            None, m)
  | inr (Some cur) =>
      match dashboard_cards req with
      | inl message => Some (Failed500 message, Some cur, m)
      | inr dashboardCards =>
          let limitedCards := slice 0 MAX_COURSES dashboardCards in
          match getAllAssignmentsOptimized limitedCards m with
          | None => None
          | Some (assignments, m1) =>
          match getAllAnnouncementsOptimized limitedCards m1 with
          | None => None
          | Some (announcements, m2) =>
          match getAllFilesOptimized limitedCards m2 with
          | None => None
          | Some (files, m3) =>
              Some (Ok200
                      {| courses := limitedCards;
                         assignments := slice 0 50 assignments;
                         announcements := slice 0 30 announcements;
                         files := slice 0 100 files;
                         perf_summary :=
                           {| totalTime := elapsed req;
                              coursesProcessed := List.length limitedCards;
                              assignmentsCount := List.length assignments;
                              announcementsCount := List.length announcements;
                              filesCount := List.length files |} |},
                    Some cur, m3)
          end end end
      end
  end.

End WithTypes.

End Dashboard.

(* ===================================================================== *)
(** * Effects: state and exceptions of the async handlers *)
(* ===================================================================== *)

Module Eff.

(** How a block of statements ends: with a value, or by throwing an
    [Error] whose [message] is kept. *)
Inductive completion (A : Type) :=
| Value (a : A)
| Throws (message : jstr).

Arguments Value {A} a.
Arguments Throws {A} message.

(** A computation over a state [S]; the state reached survives a throw. *)
Definition M (S A : Type) := S -> completion A * S.

Definition ret {S A} (a : A) : M S A := fun s => (Value a, s).

Definition throw {S A} (message : jstr) : M S A :=
  fun s => (Throws message, s).

Definition bind {S A B} (c : M S A) (k : A -> M S B) : M S B :=
  fun s =>
    match c s with
    | (Value a, s') => k a s'
    | (Throws e, s') => (Throws e, s')
    end.

(** [try { c } catch (error) { h error.message }] *)
Definition try_catch {S A} (c : M S A) (h : jstr -> M S A) : M S A :=
  fun s =>
    match c s with
    | (Value a, s') => (Value a, s')
    | (Throws e, s') => h e s'
    end.

Definition get {S} : M S S := fun s => (Value s, s).

Definition modify {S} (f : S -> S) : M S unit := fun s => (Value tt, f s).

(** [try { c } catch (e) { console.warn(...) }] *)
Definition attempt {S} (c : M S unit) : M S unit :=
  try_catch c (fun _ => ret tt).

Declare Scope eff_scope.
Delimit Scope eff_scope with eff.

Notation "'let*' x ':=' c 'in' k" := (bind c (fun x => k))
  (at level 10, x name, c at level 100, k at level 200) : eff_scope.
Notation "c ';;;' k" := (bind c (fun _ => k))
  (at level 100, k at level 200, right associativity) : eff_scope.

End Eff.

(* ===================================================================== *)
(** * IngestionPipeline: [POST /api/recordings/process] *)
(* ===================================================================== *)

Module Ingestion.

Import Eff.
Local Open Scope eff_scope.

(** A row of the recordings table, as far as the handler writes it. *)
Record recording := Recording {
  rec_status : jstr;
  rec_summary : option jstr;
  rec_transcription : option jstr;
  rec_audio_url : option jstr;
  rec_processed_at : option nat
}.

(** The object passed to [updateRecording]: the fields it sets. *)
Record update := Update {
  set_status : jstr;
  set_summary : jstr;
  set_transcription : option jstr;
  set_audio_url : option jstr
}.

(** [.update({ ...updates, processed_at: new Date().toISOString() })] on
    one row. *)
Definition apply_update (u : update) (date_now : nat) (r : recording)
  : recording :=
  {| rec_status := set_status u;
     rec_summary := Some (set_summary u);
     rec_transcription :=
       match set_transcription u with
       | Some t => Some t
       | None => rec_transcription r
       end;
     rec_audio_url :=
       match set_audio_url u with
       | Some a => Some a
       | None => rec_audio_url r
       end;
     rec_processed_at := Some date_now |}.

(** [`${userId}/${recordingId}.webm`], the name of the audio blob in the
    storage bucket. *)
Definition audio_file_name (uid rid : jstr) : jstr :=
  uid ++ lit "/" ++ rid ++ lit ".webm".

(** What the handler does to the outside, in order. *)
Inductive effect :=
| Uploaded (fileName : jstr)                  (* blob put in storage *)
| Copied (src dst : jstr)
| Unlinked (path : jstr)                      (* local file deleted *)
| BlobDeleted (fileName : jstr)               (* blob removed from storage *)
| RowUpdated (recordingId : jstr) (u : update)
| Vectorized (recordingId : jstr).

(** The world the handler runs in, and its local [tempFileWithExt]. *)
Record world := World {
  recordings : gmap jstr recording;            (* the recordings table *)
  local_files : gset jstr;                     (* files on the local disk *)
  storage : gset jstr;                         (* blobs of the bucket, by name *)
  trace : list effect;
  tempFileWithExt : option jstr
}.

(** The answers of the outside during one request: the [error] a Supabase
    call comes back with ([None] for none), the results of the OpenAI
    calls ([inl] message when they throw), the public URL of a blob, the
    failure of the vectorisation, and the clock. *)
Record services := Services {
  storage_upload_error : option jstr;
  transcribeAudio : jstr + option jstr;        (* [inr None]: null / undefined *)
  generateLectureSummary : jstr -> jstr + jstr;
  publicUrl : jstr -> jstr;
  recordings_update_error : update -> option jstr;
  vectorizeRecording_fails : option jstr;
  storage_remove_error : option jstr;
  date_now : nat
}.

(** [req.file] of multer. *)
Record upload := Upload {
  path : jstr;
  mimetype : option jstr
}.

(** [req.body] and [req.file]; an absent field is [None]. *)
Record request := Request {
  userId : option jstr;
  courseId : option jstr;
  recordingId : option jstr;
  title : option jstr;
  duration : option jstr;
  audioFile : option upload
}.

Inductive http :=
| Ok200 (transcription summary : jstr)
| BadRequest400
| Failed500 (error : jstr).

(** How often a trace deletes a given local file, and a given blob. *)
Definition is_unlink_of (p : jstr) (e : effect) : bool :=
  match e with
  | Unlinked q => bool_decide (q = p)
  | _ => false
  end.

Definition is_blob_delete_of (fileName : jstr) (e : effect) : bool :=
  match e with
  | BlobDeleted n => bool_decide (n = fileName)
  | _ => false
  end.

Definition unlinks (p : jstr) (tr : list effect) : nat :=
  List.length (List.filter (is_unlink_of p) tr).

Definition blob_deletions (fileName : jstr) (tr : list effect) : nat :=
  List.length (List.filter (is_blob_delete_of fileName) tr).

Definition log (e : effect) : M world unit :=
  modify (fun w => {| recordings := recordings w;
                      local_files := local_files w;
                      storage := storage w;
                      trace := trace w ++ [e];
                      tempFileWithExt := tempFileWithExt w |}).

Definition enoent : jstr := lit "ENOENT: no such file or directory".

(** [fs.readFileSync(p)] *)
Definition readFileSync (p : jstr) : M world unit :=
  let* w := get in
  if bool_decide (p ∈ local_files w) then ret tt else throw enoent.

(** [fs.copyFileSync(src, dst)] *)
Definition copyFileSync (src dst : jstr) : M world unit :=
  let* w := get in
  if bool_decide (src ∈ local_files w) then
    modify (fun w => {| recordings := recordings w;
                        local_files := {[dst]} ∪ local_files w;
                        storage := storage w;
                        trace := trace w;
                        tempFileWithExt := tempFileWithExt w |});;;
    log (Copied src dst)
  else throw enoent.

(** [fs.unlinkSync(p)] *)
Definition unlinkSync (p : jstr) : M world unit :=
  let* w := get in
  if bool_decide (p ∈ local_files w) then
    modify (fun w => {| recordings := recordings w;
                        local_files := local_files w ∖ {[p]};
                        storage := storage w;
                        trace := trace w;
                        tempFileWithExt := tempFileWithExt w |});;;
    log (Unlinked p)
  else throw enoent.

(** Assignment to the local variable [tempFileWithExt]. *)
Definition set_tempFileWithExt (p : option jstr) : M world unit :=
  modify (fun w => {| recordings := recordings w;
                      local_files := local_files w;
                      storage := storage w;
                      trace := trace w;
                      tempFileWithExt := p |}).

(** [if (tempFileWithExt && tempFileWithExt !== audioFile.path)
       fs.unlinkSync(tempFileWithExt)] *)
Definition unlink_tempFileWithExt (audio_path : jstr) : M world unit :=
  let* w := get in
  match tempFileWithExt w with
  | Some tmp =>
      if truthy tmp && negb (bool_decide (tmp = audio_path))
      then unlinkSync tmp else ret tt
  | None => ret tt
  end.

Definition of_sum {A} (r : jstr + A) : M world A :=
  match r with
  | inl message => throw message
  | inr a => ret a
  end.

Definition failing (r : option jstr) : M world unit :=
  match r with
  | Some message => throw message
  | None => ret tt
  end.

Section Handler.

Variable svc : services.

(** The error of an upload with [upsert: false] on a name that is taken,
    and that of [.single()] when no row matched. *)
Definition already_exists : jstr := lit "The resource already exists".
Definition no_single_row : jstr :=
  lit "JSON object requested, multiple (or no) rows returned".

(** [SupabaseStorageService.uploadAudioFile(userId, recordingId, blob)]:
    [upload(fileName, blob, { upsert: false })], the error thrown. *)
Definition uploadAudioFile (uid rid : jstr) : M world unit :=
  failing (storage_upload_error svc);;;
  let* w := get in
  if bool_decide (audio_file_name uid rid ∈ storage w)
  then throw already_exists
  else
    modify (fun w => {| recordings := recordings w;
                        local_files := local_files w;
                        storage := {[audio_file_name uid rid]} ∪ storage w;
                        trace := trace w;
                        tempFileWithExt := tempFileWithExt w |});;;
    log (Uploaded (audio_file_name uid rid)).

(** [SupabaseStorageService.getAudioFileUrl(userId, recordingId)] *)
Definition getAudioFileUrl (uid rid : jstr) : M world jstr :=
  ret (publicUrl svc (audio_file_name uid rid)).

(** [SupabaseStorageService.deleteAudioFile(userId, recordingId)]:
    [remove([fileName])], the error thrown. *)
Definition deleteAudioFile (uid rid : jstr) : M world unit :=
  failing (storage_remove_error svc);;;
  modify (fun w => {| recordings := recordings w;
                      local_files := local_files w;
                      storage := storage w ∖ {[audio_file_name uid rid]};
                      trace := trace w;
                      tempFileWithExt := tempFileWithExt w |});;;
  log (BlobDeleted (audio_file_name uid rid)).

(** [SupabaseRecordingService.updateRecording(recordingId, updates)]:
    the update of the row with that id, [.select().single()], the error
    thrown. *)
Definition updateRecording (rid : jstr) (u : update) : M world unit :=
  failing (recordings_update_error svc u);;;
  let* w := get in
  match recordings w !! rid with
  | None => throw no_single_row
  | Some _ =>
      modify (fun w => {| recordings :=
                            alter (apply_update u (date_now svc)) rid
                              (recordings w);
                          local_files := local_files w;
                          storage := storage w;
                          trace := trace w;
                          tempFileWithExt := tempFileWithExt w |});;;
      log (RowUpdated rid u)
  end.

Definition vectorizeRecording (rid : jstr) : M world unit :=
  failing (vectorizeRecording_fails svc);;;
  log (Vectorized rid).

(** [!transcription || transcription.length < 10] *)
Definition too_short (t : option jstr) : bool :=
  match t with
  | None => true
  | Some s => negb (truthy s) || Nat.ltb (List.length s) 10
  end.

Definition extension (f : upload) : jstr :=
  match mimetype f with
  | Some mt => if includes (lit "webm") mt then lit ".webm" else lit ".wav"
  | None => lit ".wav"
  end.

(** [new Error('Transcription too short or empty').message] *)
Definition too_short_message : jstr := lit "Transcription too short or empty".

(** [{ status: 'failed', summary: `Processing failed: ${message}` }] *)
Definition failed_update (message : jstr) : update :=
  {| set_status := lit "failed";
     set_summary := lit "Processing failed: " ++ message;
     set_transcription := None; set_audio_url := None |}.

(** The inner [try] block: steps 1 to 7. *)
Definition pipeline (uid cid rid : jstr) (f : upload) : M world http :=
  readFileSync (path f);;;
  uploadAudioFile uid rid;;;
  let tmp := path f ++ extension f in
  set_tempFileWithExt (Some tmp);;;
  copyFileSync (path f) tmp;;;
  let* transcription := of_sum (transcribeAudio svc) in
  if too_short transcription then
    throw too_short_message
  else
    let text := match transcription with Some s => s | None => [] end in
    let* summary := of_sum (generateLectureSummary svc text) in
    let* audio_url := getAudioFileUrl uid rid in
    updateRecording rid
      {| set_status := lit "completed"; set_summary := summary;
         set_transcription := Some text; set_audio_url := Some audio_url |};;;
    attempt (vectorizeRecording rid);;;
    attempt (unlinkSync (path f);;; unlink_tempFileWithExt (path f));;;
    attempt (deleteAudioFile uid rid);;;
    ret (Ok200 text summary).

(** The [catch (processingError)] block. *)
Definition on_processing_error (rid : jstr) (f : upload) (message : jstr)
  : M world http :=
  attempt (updateRecording rid (failed_update message));;;
  attempt ((if truthy (path f) then unlinkSync (path f) else ret tt);;;
           unlink_tempFileWithExt (path f));;;
  throw message.

Definition present (x : option jstr) : option jstr :=
  match x with
  | Some s => if truthy s then Some s else None
  | None => None
  end.

(** The handler. *)
Definition process (req : request) : M world http :=
  try_catch
    match audioFile req, present (userId req), present (courseId req),
          present (recordingId req) with
    | Some f, Some uid, Some cid, Some rid =>
        set_tempFileWithExt None;;;
        try_catch (pipeline uid cid rid f) (on_processing_error rid f)
    | _, _, _, _ => ret BadRequest400
    end
    (fun message =>
       ret (Failed500 (lit "Failed to process recording: " ++ message))).

End Handler.

End Ingestion.

(* ===================================================================== *)
(** * QueryAnalyzer: the rule-based fallback of [GeminiQueryService] *)
(* ===================================================================== *)

Module Gemini.

(** A course of [userCourses], as far as the fallback reads it. *)
Record course := Course {
  course_code : jstr;
  name : jstr
}.

(** The object the fallback returns; [None] is [null]. *)
Record query_params := QueryParams {
  searchType : jstr;
  courseFilter : option jstr;
  timeFilter : option jstr;
  priority : option jstr;
  keywords : list jstr;
  specificItems : list jstr;
  intent : jstr
}.

(** [/a|b|.../i.test(s)] for literal alternatives. *)
Definition any_ci (alternatives : list string) (s : jstr) : bool :=
  List.existsb (fun p => test_ci p s) alternatives.

Definition isAssignment (userQuery : jstr) : bool :=
  any_ci ["assignment"; "homework"; "hw"]%string userQuery
  || test_ci_digits "ps" userQuery
  || any_ci ["problem set"; "project"; "quiz"; "exam"; "test"]%string userQuery.

Definition isAnnouncement (userQuery : jstr) : bool :=
  any_ci ["announcement"; "news"; "update"; "notice"]%string userQuery.

Definition isFile (userQuery : jstr) : bool :=
  any_ci ["file"; "document"; "pdf"; "syllabus"; "material"]%string userQuery.

Definition isCourse (userQuery : jstr) : bool :=
  any_ci ["course"; "class"; "taking"; "enrolled"]%string userQuery.

Definition detect_timeFilter (userQuery : jstr) : option jstr :=
  if any_ci ["this week"; "week"]%string userQuery then Some (lit "this_week")
  else if any_ci ["next week"]%string userQuery then Some (lit "next_week")
  else if any_ci ["due"; "deadline"]%string userQuery
       then Some (lit "this_week")
  else None.

(** The [for (const course of userCourses)] loop with its [break]. *)
Fixpoint detect_courseFilter (userQuery : jstr) (userCourses : list course)
  : option jstr :=
  match userCourses with
  | [] => None
  | c :: rest =>
      if includes (course_code c) userQuery || includes (name c) userQuery
      then Some (course_code c)
      else detect_courseFilter userQuery rest
  end.

Definition fallbackQueryProcessing (userQuery : jstr)
    (userCourses : list course) : query_params :=
  {| searchType :=
       if isAssignment userQuery then lit "assignments"
       else if isAnnouncement userQuery then lit "announcements"
       else if isFile userQuery then lit "files"
       else if isCourse userQuery then lit "courses"
       else lit "general";
     courseFilter := detect_courseFilter userQuery userCourses;
     timeFilter := detect_timeFilter userQuery;
     priority :=
       if any_ci ["due"; "deadline"; "urgent"]%string userQuery
       then Some (lit "due_soon") else None;
     keywords :=
       List.filter (fun word => Nat.ltb 2 (List.length word))
         (split 32 userQuery);
     specificItems := [];
     intent :=
       if isAssignment userQuery then lit "find_assignments"
       else if isCourse userQuery then lit "get_course_info"
       else lit "general_question" |}.

(** The values the prompt of [processQuery] lists for each field. *)
Definition search_types : list jstr :=
  List.map lit ["assignments"; "announcements"; "files"; "courses";
                "general"]%string.

Definition time_filters : list jstr :=
  List.map lit ["this_week"; "next_week"; "this_month"; "past_due"]%string.

Definition priorities : list jstr :=
  List.map lit ["due_soon"; "overdue"; "high_priority"]%string.

Definition intents : list jstr :=
  List.map lit ["find_assignments"; "check_deadlines"; "get_course_info";
                "general_question"]%string.

Definition null_or_in (allowed : list jstr) (v : option jstr) : Prop :=
  match v with
  | None => True
  | Some x => List.In x allowed
  end.

(** A well-formed search intent. *)
Definition well_formed (userCourses : list course) (q : query_params) : Prop :=
  List.In (searchType q) search_types /\
  List.In (intent q) intents /\
  null_or_in time_filters (timeFilter q) /\
  null_or_in priorities (priority q) /\
  null_or_in (List.map course_code userCourses) (courseFilter q).

End Gemini.

(* ===================================================================== *)
(** * ConversationContext: [ConversationService] *)
(* ===================================================================== *)

Module Conversation.

Import Eff.
Local Open Scope eff_scope.

Section WithMetadata.

(** The [metadata] object of a message. *)
Variable meta : Type.

(** A row of [messages]; the temporary object [addMessage] makes up has
    the same fields. *)
Record message := Message {
  id : jstr;
  conversation_id : jstr;
  content : jstr;
  role : jstr;
  metadata : meta
}.

(** A row of [conversations]. *)
Record conversation := ConversationRow {
  conv_id : jstr;
  conv_title : jstr;
  user_id : jstr;
  course_id : option Z;
  updated_at : nat
}.

(** The durable store. *)
Record database := Database {
  conversations : list conversation;
  messages : list message
}.

(** The module-level [supabase] handle ([configured] is
    [supabase !== null]) and the store behind it. *)
Record world := World {
  configured : bool;
  db : database
}.

(** What the outside answers during one call: the clock, the id the store
    gives a new row, and the errors its queries come back with. *)
Record environment := Environment {
  date_now : nat;
  fresh_id : jstr;
  insert_error : option jstr;
  update_error : option jstr
}.

Variable env : environment.

Definition decimal (n : nat) : jstr :=
  lit (DecimalString.NilZero.string_of_uint (Nat.to_uint n)).

(** [`temp-${Date.now()}`] *)
Definition temp_id : jstr := lit "temp-" ++ decimal (date_now env).

(** [isAvailable()] *)
Definition isAvailable : M world bool :=
  let* w := get in ret (configured w).

Definition touch (cid : jstr) (new_title : option jstr) (c : conversation)
  : conversation :=
  if bool_decide (conv_id c = cid) then
    {| conv_id := conv_id c;
       conv_title := match new_title with Some t => t | None => conv_title c end;
       user_id := user_id c;
       course_id := course_id c;
       updated_at := date_now env |}
  else c.

(** [updateConversation(conversationId, updates)]; the only update the
    service ever passes is a title, or nothing.  Its result is not used
    by [addMessage]. *)
Definition updateConversation (conversationId : jstr)
    (new_title : option jstr) : M world unit :=
  let* available := isAvailable in
  if negb available || startsWith (lit "temp-") conversationId then ret tt
  else
    attempt
      (match update_error env with
       | Some e => throw e
       | None =>
           modify (fun w =>
             {| configured := configured w;
                db := {| conversations :=
                           List.map (touch conversationId new_title)
                             (conversations (db w));
                         messages := messages (db w) |} |})
       end).

(** [addMessage(conversationId, content, role, metadata)] *)
Definition addMessage (conversationId content role : jstr) (metadata : meta)
  : M world message :=
  let temporary :=
    {| id := temp_id; conversation_id := conversationId;
       content := content; role := role; metadata := metadata |} in
  let* available := isAvailable in
  if negb available then ret temporary
  else if startsWith (lit "temp-") conversationId then ret temporary
  else
    try_catch
      (match insert_error env with
       | Some e => throw e
       | None =>
           let row :=
             {| id := fresh_id env; conversation_id := conversationId;
                content := content; role := role; metadata := metadata |} in
           modify (fun w =>
             {| configured := configured w;
                db := {| conversations := conversations (db w);
                         messages := messages (db w) ++ [row] |} |});;;
           updateConversation conversationId None;;;
           ret row
       end)
      (fun _ => ret temporary).

(** [createConversation(userId, title, courseId)] *)
Definition createConversation (userId title : jstr) (courseId : option Z)
  : M world conversation :=
  let temporary :=
    {| conv_id := temp_id; conv_title := title; user_id := userId;
       course_id := courseId; updated_at := date_now env |} in
  let* available := isAvailable in
  if negb available then ret temporary
  else
    try_catch
      (match insert_error env with
       | Some e => throw e
       | None =>
           let row :=
             {| conv_id := fresh_id env; conv_title := title;
                user_id := userId; course_id := courseId;
                updated_at := date_now env |} in
           modify (fun w =>
             {| configured := configured w;
                db := {| conversations := conversations (db w) ++ [row];
                         messages := messages (db w) |} |});;;
           ret row
       end)
      (fun _ => ret temporary).

End WithMetadata.

End Conversation.

(* ===================================================================== *)
(** * Scenarios: paged upstreams, mock upstreams and workers *)
(* ===================================================================== *)

Module Paging.

Import Client.

Section WithItems.

Variable item : Type.

(** A page of a paginated list as the upstream serves it: the URL it
    lives at, its rows, and its [Link] header. *)
Record page := Page {
  page_url : jstr;
  page_rows : list item;
  page_link : jstr
}.

Definition page_response (p : page) : response item :=
  {| status := 200; link := Some (page_link p); data := BArray (page_rows p) |}.

(** The [Link] header of every page names the next page of the list, and
    that of the last page names none. *)
Fixpoint linked (p : page) (rest : list page) : Prop :=
  match rest with
  | [] => continues (getNextPageUrl (page_link p)) = None
  | q :: rest' =>
      continues (getNextPageUrl (page_link p)) = Some (page_url q) /\
      linked q rest'
  end.

(** From its [n]-th request on, the upstream answers the requests for the
    pages [ps], taken in order, with those pages. *)
Definition serves (up : upstream item) (n : nat) (ps : list page) : Prop :=
  forall k p, List.nth_error ps k = Some p ->
    up (n + k) (page_url p) = Replied (page_response p).

(** The configuration of the follow-up request for a page. *)
Definition continuation (p : page) : config :=
  {| url := page_url p; __retryCount := None; _isPaginationRequest := true |}.

Definition initial_request (p : page) : config :=
  {| url := page_url p; __retryCount := None; _isPaginationRequest := false |}.

End WithItems.

End Paging.

Module Scenarios.

Import Client Gate Batch.

(** [<u>; rel="r"] *)
Definition link_to (u r : string) : jstr :=
  lit "<" ++ lit u ++ lit ">; rel=" ++ [dquote] ++ lit r ++ [dquote].

Definition ok_list (l : option jstr) (xs : list nat) : reply nat :=
  Replied {| status := 200; link := l; data := BArray xs |}.

Definition too_many_requests : reply nat :=
  Replied {| status := 429; link := None; data := BOther |}.

(** An upstream that answers 429 twice, then 200. *)
Definition flaky : upstream nat :=
  fun n _ =>
    match n with
    | 0 | 1 => too_many_requests
    | _ => ok_list None [7; 8]
    end.

(** A list of two pages whose last page carries no [Link] header. *)
Definition two_pages : upstream nat :=
  fun _ u =>
    if jstr_eqb u (lit "/courses") then
      ok_list (Some (link_to "/courses?page=2" "next")) [1; 2]
    else if jstr_eqb u (lit "/courses?page=2") then
      ok_list None [3]
    else Replied {| status := 404; link := None; data := BOther |}.

(** A list of three pages, every page with a [Link] header as Canvas
    sends them: the last one names the first and current page only. *)
Definition first_page : Paging.page nat :=
  {| Paging.page_url := lit "/courses";
     Paging.page_rows := [1; 2];
     Paging.page_link :=
       link_to "/courses?page=1" "current" ++ lit ","
       ++ link_to "/courses?page=2" "next" |}.

Definition second_page : Paging.page nat :=
  {| Paging.page_url := lit "/courses?page=2";
     Paging.page_rows := [3];
     Paging.page_link :=
       link_to "/courses?page=3" "next" ++ lit ","
       ++ link_to "/courses?page=1" "first" |}.

Definition third_page : Paging.page nat :=
  {| Paging.page_url := lit "/courses?page=3";
     Paging.page_rows := [4; 5];
     Paging.page_link :=
       link_to "/courses?page=3" "current" ++ lit ","
       ++ link_to "/courses?page=1" "first" |}.

Definition three_pages : upstream nat :=
  fun _ u =>
    if jstr_eqb u (lit "/courses") then
      Replied (Paging.page_response first_page)
    else if jstr_eqb u (lit "/courses?page=2") then
      Replied (Paging.page_response second_page)
    else if jstr_eqb u (lit "/courses?page=3") then
      Replied (Paging.page_response third_page)
    else Replied {| status := 404; link := None; data := BOther |}.

(** A worker whose promise is fulfilled with the double of an even item
    and rejected with the item itself when it is odd; the item is also the
    number of ticks the call takes. *)
Definition double_or_fail : processor nat nat nat :=
  fun i => {| latency := i;
              result := if Nat.even i then Fulfilled (2 * i)
                        else Rejected i |}.

(** A worker whose every call is rejected after one tick. *)
Definition always_fails : processor nat nat nat :=
  fun i => {| latency := 1; result := Rejected i |}.

Definition twelve_items : list nat := List.seq 1 12.

(** A session opened by a student, and a dashboard request that carries
    no credentials and finds no dashboard card. *)
Definition student : Dashboard.credentials :=
  {| Dashboard.token := lit "7~secret"; Dashboard.domain := lit "umd.instructure.com" |}.

Definition no_cards : Dashboard.request nat :=
  {| Dashboard.query := None;
     Dashboard.dashboard_cards := inr [];
     Dashboard.elapsed := 3 |}.

Definition no_rows : nat -> Dashboard.fetched nat :=
  fun _ => {| Dashboard.took := 1; Dashboard.rows := Some [] |}.

(** Rows that are their own instant, all of them valid dates. *)
Definition instant (row : nat) : option Z := Some (Z.of_nat row).

(** A recording job in state [processing], its audio received by multer
    as a webm file, and services that all work, the transcription coming
    back as the empty string. *)
Definition lecture : Ingestion.request :=
  {| Ingestion.userId := Some (lit "u1");
     Ingestion.courseId := Some (lit "422");
     Ingestion.recordingId := Some (lit "r1");
     Ingestion.title := Some (lit "Lecture 3");
     Ingestion.duration := Some (lit "61");
     Ingestion.audioFile :=
       Some {| Ingestion.path := lit "uploads/4f2a";
               Ingestion.mimetype := Some (lit "audio/webm") |} |}.

Definition job_started : Ingestion.world :=
  {| Ingestion.recordings :=
       {[ lit "r1" := {| Ingestion.rec_status := lit "processing";
                         Ingestion.rec_summary := None;
                         Ingestion.rec_transcription := None;
                         Ingestion.rec_audio_url := None;
                         Ingestion.rec_processed_at := None |} ]};
     Ingestion.local_files := {[ lit "uploads/4f2a" ]};
     Ingestion.storage := ∅;
     Ingestion.trace := [];
     Ingestion.tempFileWithExt := None |}.

Definition silent_audio : Ingestion.services :=
  {| Ingestion.storage_upload_error := None;
     Ingestion.transcribeAudio := inr (Some []);
     Ingestion.generateLectureSummary := fun _ => inr (lit "summary");
     Ingestion.publicUrl := fun name => lit "https://storage/recordings/" ++ name;
     Ingestion.recordings_update_error := fun _ => None;
     Ingestion.vectorizeRecording_fails := None;
     Ingestion.storage_remove_error := None;
     Ingestion.date_now := 1700 |}.

(** The same services when the audio has speech on it. *)
Definition spoken_audio : Ingestion.services :=
  {| Ingestion.storage_upload_error := None;
     Ingestion.transcribeAudio :=
       inr (Some (lit "Today we cover support vector machines."));
     Ingestion.generateLectureSummary := fun _ => inr (lit "summary");
     Ingestion.publicUrl := fun name => lit "https://storage/recordings/" ++ name;
     Ingestion.recordings_update_error := fun _ => None;
     Ingestion.vectorizeRecording_fails := None;
     Ingestion.storage_remove_error := None;
     Ingestion.date_now := 1700 |}.

(** The same lecture sent again after the failed run: multer stores the
    new upload under a new path, the rest of the world is as the failed
    run left it. *)
Definition lecture_again : Ingestion.request :=
  {| Ingestion.userId := Some (lit "u1");
     Ingestion.courseId := Some (lit "422");
     Ingestion.recordingId := Some (lit "r1");
     Ingestion.title := Some (lit "Lecture 3");
     Ingestion.duration := Some (lit "61");
     Ingestion.audioFile :=
       Some {| Ingestion.path := lit "uploads/9c1b";
               Ingestion.mimetype := Some (lit "audio/webm") |} |}.

Definition after_failed_run : Ingestion.world :=
  let w := snd (Ingestion.process silent_audio lecture job_started) in
  {| Ingestion.recordings := Ingestion.recordings w;
     Ingestion.local_files := {[ lit "uploads/9c1b" ]} ∪ Ingestion.local_files w;
     Ingestion.storage := Ingestion.storage w;
     Ingestion.trace := [];
     Ingestion.tempFileWithExt := None |}.

(** A configured store with one conversation, and the answers of the
    outside during a call. *)
Definition chat_store : Conversation.world nat :=
  {| Conversation.configured := true;
     Conversation.db :=
       {| Conversation.conversations :=
            [{| Conversation.conv_id := lit "c1";
                Conversation.conv_title := lit "Due dates";
                Conversation.user_id := lit "u1";
                Conversation.course_id := Some 422%Z;
                Conversation.updated_at := 5 |}];
          Conversation.messages := [] |} |}.

Definition at_1700 : Conversation.environment :=
  {| Conversation.date_now := 1700;
     Conversation.fresh_id := lit "m1";
     Conversation.insert_error := None;
     Conversation.update_error := None |}.

End Scenarios.

(* ===================================================================== *)
(** * The request queue of [CanvasClient] *)
(* ===================================================================== *)

Module RequestQueue.

Section WithRequests.

(** The queued closures [() => Promise<any>], told apart by what they
    stand for. *)
Variable request : Type.

(** [requestQueue] and [activeRequests], and the closures called so far,
    in the order of the calls.  The counter is a number that is
    incremented and decremented, hence an integer. *)
Record state := State {
  requestQueue : list request;
  activeRequests : Z;
  started : list request
}.

Definition idle : state :=
  {| requestQueue := []; activeRequests := 0; started := [] |}.

Variable maxConcurrentRequests : nat.

(** The [while] loop of [processRequestQueue]: [shift] a closure and call
    it while the queue is not empty and a slot is free. *)
Fixpoint drain (queue : list request) (active : Z) (called : list request)
  : state :=
  match queue with
  | [] => {| requestQueue := []; activeRequests := active; started := called |}
  | r :: queue' =>
      if Z.ltb active (Z.of_nat maxConcurrentRequests)
      then drain queue' (active + 1)%Z (called ++ [r])
      else {| requestQueue := queue; activeRequests := active;
              started := called |}
  end.

Definition processRequestQueue (st : state) : state :=
  drain (requestQueue st) (activeRequests st) (started st).

(** [queueRequest(requestFn)]: [push], then [processRequestQueue()]. *)
Definition queueRequest (r : request) (st : state) : state :=
  processRequestQueue
    {| requestQueue := requestQueue st ++ [r];
       activeRequests := activeRequests st;
       started := started st |}.

(** The [finally] callback of a started closure: [activeRequests--], then
    [processRequestQueue()]. *)
Definition settled (st : state) : state :=
  processRequestQueue
    {| requestQueue := requestQueue st;
       activeRequests := (activeRequests st - 1)%Z;
       started := started st |}.

(** What happens to the queue over time. *)
Inductive event :=
| Submit (r : request)
| Settle.

Definition step (st : state) (e : event) : state :=
  match e with
  | Submit r => queueRequest r st
  | Settle => settled st
  end.

Definition run (es : list event) : state := List.fold_left step es idle.

(** The closures submitted by a sequence of events, in order. *)
Fixpoint submitted (es : list event) : list request :=
  match es with
  | [] => []
  | Submit r :: es' => r :: submitted es'
  | Settle :: es' => submitted es'
  end.

(** What holds of the queue after the events [es]: no more closures
    are running than the limit allows, the closures were called in the
    order of their submission (the others still wait, in that order), and
    a closure waits only while all slots are taken. *)
Definition invariant (es : list event) (st : state) : Prop :=
  (activeRequests st <= Z.of_nat maxConcurrentRequests)%Z /\
  started st ++ requestQueue st = submitted es /\
  (requestQueue st = [] \/
   activeRequests st = Z.of_nat maxConcurrentRequests).

End WithRequests.

Arguments Settle {request}.
Arguments idle {request}.

End RequestQueue.

(* ===================================================================== *)
(** * The rows of a card *)
(* ===================================================================== *)

Module DashboardRows.

Import Dashboard.

(** The value a category processor is fulfilled with on one card: the
    rows of the remote call annotated with the card, or [[]] when the
    call threw or gave no array. *)
Definition rows_of {Course Row : Type} (annotate : Course -> Row -> Row)
    (call : Course -> fetched Row) (course : Course) : list Row :=
  match rows (call course) with
  | Some rs => List.map (annotate course) rs
  | None => []
  end.

(** Every row has a valid date under [key]. *)
Definition dated {Row : Type} (key : Row -> option Z) (l : list Row) : Prop :=
  List.Forall (fun r => key r <> None) l.

(** Both rows have a valid date, and that of [a] is not after that of
    [b]. *)
Definition not_after {Row : Type} (key : Row -> option Z) (a b : Row)
  : Prop :=
  match key a, key b with
  | Some x, Some y => (x <= y)%Z
  | _, _ => False
  end.

(** The date of the row is valid and is the instant [k]. *)
Definition at_instant {Row : Type} (key : Row -> option Z) (k : Z) (r : Row)
  : bool :=
  match key r with
  | Some x => Z.eqb x k
  | None => false
  end.

End DashboardRows.

(* ===================================================================== *)
(** * A program logic for the effects *)
(* ===================================================================== *)

Module EffLogic.

Import Eff.

(** [triple P c Q E]: started in a state of [P], the block [c] ends with
    a value and a state of [Q], or throws in a state of [E]. *)
Definition triple {S A} (P : S -> Prop) (c : M S A)
    (Q : A -> S -> Prop) (E : jstr -> S -> Prop) : Prop :=
  forall s, P s ->
    match c s with
    | (Value a, s') => Q a s'
    | (Throws e, s') => E e s'
    end.

(** What the cleanup of the handler depends on: the files on the local
    disk and the variable [tempFileWithExt]. *)
Definition disk (w : Ingestion.world) : gset jstr * option jstr :=
  (Ingestion.local_files w, Ingestion.tempFileWithExt w).

(** A block that neither touches the local disk nor [tempFileWithExt],
    however it ends. *)
Definition keeps_disk {A} (c : M Ingestion.world A) : Prop :=
  forall d, triple (fun s => disk s = d) c
                   (fun _ s => disk s = d) (fun _ s => disk s = d).

(** The states of the disk while the pipeline runs on the upload [f],
    [before] being the files that were there when the request came:
    before the copy for the transcription is made, after it is made, and
    when the cleanup is done. *)
Definition not_copied (before : gset jstr) (s : Ingestion.world) : Prop :=
  disk s = (before, None).

Definition copied (f : Ingestion.upload) (before : gset jstr)
    (s : Ingestion.world) : Prop :=
  disk s = ({[Ingestion.path f ++ Ingestion.extension f]} ∪ before,
            Some (Ingestion.path f ++ Ingestion.extension f)).

Definition cleaned (f : Ingestion.upload) (before : gset jstr)
    (s : Ingestion.world) : Prop :=
  Ingestion.local_files s ⊆ before ∖ {[Ingestion.path f]}.

End EffLogic.

(* ===================================================================== *)
(** * GeminiQueryService: the search configuration and its summary *)
(* ===================================================================== *)

Module GeminiSearch.

Import Gemini.

(** [arr.join(sep)] on an array of strings. *)
Fixpoint join (sep : jstr) (arr : list jstr) : jstr :=
  match arr with
  | [] => []
  | [x] => x
  | x :: rest => x ++ sep ++ join sep rest
  end.

(** [s.replace(c, r)] for a pattern of one code unit given as a string:
    the first occurrence only. *)
Fixpoint replace_first (c : N) (r : jstr) (s : jstr) : jstr :=
  match s with
  | [] => []
  | x :: s' => if N.eqb x c then r ++ s' else x :: replace_first c r s'
  end.

(** [searchConfig.filters] and [searchConfig.boost]; a key that was not
    set is [None], respectively [false]. *)
Record filters := Filters {
  type : option jstr;
  courseCode : option jstr
}.

Record boost := Boost {
  recent : bool;
  dueDate : bool
}.

Record search_config := SearchConfig {
  query : jstr;
  config_filters : filters;
  config_boost : boost;
  limit : nat
}.

(** A value used as a condition: [null] and the empty string are falsy. *)
Definition given (v : option jstr) : option jstr :=
  match v with
  | Some s => if truthy s then Some s else None
  | None => None
  end.

(** [buildSearchQuery(queryParams, originalQuery)] *)
Definition buildSearchQuery (queryParams : query_params)
    (originalQuery : jstr) : search_config :=
  let has_items := Nat.ltb 0 (List.length (specificItems queryParams)) in
  let words := join (lit " ") (keywords queryParams) in
  let query_type :=
    if bool_decide (intent queryParams = lit "find_assignments") && has_items
    then (join (lit " ") (specificItems queryParams) ++ lit " " ++ words,
          Some (lit "assignment"))
    else if bool_decide (searchType queryParams = lit "assignments")
    then (words ++ lit " assignment", Some (lit "assignment"))
    else if bool_decide (searchType queryParams = lit "announcements")
    then (words ++ lit " announcement", Some (lit "announcement"))
    else if bool_decide (searchType queryParams = lit "files")
    then (words ++ lit " file", Some (lit "file"))
    else (originalQuery, None) in
  let boosted :=
    bool_decide (timeFilter queryParams = Some (lit "this_week"))
    || bool_decide (priority queryParams = Some (lit "due_soon")) in
  {| query := fst query_type;
     config_filters :=
       {| type := snd query_type;
          courseCode := given (courseFilter queryParams) |};
     config_boost := {| recent := boosted; dueDate := boosted |};
     limit :=
       if bool_decide (intent queryParams = lit "get_course_info") then 20
       else if has_items then 5
       else 10 |}.

(** The [parts] array of [generateSearchSummary]. *)
Definition parts (queryParams : query_params) : list jstr :=
  (if bool_decide (searchType queryParams = lit "general") then []
   else [lit "Looking for " ++ searchType queryParams])
  ++ match given (courseFilter queryParams) with
     | Some c => [lit "in " ++ c]
     | None => []
     end
  ++ match given (timeFilter queryParams) with
     | Some t => [lit "for " ++ replace_first 95 (lit " ") t]
     | None => []
     end
  ++ (if Nat.ltb 0 (List.length (specificItems queryParams))
      then [lit "specifically: " ++
            join (lit ", ") (specificItems queryParams)]
      else []).

(** [generateSearchSummary(queryParams)] *)
Definition generateSearchSummary (queryParams : query_params) : jstr :=
  if Nat.ltb 0 (List.length (parts queryParams))
  then join (lit " ") (parts queryParams)
  else lit "General search".

(** Comparisons of string literals. *)
Ltac compare_literals :=
  repeat match goal with
         | |- context [bool_decide (?a = ?b)] =>
             first
               [ rewrite (bool_decide_eq_true_2 (a = b) eq_refl)
               | rewrite (bool_decide_eq_false_2 (a = b))
                   by (let H := fresh in
                       intros H; vm_compute in H; discriminate H) ]
         end.

End GeminiSearch.

(* ===================================================================== *)
(** * ConversationService: titles, lookup and deletion *)
(* ===================================================================== *)

Module ConversationService.

Import Eff Conversation.
Local Open Scope eff_scope.

(** [\w] without the [i] and [u] flags: ASCII letters, digits and [_]. *)
Definition is_word (c : N) : bool :=
  (N.leb 48 c && N.leb c 57) || (N.leb 65 c && N.leb c 90)
  || N.eqb c 95 || (N.leb 97 c && N.leb c 122).

(** [\s], which is also what [trim] strips: the white space and the line
    terminators of the language. *)
Definition is_space (c : N) : bool :=
  (N.leb 9 c && N.leb c 13) || N.eqb c 32 || N.eqb c 160 || N.eqb c 5760
  || (N.leb 8192 c && N.leb c 8202) || N.eqb c 8232 || N.eqb c 8233
  || N.eqb c 8239 || N.eqb c 8287 || N.eqb c 12288 || N.eqb c 65279.

Fixpoint trimStart (s : jstr) : jstr :=
  match s with
  | [] => []
  | c :: s' => if is_space c then trimStart s' else s
  end.

(** [s.trim()] *)
Definition trim (s : jstr) : jstr :=
  List.rev (trimStart (List.rev (trimStart s))).

(** [generateTitle(firstMessage)] *)
Definition generateTitle (firstMessage : jstr) : jstr :=
  let title :=
    List.firstn 50
      (trim (List.filter (fun c => is_word c || is_space c) firstMessage)) in
  if truthy title then title else lit "New Conversation".

Section WithMetadata.

Variable meta : Type.
Variable env : environment.

(** What the store answers to the lookup of [getOrCreateConversation]:
    an error, or the rows found, newest first and one at most; no data
    counts as no row. *)
Variable existingConversations : jstr + list conversation.

Definition retitled (title : jstr) (c : conversation) : conversation :=
  {| conv_id := conv_id c; conv_title := title; user_id := user_id c;
     course_id := course_id c; updated_at := updated_at c |}.

(** [getOrCreateConversation(userId, title, courseId)] *)
Definition getOrCreateConversation (userId title : jstr)
    (courseId : option Z) : M (world meta) conversation :=
  let temporary :=
    {| conv_id := temp_id env; conv_title := title; user_id := userId;
       course_id := courseId; updated_at := date_now env |} in
  let* available := isAvailable (meta := meta) in
  if negb available then ret temporary
  else
    try_catch
      (match existingConversations with
       | inl fetchError => throw fetchError
       | inr (conversation :: _) =>
           (if bool_decide (conv_title conversation = title) then ret tt
            else updateConversation env (conv_id conversation) (Some title));;;
           ret (retitled title conversation)
       | inr [] => createConversation env userId title courseId
       end)
      (fun _ => ret temporary).

(** The errors the store reports on the two queries of
    [deleteConversation], apart from that of [.single()] on a result
    that is not one row. *)
Variable fetchError : option jstr.
Variable deleteError : option jstr.

Definition not_found : jstr := lit "Conversation not found or access denied".

(** [deleteConversation(conversationId, userId)]; the rows of [messages]
    reference their conversation with [ON DELETE CASCADE]. *)
Definition deleteConversation (conversationId userId : jstr)
  : M (world meta) bool :=
  let* available := isAvailable (meta := meta) in
  if negb available then ret true
  else
    try_catch
      (let* w := get in
       match fetchError,
             List.filter
               (fun c => bool_decide (conv_id c = conversationId)
                         && bool_decide (user_id c = userId))
               (conversations (db w)) with
       | None, [_] =>
           match deleteError with
           | Some e => throw e
           | None =>
               modify (fun w =>
                 {| configured := configured w;
                    db := {| conversations :=
                               List.filter
                                 (fun c => negb (bool_decide
                                                   (conv_id c = conversationId)))
                                 (conversations (db w));
                             messages :=
                               List.filter
                                 (fun m => negb (bool_decide
                                                   (conversation_id m
                                                    = conversationId)))
                                 (messages (db w)) |} |});;;
               ret true
           end
       | _, _ => throw not_found
       end)
      (fun e => throw e).

End WithMetadata.

End ConversationService.

(* ===================================================================== *)
(** * The client and the orchestrator, with one log of what they do *)
(* ===================================================================== *)

Module ClientTrace.

Import Client.

Section WithItems.

Variable item : Type.

(** What the client does to the outside, in the order in which it does
    it: where [Client.world] keeps the requests and the delays in two
    lists, the log keeps them in one. *)
Inductive event :=
| Sent (c : config)             (* a request put on the wire *)
| Slept (ms : Z).               (* [await this.sleep(ms)] *)

Fixpoint requests (log : list event) : list config :=
  match log with
  | [] => []
  | Sent c :: log' => c :: requests log'
  | Slept _ :: log' => requests log'
  end.

Fixpoint sleeps (log : list event) : list Z :=
  match log with
  | [] => []
  | Sent _ :: log' => sleeps log'
  | Slept ms :: log' => ms :: sleeps log'
  end.

(** The world of [Client] that a log amounts to. *)
Definition erase (log : list event) : world :=
  {| sent := requests log; slept := sleeps log |}.

(** A result of the client with its log erased. *)
Definition erased (r : option (outcome item * list event))
  : option (outcome item * world) :=
  match r with
  | Some (o, log) => Some (o, erase log)
  | None => None
  end.

(** [sleep(ms)] is [setTimeout(resolve, ms)]: the timer waits [ms]
    milliseconds when [ms] is from 1 to 2^31 - 1, and 1 millisecond
    otherwise. *)
Definition timeout (ms : Z) : Z :=
  if Z.leb 1 ms && Z.leb ms 2147483647 then ms else 1%Z.

Section Interceptors.

Variable cfg : settings.

Variable again : config -> list event -> option (outcome item * list event).

(** The [while (nextUrl)] loop of the pagination interceptor. *)
Fixpoint follow (first : response item) (k : nat) (allData : list item)
    (nextUrl : option jstr) (log : list event)
  : option (outcome item * list event) :=
  match continues nextUrl with
  | None =>
      Some (Resolved {| status := status first; link := link first;
                        data := BArray allData |}, log)
  | Some u =>
      match k with
      | 0 => None
      | S k' =>
          match again {| url := u; __retryCount := None;
                         _isPaginationRequest := true |} log with
          | None => None
          | Some (Thrown e, log') => Some (Thrown e, log')
          | Some (Resolved nextResponse, log') =>
              match data nextResponse with
              | BOther => Some (Thrown TypeError, log')
              | BArray ys =>
                  match @getNextPageUrl_header item (link nextResponse) with
                  | inl e => Some (Thrown e, log')
                  | inr nxt => follow first k' (allData ++ ys) nxt log'
                  end
              end
          end
      end
  end.

(** The first response interceptor: automatic pagination. *)
Definition on_fulfilled (k : nat) (c : config) (resp : response item)
    (log : list event) : option (outcome item * list event) :=
  match data resp, paginated_link resp, _isPaginationRequest c with
  | BArray xs, Some h, false => follow resp k xs (getNextPageUrl h) log
  | _, _, _ => Some (Resolved resp, log)
  end.

(** The second response interceptor: retry after the delay, or transform
    the error. *)
Definition on_rejected (c : config) (rep : reply item) (log : list event)
  : option (outcome item * list event) :=
  if shouldRetry rep && retryCount_lt (__retryCount c) (maxRetries cfg)
  then
    let n := S (retryCount_or_0 (__retryCount c)) in
    let delay := (retryDelay cfg * 2 ^ (Z.of_nat n - 1))%Z in
    again {| url := url c; __retryCount := Some n;
             _isPaginationRequest := _isPaginationRequest c |}
          (log ++ [Slept delay])
  else
    Some (Thrown (transformed rep), log).

End Interceptors.

Section Run.

Variable cfg : settings.
Variable up : upstream item.

(** One pass of [this.client.request(config)], as [Client.request]. *)
Fixpoint request (fuel : nat) (c : config) (log : list event)
  : option (outcome item * list event) :=
  match fuel with
  | 0 => None
  | S f =>
      let log1 := log ++ [Sent c] in
      match up (List.length (requests log)) (url c) with
      | NoResponse => on_rejected cfg (request f) c NoResponse log1
      | Replied resp =>
          if validateStatus (status resp)
          then on_fulfilled (request f) f c resp log1
          else on_rejected cfg (request f) c (Replied resp) log1
      end
  end.

(** The attempts of the request for [u] that is retried [n] more times
    from the counter [k] on: each attempt but the last is followed by its
    delay. *)
Fixpoint attempts (u : jstr) (pagination : bool) (k n : nat) : list event :=
  let attempt := Sent {| url := u; __retryCount := Some k;
                         _isPaginationRequest := pagination |} in
  match n with
  | 0 => [attempt]
  | S n' =>
      attempt :: Slept (retryDelay cfg * 2 ^ Z.of_nat k)%Z
      :: attempts u pagination (S k) n'
  end.

End Run.

End WithItems.

End ClientTrace.

Module BatchTrace.

Import Gate Batch.

Section WithTypes.

Variables (I O E : Type).

(** What a run of the orchestrator does to the outside, in order: the
    calls of the processor and the pacing delays. *)
Inductive event :=
| Called (item : I)             (* [processor(item)] *)
| Paused (ms : nat).            (* the [setTimeout] between two batches *)

Fixpoint pauses (log : list event) : list nat :=
  match log with
  | [] => []
  | Called _ :: log' => pauses log'
  | Paused ms :: log' => ms :: pauses log'
  end.

Variable worker : processor I O E.

(** One iteration of the loop, as [Batch.one_batch]: the gate calls the
    processor, and the delay follows when the gate has returned and the
    batch is not the last. *)
Definition one_batch (count idx : nat) (batch : list I) (log : list event)
  : option (list event) :=
  let gate := processWithConcurrency worker MAX_CONCURRENT_REQUESTS batch in
  let log1 := log ++ List.map Called (calls gate) in
  match ended gate with
  | Returned _ =>
      Some (if Nat.ltb idx (count - 1)
            then log1 ++ [Paused REQUEST_DELAY] else log1)
  | Escaped _ => Some log1
  | Pending => None
  end.

Fixpoint each_batch (count idx : nat) (batches : list (list I))
    (log : list event) : option (list event) :=
  match batches with
  | [] => Some log
  | batch :: rest =>
      match one_batch count idx batch log with
      | None => None
      | Some log' => each_batch count (S idx) rest log'
      end
  end.

(** [processBatchWithRetry(items, processor, batchSize)] *)
Definition processBatchWithRetry (fuel : nat) (items : list I)
    (batchSize : nat) : option (list event) :=
  match make_batches fuel 0 items batchSize with
  | None => None
  | Some batches => each_batch (List.length batches) 0 batches []
  end.

(** The calls of the batches one after the other, with one delay between
    two consecutive batches. *)
Fixpoint spaced (batches : list (list I)) : list event :=
  match batches with
  | [] => []
  | batch :: rest =>
      List.map Called batch
      ++ match rest with
         | [] => []
         | _ :: _ => Paused REQUEST_DELAY :: spaced rest
         end
  end.

End WithTypes.

Arguments Paused {I} ms.

End BatchTrace.

(* ===================================================================== *)
(** * More scenarios *)
(* ===================================================================== *)

Module MoreScenarios.

Import Client.

(** An upstream that is down: every request is answered 503. *)
Definition unavailable : upstream nat :=
  fun _ _ => Replied {| status := 503; link := None; data := BOther |}.

(** An upstream on which the resource does not exist. *)
Definition not_found : upstream nat :=
  fun _ _ => Replied {| status := 404; link := None; data := BOther |}.

(** A request whose configuration carries a retry counter. *)
Definition counted (u : jstr) (k : nat) : config :=
  {| url := u; __retryCount := Some k; _isPaginationRequest := false |}.

(** Two dashboard cards with two rows each; a row is its own instant, and
    the rows of a card come latest first. *)
Definition two_cards : list nat := [1; 2].

Definition two_rows_each (card : nat) : Dashboard.fetched nat :=
  {| Dashboard.took := 1;
     Dashboard.rows := Some [10 * card + 5; 10 * card] |}.

End MoreScenarios.

(* ===================================================================== *)
(** * Properties of the client *)
(* ===================================================================== *)

Module ClientFacts.

Import Client Paging.

Section General.

Variable item : Type.
Variable cfg : settings.
Variable up : upstream item.

(** [shouldRetry] singles out network failures, 429 and the 5xx range. *)
Lemma shouldRetry_iff (rep : reply item) :
  shouldRetry rep = true <->
  rep = NoResponse \/
  exists r, rep = Replied r /\ (status r = 429 \/ 500 <= status r)%Z.
Proof.
  destruct rep as [|r]; simpl.
  - split; [now left | reflexivity].
  - rewrite orb_true_iff, Z.eqb_eq, Z.leb_le. split.
    + intros H. right. exists r. split; [reflexivity | exact H].
    + intros [H | (r' & Heq & H)]; [discriminate | now inversion Heq; subst].
Qed.

(** A client error other than 429 is not retryable. *)
Lemma shouldRetry_4xx (r : response item) :
  (400 <= status r < 500)%Z -> status r <> 429%Z ->
  shouldRetry (Replied r) = false.
Proof.
  intros Hr Hne. simpl. apply orb_false_iff. split.
  - now apply Z.eqb_neq.
  - apply Z.leb_gt. lia.
Qed.

(** The guard of the retry never holds while the counter is unset. *)
Lemma retryCount_lt_undefined (m : nat) : retryCount_lt None m = false.
Proof. reflexivity. Qed.

(** With the counter unset, the error interceptor transforms the error at
    once, whatever the failure, and sleeps for nothing. *)
Lemma on_rejected_undefined again (c : config) (rep : reply item) (w : world) :
  __retryCount c = None ->
  on_rejected cfg again c rep w = Some (Thrown (transformed rep), w).
Proof.
  intros Hc. unfold on_rejected. rewrite Hc, retryCount_lt_undefined.
  now rewrite andb_false_r.
Qed.

(** Had the counter been set, the interceptor would sleep
    [retryDelay * 2 ^ k] before retry number [k + 1]. *)
Lemma on_rejected_counted again (c : config) (rep : reply item) (w : world)
    (k : nat) :
  __retryCount c = Some k -> k < maxRetries cfg -> shouldRetry rep = true ->
  on_rejected cfg again c rep w =
  again {| url := url c; __retryCount := Some (S k);
           _isPaginationRequest := _isPaginationRequest c |}
        {| sent := sent w;
           slept := slept w ++ [(retryDelay cfg * 2 ^ Z.of_nat k)%Z] |}.
Proof.
  intros Hc Hk Hr. unfold on_rejected. rewrite Hc, Hr. simpl.
  apply Nat.ltb_lt in Hk. rewrite Hk.
  replace (Z.of_nat (S k) - 1)%Z with (Z.of_nat k) by lia.
  reflexivity.
Qed.

(** One unfolding of [request]. *)
Lemma request_S (fuel : nat) (c : config) (w : world) :
  request cfg up (S fuel) c w =
  let w1 := {| sent := sent w ++ [c]; slept := slept w |} in
  match up (List.length (sent w)) (url c) with
  | NoResponse => on_rejected cfg (request cfg up fuel) c NoResponse w1
  | Replied resp =>
      if validateStatus (status resp)
      then on_fulfilled (request cfg up fuel) fuel c resp w1
      else on_rejected cfg (request cfg up fuel) c (Replied resp) w1
  end.
Proof. reflexivity. Qed.

(** A failed reply to a request whose counter is unset ends the request:
    one request on the wire, no sleep, no second attempt. *)
Lemma request_failure_is_final (fuel : nat) (c : config) (w : world) :
  __retryCount c = None ->
  (forall r, up (List.length (sent w)) (url c) = Replied r ->
             validateStatus (status r) = false) ->
  request cfg up (S fuel) c w =
  Some (Thrown (transformed (up (List.length (sent w)) (url c))),
        {| sent := sent w ++ [c]; slept := slept w |}).
Proof.
  intros Hc Hbad. rewrite request_S. cbv zeta.
  destruct (up (List.length (sent w)) (url c)) as [|r] eqn:Hrep.
  - now apply on_rejected_undefined.
  - rewrite (Hbad r eq_refl). now apply on_rejected_undefined.
Qed.

(** A continuation request is returned as it is: the interceptor does not
    paginate it again. *)
Lemma on_fulfilled_continuation again (k : nat) (c : config)
    (resp : response item) (w : world) :
  _isPaginationRequest c = true ->
  on_fulfilled again k c resp w = Some (Resolved resp, w).
Proof.
  intros Hc. unfold on_fulfilled. rewrite Hc.
  destruct (data resp); [destruct (paginated_link resp) |]; reflexivity.
Qed.

(** A follow-up request for a page that the upstream serves. *)
Lemma request_continuation (fuel : nat) (p : page item) (w : world) :
  up (List.length (sent w)) (page_url p) = Replied (page_response p) ->
  request cfg up (S fuel) (continuation p) w =
  Some (Resolved (page_response p),
        {| sent := sent w ++ [continuation p]; slept := slept w |}).
Proof.
  intros Hup. rewrite request_S.
  change (url (continuation p)) with (page_url p). rewrite Hup. cbv zeta.
  change (validateStatus (status (page_response p))) with true. cbv iota.
  now apply on_fulfilled_continuation.
Qed.

Lemma serves_tail (n : nat) (p : page item) (ps : list (page item)) :
  serves up n (p :: ps) -> serves up (S n) ps.
Proof.
  intros H k q Hq. specialize (H (S k) q Hq).
  now replace (S n + k) with (n + S k) by lia.
Qed.

(** The loop follows a linked chain of pages to its end, appending the
    rows of each page in order and issuing one request per page. *)
Lemma follow_chain (fuel : nat) (first : response item) :
  forall (ps : list (page item)) (p : page item) (k : nat)
         (allData : list item) (w : world),
    linked p ps -> serves up (List.length (sent w)) ps ->
    List.length ps <= k ->
    follow (request cfg up (S fuel)) first k allData
           (getNextPageUrl (page_link p)) w =
    Some (Resolved {| status := status first; link := link first;
                      data := BArray (allData
                                      ++ List.concat (List.map (@page_rows item) ps)) |},
          {| sent := sent w ++ List.map (@continuation item) ps;
             slept := slept w |}).
Proof.
  induction ps as [|q ps IH]; intros p k allData w Hlink Hserve Hk.
  - simpl in Hlink. destruct k; simpl; rewrite Hlink; simpl;
      rewrite !app_nil_r; now destruct w.
  - destruct Hlink as [Hnext Hrest]. simpl in Hk.
    destruct k as [|k]; [lia |].
    cbn [follow]. rewrite Hnext.
    change {| url := page_url q; __retryCount := None;
              _isPaginationRequest := true |} with (continuation q).
    rewrite request_continuation.
    2:{ specialize (Hserve 0 q eq_refl). now rewrite Nat.add_0_r in Hserve. }
    cbn [page_response data link getNextPageUrl_header].
    rewrite (IH q k); try assumption; try lia.
    + cbn [sent slept List.map List.concat]. now rewrite <- !app_assoc.
    + cbn [sent]. rewrite length_app. cbn [List.length].
      replace (List.length (sent w) + 1) with (S (List.length (sent w))) by lia.
      now apply serves_tail with (p := q).
Qed.

(** A logical request for the first page of a linked chain, every page
    of which carries a [Link] header, resolves with the rows of all pages
    in page order, after one follow-up request per further page, each
    marked as a pagination request. *)
Lemma get_linked_pages (p : page item) (ps : list (page item)) :
  linked p ps -> serves up 0 (p :: ps) ->
  get cfg up (2 + List.length ps) (page_url p) =
  Some (Resolved {| status := 200; link := Some (page_link p);
                    data := BArray (List.concat
                                      (List.map (@page_rows item) (p :: ps))) |},
        {| sent := initial_request p :: List.map (@continuation item) ps;
           slept := [] |}).
Proof.
  intros Hlink Hserve. unfold get.
  change (2 + List.length ps) with (S (S (List.length ps))).
  rewrite request_S. cbn [start sent List.length url].
  pose proof (Hserve 0 p eq_refl) as H0. cbn [Nat.add] in H0. rewrite H0.
  cbv zeta. change (validateStatus (status (page_response p))) with true.
  cbv iota. unfold on_fulfilled.
  cbn [page_response data paginated_link link _isPaginationRequest].
  destruct (truthy (page_link p)) eqn:Htruthy.
  - rewrite (@follow_chain (List.length ps)
               {| status := 200; link := Some (page_link p);
                  data := BArray (page_rows p) |} ps p);
      [reflexivity | assumption | | lia].
    cbn [sent List.length app]. now apply serves_tail with (p := p).
  - destruct (page_link p) eqn:Hl; [|discriminate].
    destruct ps as [|q ps].
    + cbn. unfold page_response, initial_request.
      now rewrite Hl, app_nil_r.
    + destruct Hlink as [Hnext _]. rewrite Hl in Hnext. discriminate.
Qed.

End General.

Import Scenarios.

(** With the counter set by the caller the retry does start: the flaky
    upstream is asked three times, after delays of 1000 and 2000. *)
Example retry_with_counter_set :
  request default_settings flaky 5
    {| url := lit "/courses"; __retryCount := Some 0;
       _isPaginationRequest := false |} start =
  Some (Resolved {| status := 200; link := None; data := BArray [7; 8] |},
        {| sent := List.map (fun k => {| url := lit "/courses";
                                         __retryCount := Some k;
                                         _isPaginationRequest := false |})
                     [0; 1; 2];
           slept := [1000; 2000]%Z |}).
Proof. vm_compute. reflexivity. Qed.

(** C1 (code at the failing input).  Against the upstream that answers 429
    twice and then 200, a logical request of the client does not succeed:
    the retry guard compares the unset counter with [maxRetries], so the
    first 429 is thrown as a [CanvasAPIError] after a single request and
    without any backoff delay. *)
Theorem first_429_is_thrown :
  get default_settings flaky 5 (lit "/courses") =
  Some (Thrown (CanvasAPIError 429 BOther),
        {| sent := [{| url := lit "/courses"; __retryCount := None;
                       _isPaginationRequest := false |}];
           slept := [] |}).
Proof. vm_compute. reflexivity. Qed.

(** [getNextPageUrl] on headers as Canvas sends them. *)
Example getNextPageUrl_next :
  getNextPageUrl (Paging.page_link first_page) = Some (lit "/courses?page=2").
Proof. vm_compute. reflexivity. Qed.

Example getNextPageUrl_last :
  getNextPageUrl (Paging.page_link third_page) = None.
Proof. vm_compute. reflexivity. Qed.

Lemma three_pages_linked : linked first_page [second_page; third_page].
Proof. repeat split. Qed.

Lemma three_pages_served : serves three_pages 0 [first_page; second_page; third_page].
Proof.
  intros k p Hk.
  destruct k as [|[|[|k]]]; simpl in Hk;
    [ | | | now destruct k];
    injection Hk as <-; reflexivity.
Qed.

(** A list of three linked pages, each with a [Link] header, comes back
    as the concatenation of the pages, in order, after exactly two
    follow-up requests, both marked as pagination requests. *)
Lemma three_linked_pages :
  get default_settings three_pages 4 (lit "/courses") =
  Some (Resolved {| status := 200; link := Some (page_link first_page);
                    data := BArray [1; 2; 3; 4; 5] |},
        {| sent := [initial_request first_page; continuation second_page;
                    continuation third_page];
           slept := [] |}).
Proof.
  exact (get_linked_pages default_settings three_pages_linked
           three_pages_served).
Qed.

(** C6 (code at the failing input).  The upstream serves a list of two
    pages: the first carries a next link, the last carries no [Link]
    header.  The follow-up request is issued and marked, but the loop then
    calls [getNextPageUrl] on the missing header: the logical request ends
    in a TypeError instead of the rows [1; 2; 3]. *)
Theorem last_page_without_link_throws :
  get default_settings two_pages 5 (lit "/courses") =
  Some (Thrown TypeError,
        {| sent := [{| url := lit "/courses"; __retryCount := None;
                       _isPaginationRequest := false |};
                    {| url := lit "/courses?page=2"; __retryCount := None;
                       _isPaginationRequest := true |}];
           slept := [] |}).
Proof. vm_compute. reflexivity. Qed.

End ClientFacts.

(* ===================================================================== *)
(** * Properties of the concurrency gate *)
(* ===================================================================== *)

Module GateFacts.

Import Gate.

Section General.

Variables (I O E : Type).
Variable worker : processor I O E.
Variable maxConcurrency : nat.

Lemma race_None (t : nat) (ex : list (promise O E)) :
  race t ex = None -> ex = [].
Proof.
  destruct ex as [|p ps]; [reflexivity |]. simpl.
  destruct (race t ps) as [q|]; [destruct (Nat.ltb _ _) |]; discriminate.
Qed.

Lemma race_In (t : nat) (ex : list (promise O E)) (w : promise O E) :
  race t ex = Some w -> List.In w ex.
Proof.
  revert w. induction ex as [|p ps IH]; intros w; simpl; [discriminate |].
  destruct (race t ps) as [q|].
  - destruct (Nat.ltb _ _); intros [= <-]; [right; now apply IH | now left].
  - intros [= <-]. now left.
Qed.

(** One unfolding of the loop. *)
Lemma loop_cons (item : I) (rest : list I) (st : loop_state I O E) :
  loop worker maxConcurrency (item :: rest) st =
  let p := {| slot := List.length (results st);
              settles_at := now st + latency (worker item);
              value_of := result (worker item) |} in
  let st1 := {| now := now st; results := results st ++ [p];
                executing := executing st ++ [p];
                invoked := invoked st ++ [item] |} in
  if Nat.leb maxConcurrency (List.length (executing st1)) then
    match race (now st1) (executing st1) with
    | None => {| ended := Pending; calls := invoked st1 |}
    | Some w =>
        match value_of w with
        | Rejected e => {| ended := Escaped e; calls := invoked st1 |}
        | Fulfilled _ =>
            loop worker maxConcurrency rest
              {| now := seen (now st1) w; results := results st1;
                 executing := List.filter (stays (seen (now st1) w))
                                (executing st1);
                 invoked := invoked st1 |}
        end
    end
  else loop worker maxConcurrency rest st1.
Proof. reflexivity. Qed.

(** The loop either completes, or a rejection escapes through the awaited
    race: the rejection of a promise still in [executing], or that of the
    worker on one of the items. *)
Lemma loop_cases (items : list I) :
  forall st : loop_state I O E,
    loop worker maxConcurrency items st = completed worker items st \/
    exists e,
      ended (loop worker maxConcurrency items st) = Escaped e /\
      ((exists p, List.In p (executing st) /\ value_of p = Rejected e) \/
       (exists i, List.In i items /\ result (worker i) = Rejected e)).
Proof.
  induction items as [|item rest IH]; intros st.
  - left. unfold completed. simpl. now rewrite !app_nil_r.
  - rewrite loop_cons. cbv zeta.
    set (p := {| slot := List.length (results st);
                 settles_at := now st + latency (worker item);
                 value_of := result (worker item) |}).
    cbn [executing now results invoked].
    assert (Hstep : forall st1,
               results st1 = results st ++ [p] ->
               invoked st1 = invoked st ++ [item] ->
               (forall q, List.In q (executing st1) ->
                          List.In q (executing st) \/ q = p) ->
               loop worker maxConcurrency rest st1 = completed worker (item :: rest) st \/
               exists e,
                 ended (loop worker maxConcurrency rest st1) = Escaped e /\
                 ((exists q, List.In q (executing st) /\ value_of q = Rejected e) \/
                  (exists i, List.In i (item :: rest) /\
                             result (worker i) = Rejected e))).
    { intros st1 Hres Hinv Hex.
      destruct (IH st1) as [Hdone | (e & Hesc & Hwho)].
      - left. rewrite Hdone. unfold completed. rewrite Hres, Hinv.
        rewrite List.map_app. cbn [List.map value_of p].
        now rewrite <- !app_assoc.
      - right. exists e. split; [exact Hesc |].
        destruct Hwho as [(q & Hq & Hrej) | (i & Hi & Hrej)].
        + destruct (Hex q Hq) as [Hold | ->].
          * left. now exists q.
          * right. exists item. split; [now left | exact Hrej].
        + right. exists i. split; [now right | exact Hrej]. }
    destruct (Nat.leb maxConcurrency (List.length (executing st ++ [p]))).
    + destruct (race (now st) (executing st ++ [p])) as [w|] eqn:Hrace.
      * apply race_In in Hrace. apply in_app_or in Hrace.
        destruct (value_of w) as [v|e] eqn:Hw.
        -- apply Hstep; try reflexivity. cbn [executing].
           intros q Hq. apply List.filter_In in Hq. destruct Hq as [Hq _].
           apply in_app_or in Hq. destruct Hq as [Hq | [<- | []]]; auto.
        -- right. exists e. split; [reflexivity |].
           destruct Hrace as [Hold | [<- | []]].
           ++ left. now exists w.
           ++ right. exists item. split; [now left | exact Hw].
      * apply race_None in Hrace. now destruct (executing st).
    + apply Hstep; try reflexivity. cbn [executing].
      intros q Hq. apply in_app_or in Hq. destruct Hq as [Hq | [<- | []]]; auto.
Qed.

(** The gate never hangs: it returns one outcome per item or it throws. *)
Lemma gate_cases (items : list I) :
  processWithConcurrency worker maxConcurrency items =
    {| ended := Returned (List.map (outcome_of worker) items); calls := items |} \/
  exists e i,
    ended (processWithConcurrency worker maxConcurrency items) = Escaped e /\
    List.In i items /\ result (worker i) = Rejected e.
Proof.
  unfold processWithConcurrency.
  destruct (loop_cases items initial) as [Hdone | (e & Hesc & Hwho)].
  - left. exact Hdone.
  - right. destruct Hwho as [(p & [] & _) | (i & Hi & Hrej)].
    now exists e, i.
Qed.

(** When no call of the worker is rejected, the gate returns the outcomes
    of all items in input order, whatever the limit and the latencies. *)
Lemma gate_all_fulfilled (items : list I) :
  (forall i, List.In i items -> exists v, result (worker i) = Fulfilled v) ->
  processWithConcurrency worker maxConcurrency items =
  {| ended := Returned (List.map (outcome_of worker) items); calls := items |}.
Proof.
  intros Hok. destruct (gate_cases items) as [Hdone | (e & i & _ & Hi & Hrej)].
  - exact Hdone.
  - destruct (Hok i Hi) as [v Hv]. congruence.
Qed.

(** While fewer promises are in flight than the limit, the gate awaits no
    race and nothing can escape. *)
Lemma loop_below_limit (items : list I) :
  forall st : loop_state I O E,
    List.length (executing st) + List.length items < maxConcurrency ->
    loop worker maxConcurrency items st = completed worker items st.
Proof.
  induction items as [|item rest IH]; intros st Hlen.
  - unfold completed. simpl. now rewrite !app_nil_r.
  - rewrite loop_cons. cbv zeta. cbn [executing].
    cbn [List.length] in Hlen.
    replace (Nat.leb maxConcurrency _) with false.
    2:{ symmetry. apply Nat.leb_gt. rewrite length_app. simpl. lia. }
    rewrite IH.
    + unfold completed. cbn [results invoked value_of].
      rewrite List.map_app. cbn [List.map value_of].
      now rewrite <- !app_assoc.
    + cbn [executing]. rewrite length_app. simpl. lia.
Qed.

Lemma gate_below_limit (items : list I) :
  List.length items < maxConcurrency ->
  processWithConcurrency worker maxConcurrency items =
  {| ended := Returned (List.map (outcome_of worker) items); calls := items |}.
Proof. intros Hlen. now apply loop_below_limit. Qed.

End General.

Import Scenarios.

(** The gate at work below the limit: outcomes in input order, the
    rejection of item 1 recorded in its place. *)
Example gate_records_rejection_below_limit :
  processWithConcurrency double_or_fail 5 [4; 1; 6] =
  {| ended := Returned [Fulfilled 8; Rejected 1; Fulfilled 12];
     calls := [4; 1; 6] |}.
Proof. reflexivity. Qed.

(** C4 (code at the failing input).  One item, limit one, and a worker
    whose promise is rejected: the gate awaits the race over [executing],
    the rejection is thrown out of that await, and no outcome list is
    returned at all, where the specification asks for [[Rejected 1]]. *)
Theorem no_outcomes_when_race_rejects :
  processWithConcurrency double_or_fail 1 [1] =
  {| ended := Escaped 1; calls := [1] |}.
Proof. reflexivity. Qed.

(** C5 (code at the failing input).  Three items under limit two: the
    promise of item 1 is rejected while the gate awaits the race, the
    rejection leaves the gate as an exception and the worker is never
    called on the sibling item 6. *)
Theorem rejection_aborts_siblings :
  processWithConcurrency double_or_fail 2 [4; 1; 6] =
  {| ended := Escaped 1; calls := [4; 1] |}.
Proof. reflexivity. Qed.

End GateFacts.

(* ===================================================================== *)
(** * Properties of the batch orchestrator and of the metrics *)
(* ===================================================================== *)

Module BatchFacts.

Import Gate Batch.

Section General.

Variables (I O E : Type).
Variable worker : processor I O E.

(** Every entry of an outcome list is fulfilled or rejected. *)
Lemma fulfilled_plus_rejected (rs : list (settled O E)) :
  List.length (List.filter (@is_fulfilled O E) rs)
  + List.length (List.filter (@is_rejected O E) rs) = List.length rs.
Proof.
  induction rs as [|[v|e] rs IH]; simpl; lia.
Qed.

(** With a batch size of one at least, the batching loop ends, and the
    batches are consecutive slices of the input of at most that size. *)
Lemma make_batches_covers (items : list I) (batchSize : nat) :
  1 <= batchSize ->
  forall fuel i,
    List.length items - i <= fuel ->
    exists batches,
      make_batches fuel i items batchSize = Some batches /\
      List.concat batches = List.skipn i items /\
      List.Forall (fun b => List.length b <= batchSize) batches.
Proof.
  intros Hsize. induction fuel as [|fuel IH]; intros i Hfuel.
  - exists []. simpl.
    replace (Nat.ltb i (List.length items)) with false
      by (symmetry; apply Nat.ltb_ge; lia).
    repeat split; [| constructor].
    symmetry. apply List.skipn_all2. lia.
  - simpl. destruct (Nat.ltb i (List.length items)) eqn:Hi.
    + destruct (IH (i + batchSize)) as (bs & -> & Hcat & Hall); [lia |].
      eexists. split; [reflexivity |]. split.
      * simpl. rewrite Hcat. unfold slice.
        replace (i + batchSize - i) with batchSize by lia.
        rewrite Nat.add_comm, <- List.skipn_skipn.
        apply List.firstn_skipn.
      * constructor; [| exact Hall]. unfold slice.
        rewrite List.length_firstn. lia.
    + exists []. repeat split; [| constructor].
      symmetry. apply List.skipn_all2. apply Nat.ltb_ge in Hi. lia.
Qed.

(** With a batch size of zero the index never advances: on a non-empty
    input the batching loop does not end, whatever the fuel. *)
Lemma make_batches_zero (items : list I) (fuel : nat) :
  items <> [] -> make_batches fuel 0 items 0 = None.
Proof.
  intros Hne. destruct items as [|x xs]; [congruence |].
  induction fuel as [|fuel IH]; [reflexivity |].
  simpl in *. now rewrite IH.
Qed.

(** One batch: either the gate returned, all outcomes are appended and
    the counters stay balanced; or it threw, no outcome is appended and
    only [failedRequests] moves. *)
Lemma one_batch_cases (count idx : nat) (batch : list I)
    (st : batch_state O E) :
  exists st',
    one_batch worker count idx batch st = Some st' /\
    grows (perf st) (perf st') /\
    ((ended (processWithConcurrency worker MAX_CONCURRENT_REQUESTS batch)
        = Returned (List.map (outcome_of worker) batch) /\
      allResults st' = allResults st ++ List.map (outcome_of worker) batch /\
      (balanced (perf st) -> balanced (perf st'))) \/
     ((exists e, ended (processWithConcurrency worker MAX_CONCURRENT_REQUESTS
                          batch) = Escaped e) /\
      allResults st' = allResults st /\
      totalRequests (perf st') = totalRequests (perf st) /\
      successfulRequests (perf st') = successfulRequests (perf st) /\
      failedRequests (perf st')
        = failedRequests (perf st) + List.length batch)).
Proof.
  unfold one_batch.
  destruct (GateFacts.gate_cases worker MAX_CONCURRENT_REQUESTS batch)
    as [Hdone | (e & i & Hesc & _)].
  - rewrite Hdone. cbn [ended]. eexists. split; [reflexivity |].
    cbn [perf allResults]. split.
    + unfold grows. cbn. lia.
    + left. repeat split. unfold balanced. cbn.
      pose proof (fulfilled_plus_rejected (List.map (outcome_of worker) batch)) as H.
      rewrite List.length_map in H. lia.
  - rewrite Hesc. eexists. split; [reflexivity |].
    cbn [perf allResults]. split.
    + unfold grows. cbn. lia.
    + right. repeat split. now exists e.
Qed.

(** The loop over the batches always comes to its end, never with more
    outcomes than items, and the counters only grow. *)
Lemma each_batch_returns (batches : list (list I)) :
  forall count idx (st : batch_state O E),
  exists st',
    each_batch worker count idx batches st = Some st' /\
    grows (perf st) (perf st') /\
    List.length (allResults st')
      <= List.length (allResults st) + List.length (List.concat batches).
Proof.
  induction batches as [|batch rest IH]; intros count idx st.
  - exists st. simpl. repeat split; lia.
  - simpl.
    destruct (one_batch_cases count idx batch st)
      as (st1 & -> & Hg1 & Hcase).
    destruct (IH count (S idx) st1) as (st' & -> & Hg & Hlen).
    exists st'. split; [reflexivity |]. split.
    + unfold grows in *. lia.
    + rewrite length_app.
      destruct Hcase as [(_ & Hres & _) | (_ & Hres & _)]; rewrite Hres in Hlen.
      * rewrite length_app, List.length_map in Hlen. lia.
      * lia.
Qed.

(** When the gate returns on every batch, every item has its outcome, in
    input order, and balanced counters stay balanced. *)
Lemma each_batch_complete (batches : list (list I)) :
  (forall b, List.In b batches ->
     ended (processWithConcurrency worker MAX_CONCURRENT_REQUESTS b)
     = Returned (List.map (outcome_of worker) b)) ->
  forall count idx (st : batch_state O E),
  exists st',
    each_batch worker count idx batches st = Some st' /\
    allResults st'
      = allResults st ++ List.map (outcome_of worker) (List.concat batches) /\
    (balanced (perf st) -> balanced (perf st')).
Proof.
  induction batches as [|batch rest IH]; intros Hret count idx st.
  - exists st. simpl. now rewrite app_nil_r.
  - simpl.
    destruct (one_batch_cases count idx batch st)
      as (st1 & -> & _ & Hcase).
    destruct (IH (fun b Hb => Hret b (or_intror Hb)) count (S idx) st1)
      as (st' & -> & Hres & Hbal).
    exists st'. split; [reflexivity |].
    destruct Hcase as [(_ & Hres1 & Hbal1) | ((e & Hesc) & _)].
    + split; [| tauto].
      rewrite Hres, Hres1, List.map_app. now rewrite <- app_assoc.
    + rewrite (Hret batch (or_introl eq_refl)) in Hesc. discriminate.
Qed.

(** A run of the orchestrator only makes the counters grow. *)
Lemma run_grows (fuel : nat) (items : list I) (batchSize : nat)
    (m : metrics) (st : batch_state O E) :
  processBatchWithRetry worker fuel items batchSize m = Some st ->
  grows m (perf st).
Proof.
  unfold processBatchWithRetry.
  destruct (make_batches fuel 0 items batchSize) as [batches|]; [| discriminate].
  destruct (each_batch_returns batches (List.length batches) 0
              {| allResults := []; perf := m; paced := [] |})
    as (st' & -> & Hg & _).
  now intros [= <-].
Qed.

(** With a batch size below the limit of the gate, the default of ten
    included, no batch can throw: a run keeps balanced counters
    balanced. *)
Lemma run_balanced_below_limit (fuel : nat) (items : list I)
    (batchSize : nat) (m : metrics) (st : batch_state O E) :
  1 <= batchSize < MAX_CONCURRENT_REQUESTS ->
  processBatchWithRetry worker fuel items batchSize m = Some st ->
  balanced m -> balanced (perf st).
Proof.
  intros Hsize. unfold processBatchWithRetry.
  destruct (make_batches fuel 0 items batchSize) as [batches|] eqn:Hb;
    [| discriminate].
  assert (Hall : List.Forall (fun b => List.length b <= batchSize) batches).
  { clear -Hb. revert batches Hb. generalize 0 as i.
    induction fuel as [|fuel IH]; intros i batches; simpl;
      destruct (Nat.ltb i (List.length items)); try discriminate;
      try (intros [= <-]; constructor).
    destruct (make_batches fuel (i + batchSize) items batchSize) eqn:Hrec;
      [| discriminate].
    intros [= <-]. constructor; [| now apply (IH _ _ Hrec)].
    unfold slice. rewrite List.length_firstn. lia. }
  destruct (@each_batch_complete batches) with
      (count := List.length batches) (idx := 0)
      (st := {| allResults := @nil (settled O E); perf := m; paced := [] |})
    as (st' & -> & _ & Hbal).
  - intros b Hb'. rewrite List.Forall_forall in Hall.
    specialize (Hall b Hb').
    rewrite GateFacts.gate_below_limit; [reflexivity | lia].
  - now intros [= <-].
Qed.

End General.

(** [POST /logout] puts the three counters back to zero. *)
Lemma logout_resets (I O E : Type) (fuel : nat) (m : metrics) (t : nat) :
  step fuel m (@Logout I O E t) =
  Some {| totalRequests := 0; successfulRequests := 0; failedRequests := 0;
          averageResponseTime := 0; lastResetTime := t |}.
Proof. reflexivity. Qed.

(** Every event but the logout only makes the counters grow. *)
Lemma step_grows (I O E : Type) (fuel : nat) (m m' : metrics)
    (worker : processor I O E) (items : list I) (batchSize : nat) :
  step fuel m (RunBatches worker items batchSize) = Some m' -> grows m m'.
Proof.
  simpl. destruct (processBatchWithRetry worker fuel items batchSize m)
    as [st|] eqn:Hrun; [| discriminate].
  intros [= <-]. exact (run_grows Hrun).
Qed.

(** As long as every run stays within the limit of the gate, the
    accounting identity holds after any sequence of runs and logouts that
    starts from balanced counters. *)
Lemma steps_balanced_within_limit (I O E : Type) (fuel : nat)
    (es : list (event I O E)) :
  List.Forall within_limit es ->
  forall m m', balanced m -> steps fuel m es = Some m' -> balanced m'.
Proof.
  induction 1 as [|e es He _ IH]; intros m m' Hbal; simpl.
  - now intros [= <-].
  - destruct (step fuel m e) as [m1|] eqn:Hstep; [| discriminate].
    apply IH. destruct e as [worker items batchSize | t]; simpl in Hstep.
    + destruct (processBatchWithRetry worker fuel items batchSize m)
        as [st|] eqn:Hrun; [| discriminate].
      injection Hstep as <-.
      exact (run_balanced_below_limit He Hrun Hbal).
    + injection Hstep as <-. reflexivity.
Qed.

Import Scenarios.

(** The orchestrator with the default batch size: thirteen items in two
    batches, one pacing delay, balanced counters. *)
Example default_batches_balanced :
  processBatchWithRetry double_or_fail 13 (List.seq 1 13) COURSE_BATCH_SIZE
    (fresh_metrics 0) =
  Some {| allResults := List.map (outcome_of double_or_fail) (List.seq 1 13);
          perf := {| totalRequests := 13; successfulRequests := 6;
                     failedRequests := 7; averageResponseTime := 0;
                     lastResetTime := 0 |};
          paced := [REQUEST_DELAY] |}.
Proof. vm_compute. reflexivity. Qed.

(** C2 (code at the failing input).  One run over twelve items in one
    batch of twelve, every call of the worker rejected: the gate throws,
    the catch block adds the twelve items to [failedRequests] and leaves
    [totalRequests] alone, so that afterwards
    [successfulRequests + failedRequests] is 12 and [totalRequests] is 0. *)
Theorem thrown_batch_unbalances_metrics :
  exists m,
    steps 12 (fresh_metrics 0) [RunBatches always_fails twelve_items 12]
      = Some m /\
    totalRequests m = 0 /\
    successfulRequests m + failedRequests m = 12 /\
    ~ balanced m.
Proof.
  eexists. split; [vm_compute; reflexivity |].
  repeat split. unfold balanced. simpl. discriminate.
Qed.

(** C3 (code at the failing input).  On the same run, twelve items whose
    calls are all rejected, in one batch of twelve, the gate throws the
    rejection it awaited in the race.  The orchestrator catches it and
    returns, but with an empty outcome list for its twelve input items:
    the batch is counted as failed in the metrics and contributes no
    outcome. *)
Theorem thrown_batch_drops_outcomes :
  exists st,
    processBatchWithRetry always_fails 12 twelve_items 12 (fresh_metrics 0)
      = Some st /\
    allResults st = [] /\
    failedRequests (perf st) = 12 /\
    List.length (allResults st) <> List.length twelve_items.
Proof.
  eexists. split; [vm_compute; reflexivity |].
  split; [reflexivity |]. split; [reflexivity |]. vm_compute. discriminate.
Qed.

(** What does hold of the outcome list.  For every input list, worker
    and batch size of one at least, [processBatchWithRetry] returns:
    whatever a batch throws is caught.  The list it returns never has
    more outcomes than there are input items; it has exactly one outcome
    per input item, in input order, whenever the gate does not throw:
    when the batch size is below its limit (as the default of ten is) or
    no call of the worker is rejected. *)
Lemma processBatchWithRetry_outcomes (I O E : Type)
    (worker : processor I O E) (items : list I) (batchSize : nat)
    (m : metrics) :
  1 <= batchSize ->
  exists st,
    processBatchWithRetry worker (List.length items) items batchSize m
      = Some st /\
    List.length (allResults st) <= List.length items /\
    (batchSize < MAX_CONCURRENT_REQUESTS \/
     (forall i, List.In i items -> exists v, result (worker i) = Fulfilled v) ->
     allResults st = List.map (outcome_of worker) items).
Proof.
  intros Hsize. unfold processBatchWithRetry.
  destruct (@make_batches_covers I items batchSize Hsize (List.length items) 0)
    as (batches & -> & Hcat & Hall); [lia |].
  change (List.skipn 0 items) with items in Hcat.
  destruct (each_batch_returns worker batches (List.length batches) 0
              {| allResults := []; perf := m; paced := [] |})
    as (st & Hst & _ & Hlen).
  exists st. split; [exact Hst |]. split.
  - rewrite Hcat in Hlen. exact Hlen.
  - intros Hgood.
    destruct (@each_batch_complete I O E worker batches) with
        (count := List.length batches) (idx := 0)
        (st := {| allResults := @nil (settled O E); perf := m; paced := [] |})
      as (st' & Hst' & Hres & _).
    + intros b Hb. destruct Hgood as [Hsmall | Hok].
      * rewrite List.Forall_forall in Hall. specialize (Hall b Hb).
        rewrite GateFacts.gate_below_limit; [reflexivity | lia].
      * rewrite GateFacts.gate_all_fulfilled; [reflexivity |].
        intros i Hi. apply Hok. rewrite <- Hcat.
        apply List.in_concat. now exists b.
    + rewrite Hst in Hst'. injection Hst' as <-.
      now rewrite Hres, Hcat.
Qed.

(** Thirteen items in batches of ten: one outcome per item. *)
Lemma processBatchWithRetry_outcomes_witness :
  exists st,
    processBatchWithRetry double_or_fail 13 (List.seq 1 13) 10 (fresh_metrics 0)
      = Some st /\
    List.length (allResults st) <= 13 /\
    (10 < MAX_CONCURRENT_REQUESTS \/
     (forall i, List.In i (List.seq 1 13) ->
                exists v, result (double_or_fail i) = Fulfilled v) ->
     allResults st = List.map (outcome_of double_or_fail) (List.seq 1 13)).
Proof.
  apply (@processBatchWithRetry_outcomes nat nat nat double_or_fail
           (List.seq 1 13) 10 (fresh_metrics 0)).
  lia.
Defined.

End BatchFacts.

(* ===================================================================== *)
(** * Properties of the dashboard aggregation *)
(* ===================================================================== *)

Module DashboardFacts.

Import Batch Dashboard.

Section General.

Variables (Course Row : Type).
Variable annotate : Course -> Row -> Row.
Variables (due posted updated : Row -> option Z).
Variable engine_order : (Row -> Row -> option Z) -> list Row -> list Row.
Variables (listAssignments discussion_topics listFiles : Course -> fetched Row).
Variable healthy : credentials -> bool.

(** Without cards, the file fetcher runs the orchestrator over no batch
    at all and leaves the metrics as they are. *)
Lemma getAllFilesOptimized_nil (m : metrics) :
  getAllFilesOptimized annotate updated engine_order listFiles [] m
  = Some ([], m).
Proof. reflexivity. Qed.

(** C9.  When the session is authenticated and the fetched list of
    dashboard cards is empty, the dashboard handler answers 200 with the
    three categories (assignments, announcements, files) empty and with
    [coursesProcessed] equal to 0 in the performance summary; the session
    and the metrics are left as they were. *)
Theorem dashboard_without_cards (req : request Course) (s : session)
    (cur : credentials) (m : metrics) :
  authenticate (Course := Course) Row healthy req s = inr (Some cur) ->
  dashboard_cards req = inr [] ->
  dashboard annotate due posted updated engine_order listAssignments
    discussion_topics listFiles healthy req s m =
  Some (Ok200 {| courses := []; assignments := []; announcements := [];
                 files := [];
                 perf_summary :=
                   {| totalTime := elapsed req; coursesProcessed := 0;
                      assignmentsCount := 0; announcementsCount := 0;
                      filesCount := 0 |} |},
        Some cur, m).
Proof.
  intros Hauth Hcards. unfold dashboard. rewrite Hauth, Hcards.
  reflexivity.
Qed.

End General.

Import Scenarios.

(** C9 at work: an open session, a request without credentials, no card. *)
Lemma dashboard_without_cards_witness :
  dashboard (fun _ r => r) instant instant instant (fun _ l => l)
    no_rows no_rows no_rows (fun _ => true) no_cards (Some student)
    (fresh_metrics 0) =
  Some (Ok200 {| courses := []; assignments := []; announcements := [];
                 files := [];
                 perf_summary :=
                   {| totalTime := 3; coursesProcessed := 0;
                      assignmentsCount := 0; announcementsCount := 0;
                      filesCount := 0 |} |},
        Some student, fresh_metrics 0).
Proof.
  apply (@dashboard_without_cards nat nat (fun _ r => r) instant instant
           instant (fun _ l => l) no_rows no_rows no_rows (fun _ => true)
           no_cards (Some student) student (fresh_metrics 0));
    reflexivity.
Defined.

End DashboardFacts.

(* ===================================================================== *)
(** * Properties of the fallback query analyzer *)
(* ===================================================================== *)

Module GeminiFacts.

Import Gemini.

(** The course filter is [null] or the code of a known course. *)
Lemma detect_courseFilter_known (userQuery : jstr) (userCourses : list course) :
  null_or_in (List.map course_code userCourses)
    (detect_courseFilter userQuery userCourses).
Proof.
  induction userCourses as [|c rest IH]; simpl; [exact Logic.I |].
  destruct (includes (course_code c) userQuery || includes (name c) userQuery).
  - simpl. now left.
  - destruct (detect_courseFilter userQuery rest); simpl in *; auto.
Qed.

(** The example of the specification. *)
Example fallback_on_the_sample_query :
  let q := fallbackQueryProcessing
             (lit "What assignments are due this week in CMSC422?")
             [{| course_code := lit "CMSC422"; name := lit "Machine Learning" |}] in
  searchType q = lit "assignments" /\
  courseFilter q = Some (lit "CMSC422") /\
  timeFilter q = Some (lit "this_week").
Proof. vm_compute. repeat split. Qed.

Example fallback_on_the_empty_query :
  fallbackQueryProcessing [] [] =
  {| searchType := lit "general"; courseFilter := None; timeFilter := None;
     priority := None; keywords := []; specificItems := [];
     intent := lit "general_question" |}.
Proof. reflexivity. Qed.

(** C8.  The rule-based fallback is a total function of the query string
    and of the known courses: it has no failing path, and for every
    input, the empty string included, the object it returns is a
    well-formed search intent: [searchType] and [intent] are among their
    allowed values, [timeFilter] and [priority] are [null] or among
    theirs, [courseFilter] is [null] or the code of a known course,
    [specificItems] is the empty list and [keywords] is a list of words
    of more than two code units. *)
Theorem fallbackQueryProcessing_well_formed (userQuery : jstr)
    (userCourses : list course) :
  well_formed userCourses (fallbackQueryProcessing userQuery userCourses) /\
  specificItems (fallbackQueryProcessing userQuery userCourses) = [] /\
  List.Forall (fun word => 2 < List.length word)
    (keywords (fallbackQueryProcessing userQuery userCourses)).
Proof.
  split; [| split].
  - unfold well_formed, fallbackQueryProcessing.
    cbn [searchType intent timeFilter priority courseFilter].
    split; [| split; [| split; [| split]]].
    + destruct (isAssignment userQuery), (isAnnouncement userQuery),
        (isFile userQuery), (isCourse userQuery); simpl; auto 10.
    + destruct (isAssignment userQuery), (isCourse userQuery);
        simpl; auto 10.
    + unfold detect_timeFilter.
      repeat match goal with
             | |- context [if ?b then _ else _] => destruct b
             end; simpl; auto 10.
    + destruct (any_ci _ userQuery); simpl; auto 10.
    + apply detect_courseFilter_known.
  - reflexivity.
  - cbn [fallbackQueryProcessing keywords].
    apply List.Forall_forall. intros word Hword.
    apply List.filter_In in Hword. destruct Hword as [_ Hlen].
    now apply Nat.ltb_lt in Hlen.
Qed.

End GeminiFacts.

(* ===================================================================== *)
(** * Properties of the conversation service *)
(* ===================================================================== *)

Module ConversationFacts.

Import Eff Conversation.

Section General.

Variable meta : Type.
Variable env : environment.

(** The id of a temporary object starts with [temp-]. *)
Lemma temp_id_is_temporary : startsWith (lit "temp-") (temp_id env) = true.
Proof. reflexivity. Qed.

(** C10.  When the store is not configured, and likewise for every
    conversation id that begins with [temp-], [addMessage] returns
    normally with the temporary message object that echoes the given
    conversation id, content, role and metadata, and the world is left
    exactly as it was: no conversation and no message of the store is
    written. *)
Theorem addMessage_temporary (w : world meta)
    (conversationId content role : jstr) (metadata : meta) :
  configured w = false \/ startsWith (lit "temp-") conversationId = true ->
  addMessage env conversationId content role metadata w =
  (Value {| id := temp_id env; conversation_id := conversationId;
            content := content; role := role; metadata := metadata |},
   w).
Proof.
  intros Hskip. unfold addMessage, isAvailable, bind, get, ret.
  cbv beta iota.
  destruct (configured w); cbn [negb]; cbv iota.
  - destruct Hskip as [Hoff | Htemp]; [discriminate |].
    now rewrite Htemp.
  - reflexivity.
Qed.

(** Where temporary conversation ids come from: [createConversation]
    makes one up when the store is not configured or refuses the insert,
    and then writes nothing either. *)
Lemma createConversation_temporary (w : world meta) (userId title : jstr)
    (courseId : option Z) :
  configured w = false \/ (exists e, insert_error env = Some e) ->
  exists c,
    createConversation env userId title courseId w = (Value c, w) /\
    startsWith (lit "temp-") (conv_id c) = true.
Proof.
  intros Hwhy.
  unfold createConversation, try_catch, isAvailable, bind, get, ret, throw.
  cbv beta iota.
  destruct (configured w); cbn [negb]; cbv iota.
  - destruct Hwhy as [Hoff | (e & He)]; [discriminate |].
    rewrite He. eexists. split; reflexivity.
  - eexists. split; reflexivity.
Qed.

(** On a configured store and a durable conversation id, the message is
    inserted: the frame above is about the temporary path only. *)
Lemma addMessage_durable (w : world meta)
    (conversationId content role : jstr) (metadata : meta) :
  configured w = true -> startsWith (lit "temp-") conversationId = false ->
  insert_error env = None ->
  exists w',
    addMessage env conversationId content role metadata w =
    (Value {| id := fresh_id env; conversation_id := conversationId;
              content := content; role := role; metadata := metadata |},
     w') /\
    messages (db w') =
    messages (db w) ++
    [{| id := fresh_id env; conversation_id := conversationId;
        content := content; role := role; metadata := metadata |}].
Proof.
  intros Hon Hdurable Hins.
  unfold addMessage, updateConversation, attempt, try_catch, isAvailable,
    bind, get, ret, modify, throw.
  cbv beta iota. rewrite Hon. cbn [negb]. cbv iota.
  rewrite Hdurable, Hins. cbv beta iota. cbn [configured].
  rewrite Hon. cbn [negb orb].
  destruct (update_error env); cbv beta iota; eexists; split; reflexivity.
Qed.

End General.

Import Scenarios.

(** C10 at work: a message for a temporary conversation, on a configured
    store. *)
Lemma addMessage_temporary_witness :
  addMessage at_1700 (lit "temp-1699") (lit "When is PS5 due?") (lit "user")
    0 chat_store =
  (Value {| id := lit "temp-1700"; conversation_id := lit "temp-1699";
            content := lit "When is PS5 due?"; role := lit "user";
            metadata := 0 |},
   chat_store).
Proof.
  apply (@addMessage_temporary nat at_1700 chat_store (lit "temp-1699")
           (lit "When is PS5 due?") (lit "user") 0).
  right. reflexivity.
Defined.

End ConversationFacts.

(* ===================================================================== *)
(** * Properties of the ingestion pipeline *)
(* ===================================================================== *)

Module IngestionFacts.

Import Eff Ingestion.

(** Rewriting with the equations of the monad. *)
Lemma bind_value {S A B} (c : M S A) (k : A -> M S B) (s s' : S) (a : A) :
  c s = (Value a, s') -> bind c k s = k a s'.
Proof. intros H. unfold bind. now rewrite H. Qed.

Lemma bind_throws {S A B} (c : M S A) (k : A -> M S B) (s s' : S)
    (e : jstr) :
  c s = (Throws e, s') -> bind c k s = (Throws e, s').
Proof. intros H. unfold bind. now rewrite H. Qed.

Lemma try_catch_throws {S A} (c : M S A) (h : jstr -> M S A) (s s' : S)
    (e : jstr) :
  c s = (Throws e, s') -> try_catch c h s = h e s'.
Proof. intros H. unfold try_catch. now rewrite H. Qed.

Lemma attempt_value {S} (c : M S unit) (s s' : S) :
  c s = (Value tt, s') -> attempt c s = (Value tt, s').
Proof. intros H. unfold attempt, try_catch. now rewrite H. Qed.

(** The file system calls on a file that exists. *)
Lemma readFileSync_exists (p : jstr) (w : world) :
  p ∈ local_files w -> readFileSync p w = (Value tt, w).
Proof.
  intros Hp. unfold readFileSync, bind, get.
  now rewrite bool_decide_eq_true_2.
Qed.

Lemma copyFileSync_exists (src dst : jstr) (w : world) :
  src ∈ local_files w ->
  copyFileSync src dst w =
  (Value tt,
   {| recordings := recordings w;
      local_files := {[dst]} ∪ local_files w;
      storage := storage w;
      trace := trace w ++ [Copied src dst];
      tempFileWithExt := tempFileWithExt w |}).
Proof.
  intros Hp. unfold copyFileSync, bind, get.
  now rewrite bool_decide_eq_true_2.
Qed.

Lemma unlinkSync_exists (p : jstr) (w : world) :
  p ∈ local_files w ->
  unlinkSync p w =
  (Value tt,
   {| recordings := recordings w;
      local_files := local_files w ∖ {[p]};
      storage := storage w;
      trace := trace w ++ [Unlinked p];
      tempFileWithExt := tempFileWithExt w |}).
Proof.
  intros Hp. unfold unlinkSync, bind, get.
  now rewrite bool_decide_eq_true_2.
Qed.

(** The copy made for the transcription never has the path of the
    upload: an extension is appended to it. *)
Lemma extension_not_empty (f : upload) : extension f <> [].
Proof.
  unfold extension. destruct (mimetype f) as [mt|]; [| discriminate].
  destruct (includes (lit "webm") mt); discriminate.
Qed.

Lemma temp_copy_differs (f : upload) : path f ++ extension f <> path f.
Proof.
  intros H. apply (extension_not_empty (f := f)).
  apply (app_inv_head (path f)). now rewrite app_nil_r.
Qed.

(** The Supabase calls when they go through. *)
Lemma uploadAudioFile_fresh (svc : services) (uid rid : jstr) (w : world) :
  storage_upload_error svc = None ->
  audio_file_name uid rid ∉ storage w ->
  uploadAudioFile svc uid rid w =
  (Value tt,
   {| recordings := recordings w;
      local_files := local_files w;
      storage := {[audio_file_name uid rid]} ∪ storage w;
      trace := trace w ++ [Uploaded (audio_file_name uid rid)];
      tempFileWithExt := tempFileWithExt w |}).
Proof.
  intros Hok Hfresh. unfold uploadAudioFile, failing, bind, get, ret.
  rewrite Hok. now rewrite (bool_decide_eq_false_2 _ Hfresh).
Qed.

Lemma updateRecording_existing (svc : services) (rid : jstr) (u : update)
    (w : world) (row : recording) :
  recordings_update_error svc u = None ->
  recordings w !! rid = Some row ->
  updateRecording svc rid u w =
  (Value tt,
   {| recordings := alter (apply_update u (date_now svc)) rid (recordings w);
      local_files := local_files w;
      storage := storage w;
      trace := trace w ++ [RowUpdated rid u];
      tempFileWithExt := tempFileWithExt w |}).
Proof.
  intros Hok Hrow. unfold updateRecording, failing, bind, get, ret.
  rewrite Hok. now rewrite Hrow.
Qed.

Section ShortTranscription.

Variable svc : services.
Variables (uid cid rid : jstr) (ttl dur : option jstr).
Variable f : upload.
Variable w : world.
Variable row : recording.

Hypothesis fields_present :
  truthy uid = true /\ truthy cid = true /\ truthy rid = true.
Hypothesis upload_received : truthy (path f) = true /\ path f ∈ local_files w.
Hypothesis job_created : recordings w !! rid = Some row.
Hypothesis upload_stored :
  storage_upload_error svc = None /\ audio_file_name uid rid ∉ storage w.
Hypothesis transcription_short :
  exists t, transcribeAudio svc = inr t /\ too_short t = true.
Hypothesis status_write_accepted :
  recordings_update_error svc (failed_update too_short_message) = None.

(** The run of the handler on a transcription that is empty or too
    short, step by step. *)
Lemma process_short_transcription :
  process svc
    {| userId := Some uid; courseId := Some cid; recordingId := Some rid;
       title := ttl; duration := dur; audioFile := Some f |} w =
  (Value (Failed500 (lit "Failed to process recording: " ++ too_short_message)),
   {| recordings :=
        alter (apply_update (failed_update too_short_message) (date_now svc))
          rid (recordings w);
      local_files :=
        (({[path f ++ extension f]} ∪ local_files w) ∖ {[path f]})
        ∖ {[path f ++ extension f]};
      storage := {[audio_file_name uid rid]} ∪ storage w;
      trace := trace w ++ [Uploaded (audio_file_name uid rid);
                           Copied (path f) (path f ++ extension f);
                           RowUpdated rid (failed_update too_short_message);
                           Unlinked (path f);
                           Unlinked (path f ++ extension f)];
      tempFileWithExt := Some (path f ++ extension f) |}).
Proof using All.
  destruct fields_present as (Huid & Hcid & Hrid).
  destruct upload_received as (Hpath & Hfile).
  destruct upload_stored as (Hup & Hfresh).
  destruct transcription_short as (t & Ht & Hshort).
  unfold process. cbn [audioFile userId courseId recordingId present].
  rewrite Huid, Hcid, Hrid.
  erewrite try_catch_throws; [reflexivity |].
  erewrite bind_value by reflexivity.
  erewrite try_catch_throws.
  2:{ unfold pipeline.
      erewrite bind_value by (apply readFileSync_exists; exact Hfile).
      erewrite bind_value by (now apply uploadAudioFile_fresh).
      erewrite bind_value by reflexivity.
      erewrite bind_value by (apply copyFileSync_exists; exact Hfile).
      rewrite Ht. erewrite bind_value by reflexivity.
      rewrite Hshort. reflexivity. }
  unfold on_processing_error.
  erewrite bind_value.
  2:{ apply attempt_value.
      now apply updateRecording_existing with (row := row). }
  rewrite Hpath.
  erewrite bind_value.
  2:{ apply attempt_value.
      erewrite bind_value.
      2:{ apply unlinkSync_exists. cbn [local_files].
          apply elem_of_union. now right. }
      unfold unlink_tempFileWithExt.
      erewrite bind_value by reflexivity.
      cbn [tempFileWithExt].
      rewrite (bool_decide_eq_false_2 _ (temp_copy_differs (f := f))).
      replace (truthy (path f ++ extension f)) with true.
      2:{ destruct (path f); [discriminate | reflexivity]. }
      cbn [andb negb].
      apply unlinkSync_exists. cbn [local_files].
      apply elem_of_difference. split.
      - apply elem_of_union. left. now apply elem_of_singleton.
      - rewrite elem_of_singleton. apply temp_copy_differs. }
  cbn [trace]. rewrite <- !app_assoc. reflexivity.
Qed.

End ShortTranscription.

Lemma unlinks_once_in_cleanup (f : upload) (before : list effect) :
  (forall e, List.In e before -> is_unlink_of (path f) e = false /\
                                 is_unlink_of (path f ++ extension f) e = false) ->
  unlinks (path f)
    (before ++ [Unlinked (path f); Unlinked (path f ++ extension f)]) = 1 /\
  unlinks (path f ++ extension f)
    (before ++ [Unlinked (path f); Unlinked (path f ++ extension f)]) = 1.
Proof.
  intros Hbefore. unfold unlinks.
  assert (Hnone : forall p, (p = path f \/ p = path f ++ extension f) ->
                           List.filter (is_unlink_of p) before = []).
  { intros p Hp. induction before as [|e rest IH]; [reflexivity |].
    cbn [List.filter].
    destruct (Hbefore e (or_introl eq_refl)) as [H1 H2].
    replace (is_unlink_of p e) with false by (destruct Hp; now subst).
    apply IH. intros e' He'. apply Hbefore. now right. }
  rewrite !List.filter_app, !Hnone by auto. cbn [List.filter is_unlink_of app].
  rewrite (bool_decide_eq_true_2 (path f = path f) eq_refl).
  rewrite (bool_decide_eq_true_2
             (path f ++ extension f = path f ++ extension f) eq_refl).
  rewrite (bool_decide_eq_false_2 _ (temp_copy_differs (f := f))).
  rewrite (bool_decide_eq_false_2 (path f = path f ++ extension f)).
  - split; reflexivity.
  - intros H. now apply (temp_copy_differs (f := f)).
Qed.

(** C7.  When the audio was received and uploaded, the transcription
    comes back empty or shorter than ten code units, and the store
    accepts the status write, the handler answers 500 and leaves the
    job's row with status [failed] and the non-empty summary
    [Processing failed: Transcription too short or empty]; its cleanup
    deletes the temporary blob, that is the upload kept on the local disk
    and the copy made of it for the transcription, each exactly once,
    and neither is on the disk afterwards.  The audio object in the
    storage bucket is no part of this cleanup: the handler removes it
    only once the transcript and the summary are persisted, so it is not
    removed here and stays stored. *)
Theorem short_transcription_fails_job (svc : services)
    (uid cid rid : jstr) (ttl dur : option jstr) (f : upload) (w : world)
    (row : recording) :
  truthy uid = true /\ truthy cid = true /\ truthy rid = true ->
  truthy (path f) = true /\ path f ∈ local_files w ->
  recordings w !! rid = Some row ->
  storage_upload_error svc = None /\ audio_file_name uid rid ∉ storage w ->
  (exists t, transcribeAudio svc = inr t /\ too_short t = true) ->
  recordings_update_error svc (failed_update too_short_message) = None ->
  exists (w' : world) (row' : recording) (added : list effect),
    process svc
      {| userId := Some uid; courseId := Some cid; recordingId := Some rid;
         title := ttl; duration := dur; audioFile := Some f |} w =
    (Value (Failed500 (lit "Failed to process recording: "
                       ++ too_short_message)), w') /\
    recordings w' !! rid = Some row' /\
    rec_status row' = lit "failed" /\
    rec_summary row' = Some (lit "Processing failed: " ++ too_short_message) /\
    truthy (lit "Processing failed: " ++ too_short_message) = true /\
    trace w' = trace w ++ added /\
    unlinks (path f) added = 1 /\
    unlinks (path f ++ extension f) added = 1 /\
    (path f ∉ local_files w') /\
    (path f ++ extension f ∉ local_files w') /\
    blob_deletions (audio_file_name uid rid) added = 0 /\
    audio_file_name uid rid ∈ storage w'.
Proof.
  intros Hfields Hupload Hrow Hstored Hshort Haccepted.
  eexists _, (apply_update (failed_update too_short_message) (date_now svc) row), _.
  split; [now apply process_short_transcription with (row := row) |].
  cbn [recordings trace local_files storage].
  split; [| split; [| split; [| split; [| split; [| split; [| split]]]]]].
  - rewrite lookup_alter, Hrow. simpl. now case_decide.
  - reflexivity.
  - reflexivity.
  - reflexivity.
  - reflexivity.
  - apply (@unlinks_once_in_cleanup f
             [Uploaded (audio_file_name uid rid);
              Copied (path f) (path f ++ extension f);
              RowUpdated rid (failed_update too_short_message)]).
    intros e [<- | [<- | [<- | []]]]; split; reflexivity.
  - apply (@unlinks_once_in_cleanup f
             [Uploaded (audio_file_name uid rid);
              Copied (path f) (path f ++ extension f);
              RowUpdated rid (failed_update too_short_message)]).
    intros e [<- | [<- | [<- | []]]]; split; reflexivity.
  - split; [| split; [| split]].
    + rewrite !elem_of_difference, elem_of_singleton. tauto.
    + rewrite elem_of_difference, elem_of_singleton. tauto.
    + reflexivity.
    + apply elem_of_union. left. now apply elem_of_singleton.
Qed.

Import Scenarios.

(** The success path: when the lecture is transcribed, the audio object
    is removed from storage, once, after the row is written. *)
Example blob_removed_after_success :
  blob_deletions (lit "u1/r1.webm")
    (trace (snd (process spoken_audio lecture job_started))) = 1 /\
  lit "u1/r1.webm" ∉ storage (snd (process spoken_audio lecture job_started)).
Proof.
  split; [vm_compute; reflexivity |].
  intros H. vm_compute in H. discriminate.
Qed.

(** A second attempt on the same recording after a failed run: the audio
    object of the first run is still stored, the upload does not
    overwrite, and fails on the name. *)
Example second_attempt_cannot_upload :
  fst (process spoken_audio lecture_again after_failed_run) =
  Value (Failed500 (lit "Failed to process recording: " ++ already_exists)).
Proof. vm_compute. reflexivity. Qed.

(** C7 at work: the transcription of the lecture comes back as the
    empty string and every service works. *)
Lemma short_transcription_fails_job_witness :
  exists (w' : world) (row' : recording) (added : list effect),
    process silent_audio
      {| userId := Some (lit "u1"); courseId := Some (lit "422");
         recordingId := Some (lit "r1"); title := Some (lit "Lecture 3");
         duration := Some (lit "61");
         audioFile := Some {| path := lit "uploads/4f2a";
                              mimetype := Some (lit "audio/webm") |} |}
      job_started =
    (Value (Failed500 (lit "Failed to process recording: "
                       ++ too_short_message)), w') /\
    recordings w' !! lit "r1" = Some row' /\
    rec_status row' = lit "failed" /\
    rec_summary row' = Some (lit "Processing failed: " ++ too_short_message) /\
    truthy (lit "Processing failed: " ++ too_short_message) = true /\
    trace w' = trace job_started ++ added /\
    unlinks (path {| path := lit "uploads/4f2a";
                     mimetype := Some (lit "audio/webm") |}) added = 1 /\
    unlinks (path {| path := lit "uploads/4f2a";
                     mimetype := Some (lit "audio/webm") |}
             ++ extension {| path := lit "uploads/4f2a";
                             mimetype := Some (lit "audio/webm") |}) added = 1 /\
    (path {| path := lit "uploads/4f2a";
             mimetype := Some (lit "audio/webm") |} ∉ local_files w') /\
    (path {| path := lit "uploads/4f2a";
             mimetype := Some (lit "audio/webm") |}
     ++ extension {| path := lit "uploads/4f2a";
                     mimetype := Some (lit "audio/webm") |} ∉ local_files w') /\
    blob_deletions (audio_file_name (lit "u1") (lit "r1")) added = 0 /\
    audio_file_name (lit "u1") (lit "r1") ∈ storage w'.
Proof.
  apply (@short_transcription_fails_job silent_audio (lit "u1") (lit "422")
           (lit "r1") (Some (lit "Lecture 3")) (Some (lit "61"))
           {| path := lit "uploads/4f2a";
              mimetype := Some (lit "audio/webm") |}
           job_started
           {| rec_status := lit "processing"; rec_summary := None;
              rec_transcription := None; rec_audio_url := None;
              rec_processed_at := None |}).
  - repeat split.
  - split; [reflexivity |].
    change (lit "uploads/4f2a" ∈ ({[ lit "uploads/4f2a" ]} : gset jstr)).
    now apply elem_of_singleton_2.
  - reflexivity.
  - split; [reflexivity |]. apply not_elem_of_empty.
  - exists (Some []). split; reflexivity.
  - reflexivity.
Defined.

End IngestionFacts.

(* ===================================================================== *)
(** * Properties of the string operations *)
(* ===================================================================== *)

Module JsFacts.

Lemma startsWith_app (p s : jstr) : startsWith p (p ++ s) = true.
Proof.
  induction p as [|c p IH]; [reflexivity |]. simpl.
  now rewrite N.eqb_refl, IH.
Qed.

Lemma includes_app (p a b : jstr) : includes p (a ++ p ++ b) = true.
Proof.
  induction a as [|c a IH].
  - simpl. destruct (p ++ b) eqn:E; simpl; rewrite <- E, startsWith_app;
      reflexivity.
  - simpl. rewrite IH. apply orb_true_r.
Qed.

Lemma startsWith_prefix (p a b : jstr) :
  startsWith p a = true -> startsWith p (a ++ b) = true.
Proof.
  revert a. induction p as [|c p IH]; intros a; [reflexivity |].
  destruct a as [|d a]; simpl; [discriminate |].
  rewrite !andb_true_iff. intros [-> H]. split; [reflexivity | now apply IH].
Qed.

Lemma includes_app_l (p a b : jstr) :
  includes p a = true -> includes p (a ++ b) = true.
Proof.
  induction a as [|c a IH]; simpl.
  - rewrite orb_false_r. intros H.
    destruct p; [| discriminate].
    destruct b; reflexivity.
  - rewrite !orb_true_iff. intros [H | H].
    + left. exact (startsWith_prefix (a := c :: a) b H).
    + right. now apply IH.
Qed.

Lemma includes_app_r (p a b : jstr) :
  includes p b = true -> includes p (a ++ b) = true.
Proof.
  intros H. induction a as [|c a IH]; [exact H |].
  simpl. rewrite IH. apply orb_true_r.
Qed.

(** A string without the separator is its own single segment. *)
Lemma split_no_separator (sep : N) (s : jstr) :
  List.Forall (fun c => c <> sep) s -> split sep s = [s].
Proof.
  induction 1 as [|c s Hc _ IH]; [reflexivity |].
  simpl. rewrite IH. apply N.eqb_neq in Hc. now rewrite Hc.
Qed.

Lemma split_first_prefix (sep : N) (s w : jstr) (ws : list jstr) :
  split sep s = w :: ws -> exists b, s = w ++ b.
Proof.
  revert w ws. induction s as [|c s IH]; intros w ws; simpl.
  - intros [= <- <-]. now exists [].
  - destruct (N.eqb c sep).
    + intros [= <- <-]. now exists (c :: s).
    + destruct (split sep s) as [|w' ws'] eqn:E.
      * intros [= <- <-]. destruct s; [now exists [] | ].
        simpl in E. destruct (N.eqb n sep); [discriminate |].
        destruct (split sep s); discriminate.
      * intros [= <- <-]. destruct (IH w' ws' eq_refl) as [b ->].
        now exists b.
Qed.

(** Every segment of a split is a piece of the string. *)
Lemma split_segments (sep : N) (s seg : jstr) :
  List.In seg (split sep s) -> exists a b, s = a ++ seg ++ b.
Proof.
  revert seg. induction s as [|c s IH]; intros seg; simpl.
  - intros [<- | []]. now exists [], [].
  - destruct (N.eqb c sep).
    + intros [<- | Hin].
      * now exists [], (c :: s).
      * destruct (IH seg Hin) as (a & b & ->). now exists (c :: a), b.
    + destruct (split sep s) as [|w ws] eqn:E.
      * intros [<- | []]. destruct s; [now exists [], [] |].
        simpl in E. destruct (N.eqb n sep); [discriminate |].
        destruct (split sep s); discriminate.
      * intros [<- | Hin].
        -- destruct (split_first_prefix E) as [b ->].
           now exists [], b.
        -- destruct (IH seg (or_intror Hin)) as (a & b & ->).
           now exists (c :: a), b.
Qed.

End JsFacts.

(* ===================================================================== *)
(** * More on the client: link headers, retries, the request queue *)
(* ===================================================================== *)

Module ClientMore.

Import Client JsFacts.

(** ** [getNextPageUrl] *)

Lemma lazy_until_gt_group (g rest : jstr) :
  List.Forall (fun c => c <> 62%N /\ line_terminator c = false) g ->
  lazy_until_gt (g ++ 62%N :: rest) = Some g.
Proof.
  induction 1 as [|c g [Hc Hlt] _ IH]; [reflexivity |].
  simpl. apply N.eqb_neq in Hc. now rewrite Hc, Hlt, IH.
Qed.

Lemma lazy_until_gt_no_terminator (s g : jstr) :
  lazy_until_gt s = Some g ->
  List.Forall (fun c => line_terminator c = false) g.
Proof.
  revert g. induction s as [|c s IH]; intros g; simpl; [discriminate |].
  destruct (N.eqb c 62); [intros [= <-]; constructor |].
  destruct (line_terminator c) eqn:Hlt; [discriminate |].
  destruct (lazy_until_gt s) as [g'|]; [| discriminate].
  intros [= <-]. constructor; [exact Hlt | now apply IH].
Qed.

Lemma match_angle_group (s u : jstr) :
  match_angle s = Some u ->
  u <> [] /\ List.Forall (fun c => line_terminator c = false) u.
Proof.
  induction s as [|c s IH]; simpl; [discriminate |].
  destruct (N.eqb c 60); [| exact IH].
  destruct s as [|d s']; [exact IH |].
  destruct (line_terminator d) eqn:Hd; [exact IH |].
  destruct (lazy_until_gt s') as [g|] eqn:Hg; [| exact IH].
  intros [= <-]. split; [discriminate |].
  constructor; [exact Hd | exact (lazy_until_gt_no_terminator Hg)].
Qed.

(** X1.  Round trip of the [Link] header: from the header
    [<u>; rel="next"] the client reads back the URL [u], for every
    non-empty [u] without comma, [>] and line terminator. *)
Theorem getNextPageUrl_reads_next_link (u : jstr) :
  u <> [] ->
  List.Forall (fun c => c <> 44%N /\ c <> 62%N /\ line_terminator c = false) u ->
  getNextPageUrl (lit "<" ++ u ++ lit ">; " ++ rel_next) = Some u.
Proof.
  intros Hne Hu. unfold getNextPageUrl.
  rewrite split_no_separator.
  - cbn [List.find].
    replace (lit "<" ++ u ++ lit ">; " ++ rel_next)
      with ((lit "<" ++ u ++ lit ">; ") ++ rel_next ++ [])
      by (now rewrite app_nil_r, <- !app_assoc).
    rewrite includes_app.
    rewrite app_nil_r, <- !app_assoc.
    destruct u as [|d u]; [congruence |].
    inversion Hu as [|? ? (_ & Hd & Hlt) Hrest]; subst.
    change (lit "<" ++ (d :: u) ++ lit ">; " ++ rel_next)
      with (60%N :: d :: (u ++ 62%N :: (lit "; " ++ rel_next))).
    cbn [match_angle]. rewrite N.eqb_refl, Hlt.
    rewrite lazy_until_gt_group; [reflexivity |].
    eapply List.Forall_impl; [| exact Hrest]. cbv beta. tauto.
  - apply List.Forall_app. split; [repeat constructor; discriminate |].
    apply List.Forall_app. split.
    + eapply List.Forall_impl; [| exact Hu]. cbv beta. tauto.
    + repeat constructor; discriminate.
Qed.

(** X2.  What [getNextPageUrl] hands to the pagination loop: never the
    empty string and never a string with a line terminator, so the loop
    [while (nextUrl)] goes on exactly when a URL was found; and when the
    header has no [rel="next"] in it, no URL at all. *)
Theorem getNextPageUrl_result (linkHeader : jstr) :
  (forall u, getNextPageUrl linkHeader = Some u ->
     u <> [] /\
     List.Forall (fun c => line_terminator c = false) u /\
     includes rel_next linkHeader = true) /\
  continues (getNextPageUrl linkHeader) = getNextPageUrl linkHeader.
Proof.
  assert (Hsome : forall u, getNextPageUrl linkHeader = Some u ->
     u <> [] /\
     List.Forall (fun c => line_terminator c = false) u /\
     includes rel_next linkHeader = true).
  { intros u. unfold getNextPageUrl.
    destruct (List.find (includes rel_next) (split 44 linkHeader))
      as [seg|] eqn:Hfind; [| discriminate].
    intros Hm. destruct (match_angle_group Hm) as [Hne Hlt].
    repeat split; try assumption.
    apply List.find_some in Hfind. destruct Hfind as [Hin Hinc].
    destruct (split_segments Hin) as (a & b & ->).
    apply includes_app_r. now apply includes_app_l. }
  split; [exact Hsome |].
  destruct (getNextPageUrl linkHeader) as [u|] eqn:E; [| reflexivity].
  destruct (Hsome u eq_refl) as (Hne & _). simpl.
  destruct u; [congruence | reflexivity].
Qed.

(** ** Retries *)

Section Retries.

Variable item : Type.
Variable cfg : settings.
Variable up : upstream item.

(** X3.  A client error other than 429 ends the request at once, whatever
    the retry counter of the configuration: one request on the wire, no
    sleep, and the error thrown is a [CanvasAPIError] carrying the status
    and the body of the reply. *)
Theorem client_error_is_final (fuel : nat) (c : config) (w : world)
    (r : response item) :
  up (List.length (sent w)) (url c) = Replied r ->
  (400 <= status r < 500)%Z -> status r <> 429%Z ->
  request cfg up (S fuel) c w =
  Some (Thrown (CanvasAPIError (status r) (data r)),
        {| sent := sent w ++ [c]; slept := slept w |}).
Proof.
  intros Hup Hrange Hne. rewrite ClientFacts.request_S, Hup. cbv zeta.
  replace (validateStatus (status r)) with false.
  2:{ symmetry. unfold validateStatus. apply andb_false_iff. right.
      apply Z.ltb_ge. lia. }
  unfold on_rejected.
  now rewrite (ClientFacts.shouldRetry_4xx Hrange Hne).
Qed.

End Retries.

Import MoreScenarios.

(** X1 at work. *)
Lemma getNextPageUrl_reads_next_link_witness :
  getNextPageUrl (lit "<" ++ lit "/courses?page=2" ++ lit ">; " ++ rel_next)
  = Some (lit "/courses?page=2").
Proof.
  apply (getNextPageUrl_reads_next_link (u := lit "/courses?page=2")).
  - discriminate.
  - repeat (constructor; [repeat split; (discriminate || reflexivity) |]).
    constructor.
Defined.

(** X3 at work: a 404, on a configuration with a counter. *)
Lemma client_error_is_final_witness :
  request default_settings not_found 1 (counted (lit "/courses/9") 0) start =
  Some (Thrown (CanvasAPIError 404 BOther),
        {| sent := [counted (lit "/courses/9") 0]; slept := [] |}).
Proof.
  apply (@client_error_is_final nat default_settings not_found 0
           (counted (lit "/courses/9") 0) start
           {| status := 404; link := None; data := BOther |}).
  - reflexivity.
  - cbn. lia.
  - discriminate.
Defined.

End ClientMore.

(* ===================================================================== *)
(** * The order of requests and delays *)
(* ===================================================================== *)

Module ClientTraceFacts.

Import Client ClientTrace.

Section General.

Variable item : Type.
Variable cfg : settings.

Lemma requests_app (log log' : list (event)) :
  requests (log ++ log') = requests log ++ requests log'.
Proof.
  induction log as [|[c|ms] log IH]; simpl; [reflexivity | now rewrite IH |
    exact IH].
Qed.

Lemma sleeps_app (log log' : list (event)) :
  sleeps (log ++ log') = sleeps log ++ sleeps log'.
Proof.
  induction log as [|[c|ms] log IH]; simpl; [reflexivity | exact IH |
    now rewrite IH].
Qed.

Lemma erase_sent (log : list event) (c : config) :
  erase (log ++ [Sent c])
  = {| sent := sent (erase log) ++ [c]; slept := slept (erase log) |}.
Proof.
  unfold erase. rewrite requests_app, sleeps_app. simpl.
  now rewrite app_nil_r.
Qed.

Lemma erase_slept (log : list event) (ms : Z) :
  erase (log ++ [Slept ms])
  = {| sent := sent (erase log); slept := slept (erase log) ++ [ms] |}.
Proof.
  unfold erase. rewrite requests_app, sleeps_app. simpl.
  now rewrite app_nil_r.
Qed.

(** The log refines the world of [Client]: erasing the order between
    requests and delays gives the run of [Client.request]. *)
Lemma follow_erased
    (again_t : config -> list event -> option (outcome item * list event))
    (again : config -> world -> option (outcome item * world)) :
  (forall c log, erased (again_t c log) = again c (erase log)) ->
  forall k first allData nextUrl log,
    erased (follow again_t first k allData nextUrl log)
    = Client.follow again first k allData nextUrl (erase log).
Proof.
  intros Hagain. induction k as [|k IH]; intros first allData nextUrl log.
  - simpl. now destruct (continues nextUrl).
  - simpl. destruct (continues nextUrl) as [u|]; [| reflexivity].
    rewrite <- Hagain.
    destruct (again_t _ log) as [[[r|e] log']|]; simpl; try reflexivity.
    destruct (data r); [| reflexivity].
    destruct (@getNextPageUrl_header item (link r)); [reflexivity |].
    apply IH.
Qed.

Lemma request_erased (up : upstream item) (fuel : nat) :
  forall c log,
    erased (request cfg up fuel c log)
    = Client.request cfg up fuel c (erase log).
Proof.
  induction fuel as [|fuel IH]; intros c log; [reflexivity |].
  rewrite ClientFacts.request_S. cbn [request]. cbv zeta.
  rewrite <- (erase_sent log c).
  change (sent (erase log)) with (requests log).
  assert (Hrej : forall rep,
             erased (on_rejected cfg (request cfg up fuel) c rep
                       (log ++ [Sent c]))
             = Client.on_rejected cfg (Client.request cfg up fuel) c rep
                 (erase (log ++ [Sent c]))).
  { intros rep. unfold on_rejected, Client.on_rejected.
    destruct (shouldRetry rep && _); [| reflexivity].
    cbv zeta. rewrite IH, erase_slept. reflexivity. }
  destruct (up (List.length (requests log)) (url c)) as [|resp];
    [apply Hrej |].
  destruct (validateStatus (status resp)); [| apply Hrej].
  unfold on_fulfilled, Client.on_fulfilled.
  destruct (data resp); [| reflexivity].
  destruct (paginated_link resp); [| reflexivity].
  destruct (_isPaginationRequest c); [reflexivity |].
  apply follow_erased. exact IH.
Qed.

Variable up : upstream item.

Lemma requests_attempts (c : config) (n : nat) :
  forall k,
    requests (attempts cfg (url c) (_isPaginationRequest c) k n)
    = List.map (fun j => {| url := url c; __retryCount := Some j;
                            _isPaginationRequest := _isPaginationRequest c |})
        (List.seq k (S n)).
Proof.
  induction n as [|n IH]; intros k; [reflexivity |].
  cbn [attempts requests]. rewrite IH. reflexivity.
Qed.

Lemma sleeps_attempts (c : config) (n : nat) :
  forall k,
    sleeps (attempts cfg (url c) (_isPaginationRequest c) k n)
    = List.map (fun j => (retryDelay cfg * 2 ^ Z.of_nat j)%Z) (List.seq k n).
Proof.
  induction n as [|n IH]; intros k; [reflexivity |].
  cbn [attempts sleeps]. rewrite IH. reflexivity.
Qed.

(** The attempts of one request against an upstream that keeps failing
    in a retryable way, from the counter [k] on. *)
Lemma retry_loop (n : nat) :
  forall (k extra : nat) (c : config) (log : list event),
    __retryCount c = Some k -> maxRetries cfg = k + n ->
    (forall i u, shouldRetry (up i u) = true /\
                 forall r, up i u = Replied r ->
                           validateStatus (status r) = false) ->
    request cfg up (S (n + extra)) c log =
    Some (Thrown (transformed (up (List.length (requests log) + n) (url c))),
          log ++ attempts cfg (url c) (_isPaginationRequest c) k n).
Proof.
  induction n as [|n IH]; intros k extra c log Hc Hmax Hdown.
  - cbn [request Nat.add]. cbv zeta.
    destruct (Hdown (List.length (requests log)) (url c)) as [_ Hbad].
    assert (Hfail : forall rep,
               on_rejected cfg (request cfg up extra) c rep (log ++ [Sent c])
               = Some (Thrown (transformed rep), log ++ [Sent c])).
    { intros rep. unfold on_rejected. rewrite Hc. cbn [retryCount_lt].
      replace (Nat.ltb k (maxRetries cfg)) with false
        by (symmetry; apply Nat.ltb_ge; lia).
      now rewrite andb_false_r. }
    rewrite Nat.add_0_r. cbn [attempts].
    destruct c as [u rc pg]. cbn [url __retryCount _isPaginationRequest] in *.
    subst rc.
    destruct (up (List.length (requests log)) u) as [|r] eqn:Hrep.
    + apply Hfail.
    + rewrite (Hbad r eq_refl). apply Hfail.
  - cbn [request Nat.add]. cbv zeta.
    destruct (Hdown (List.length (requests log)) (url c)) as [Hretry Hbad].
    assert (Hgo : forall rep,
               rep = up (List.length (requests log)) (url c) ->
               on_rejected cfg (request cfg up (S (n + extra))) c rep
                 (log ++ [Sent c])
               = Some (Thrown (transformed
                                 (up (List.length (requests log) + S n)
                                    (url c))),
                       log ++ attempts cfg (url c) (_isPaginationRequest c) k (S n))).
    { intros rep ->. unfold on_rejected. rewrite Hretry, Hc.
      cbn [retryCount_lt retryCount_or_0 andb].
      replace (Nat.ltb k (maxRetries cfg)) with true
        by (symmetry; apply Nat.ltb_lt; lia).
      cbv zeta.
      replace (Z.of_nat (S k) - 1)%Z with (Z.of_nat k) by lia.
      rewrite (IH (S k) extra); [| reflexivity | lia | exact Hdown].
      cbn [url _isPaginationRequest].
      rewrite !requests_app. cbn [requests]. rewrite !app_nil_r.
      rewrite length_app. cbn [List.length].
      replace (List.length (requests log) + 1 + n)
        with (List.length (requests log) + S n) by lia.
      destruct c as [u rc pg]. cbn [url __retryCount _isPaginationRequest] in *.
      subst rc. cbn [attempts url _isPaginationRequest].
      now rewrite <- !app_assoc. }
    destruct (up (List.length (requests log)) (url c)) as [|r] eqn:Hrep.
    + now apply Hgo.
    + rewrite (Hbad r eq_refl). now apply Hgo.
Qed.

(** X4.  A request whose configuration carries the retry counter 0, sent
    to an upstream that keeps failing in a retryable way, with delays in
    the range of the timer: the client sends the request, and then
    [maxRetries] times sleeps and sends it again, in this order; the
    delay slept before retry number [j] is [retryDelay * 2 ^ (j - 1)],
    which the timer waits as it is; after [maxRetries + 1] requests the
    error of the last attempt is thrown. *)
Theorem retries_are_bounded (c : config) (log : list event) :
  __retryCount c = Some 0 ->
  (forall i u, shouldRetry (up i u) = true /\
               forall r, up i u = Replied r ->
                         validateStatus (status r) = false) ->
  (forall j, j < maxRetries cfg ->
             (1 <= retryDelay cfg * 2 ^ Z.of_nat j <= 2147483647)%Z) ->
  request cfg up (S (maxRetries cfg)) c log =
  Some (Thrown (transformed
                  (up (List.length (requests log) + maxRetries cfg) (url c))),
        log ++ attempts cfg (url c) (_isPaginationRequest c) 0 (maxRetries cfg)) /\
  List.length (requests (attempts cfg (url c) (_isPaginationRequest c) 0 (maxRetries cfg)))
    = S (maxRetries cfg) /\
  List.Forall (fun ms => timeout ms = ms)
    (sleeps (attempts cfg (url c) (_isPaginationRequest c) 0 (maxRetries cfg))).
Proof.
  intros Hc Hdown Hrange. split; [| split].
  - rewrite <- (Nat.add_0_r (maxRetries cfg)) at 1.
    now apply retry_loop.
  - rewrite requests_attempts, List.length_map, List.length_seq.
    reflexivity.
  - rewrite sleeps_attempts. apply List.Forall_forall. intros ms Hms.
    apply List.in_map_iff in Hms. destruct Hms as (j & <- & Hj).
    apply List.in_seq in Hj. specialize (Hrange j ltac:(lia)).
    unfold timeout.
    replace (Z.leb 1 (retryDelay cfg * 2 ^ Z.of_nat j)) with true
      by (symmetry; apply Z.leb_le; lia).
    replace (Z.leb (retryDelay cfg * 2 ^ Z.of_nat j) 2147483647) with true
      by (symmetry; apply Z.leb_le; lia).
    reflexivity.
Qed.

End General.

Import MoreScenarios.

(** X4 at work: against an upstream that is down, with the defaults, the
    request goes out four times, with 1, 2 and 4 seconds in between. *)
Lemma retries_are_bounded_witness :
  request default_settings unavailable 4 (counted (lit "/courses") 0) [] =
  Some (Thrown (transformed (unavailable (0 + 3) (lit "/courses"))),
        [] ++ attempts default_settings (lit "/courses") false 0 3) /\
  List.length
    (requests (attempts default_settings (lit "/courses") false 0 3))
    = 4 /\
  List.Forall (fun ms => timeout ms = ms)
    (sleeps (attempts default_settings (lit "/courses") false 0 3)).
Proof.
  apply (@retries_are_bounded nat default_settings unavailable
           (counted (lit "/courses") 0) []).
  - reflexivity.
  - intros i u. split; [reflexivity |]. now intros r [= <-].
  - intros j Hj. cbn [maxRetries default_settings] in Hj.
    destruct j as [|[|[|j]]]; cbn; lia.
Defined.

Example default_backoff :
  attempts default_settings (lit "/courses") false 0 3 =
  [Sent (counted (lit "/courses") 0); Slept 1000;
   Sent (counted (lit "/courses") 1); Slept 2000;
   Sent (counted (lit "/courses") 2); Slept 4000;
   Sent (counted (lit "/courses") 3)].
Proof. reflexivity. Qed.

End ClientTraceFacts.


Module QueueFacts.

Import RequestQueue.

Section General.

Variable request : Type.
Variable maxConcurrentRequests : nat.

(** What one pass of the loop keeps and reaches. *)
Lemma drain_spec (queue : list request) :
  forall active called,
    let st := drain maxConcurrentRequests queue active called in
    started st ++ requestQueue st = called ++ queue /\
    (active <= activeRequests st)%Z /\
    ((active <= Z.of_nat maxConcurrentRequests)%Z ->
     (activeRequests st <= Z.of_nat maxConcurrentRequests)%Z) /\
    (requestQueue st = [] \/
     (Z.of_nat maxConcurrentRequests <= activeRequests st)%Z).
Proof.
  induction queue as [|r queue IH]; intros active called; simpl.
  - rewrite app_nil_r. repeat split; auto. lia.
  - destruct (Z.ltb active (Z.of_nat maxConcurrentRequests)) eqn:Hlt.
    + apply Z.ltb_lt in Hlt.
      destruct (IH (active + 1)%Z (called ++ [r])) as (H1 & H2 & H3 & H4).
      repeat split.
      * rewrite H1. now rewrite <- app_assoc.
      * lia.
      * intros _. apply H3. lia.
      * exact H4.
    + apply Z.ltb_ge in Hlt. simpl. repeat split; auto. lia.
Qed.

Lemma submitted_app (es es' : list (event request)) :
  submitted (es ++ es') = submitted es ++ submitted es'.
Proof.
  induction es as [|[r|] es IH]; simpl; [reflexivity | now rewrite IH | exact IH].
Qed.

(** X5.  Whatever the sequence of submissions and completions, the
    request queue never counts more running closures than
    [maxConcurrentRequests],
    calls them in the order of their submission, and lets a closure wait
    only while every slot is taken. *)
Theorem queue_keeps_limit_and_order (es : list (event request)) :
  invariant maxConcurrentRequests es (run maxConcurrentRequests es).
Proof.
  induction es as [|e es IH] using List.rev_ind.
  - unfold invariant. simpl. repeat split; auto. lia.
  - unfold invariant, run in *. rewrite List.fold_left_app.
    cbn [List.fold_left].
    set (st := List.fold_left (step maxConcurrentRequests) es idle) in *.
    destruct IH as (Hmax & Horder & Hbusy).
    rewrite submitted_app.
    destruct e as [r|]; cbn [step submitted].
    + unfold queueRequest, processRequestQueue.
      cbn [requestQueue activeRequests started].
      destruct (drain_spec (requestQueue st ++ [r]) (activeRequests st)
                  (started st)) as (H1 & H2 & H3 & H4).
      repeat split.
      * now apply H3.
      * rewrite H1, <- Horder. now rewrite <- app_assoc.
      * destruct H4 as [H4 | H4]; [now left | right].
        specialize (H3 Hmax). lia.
    + unfold settled, processRequestQueue.
      cbn [requestQueue activeRequests started].
      destruct (drain_spec (requestQueue st) (activeRequests st - 1)%Z
                  (started st)) as (H1 & H2 & H3 & H4).
      assert (Hle : (activeRequests st - 1 <= Z.of_nat maxConcurrentRequests)%Z)
        by lia.
      repeat split.
      * now apply H3.
      * rewrite H1, Horder. now rewrite app_nil_r.
      * destruct H4 as [H4 | H4]; [now left | right].
        specialize (H3 Hle). lia.
Qed.

End General.

End QueueFacts.

(* ===================================================================== *)
(** * More on the gate and on the batch orchestrator *)
(* ===================================================================== *)

Module GateMore.

Import Gate Batch.

Section General.

Variables (I O E : Type).
Variable worker : processor I O E.

(** The worker is called on a prefix of the items, in input order. *)
Lemma loop_calls_prefix (maxConcurrency : nat) (items : list I) :
  forall st : loop_state I O E,
    exists k, calls (loop worker maxConcurrency items st)
              = invoked st ++ List.firstn k items.
Proof.
  induction items as [|item rest IH]; intros st.
  - exists 0. simpl. now rewrite app_nil_r.
  - rewrite GateFacts.loop_cons. cbv zeta. cbn [executing now results invoked].
    assert (Hnext : forall st1, invoked st1 = invoked st ++ [item] ->
              exists k, calls (loop worker maxConcurrency rest st1)
                        = invoked st ++ List.firstn k (item :: rest)).
    { intros st1 Hinv. destruct (IH st1) as [k Hk].
      exists (S k). rewrite Hk, Hinv. simpl. now rewrite <- app_assoc. }
    destruct (Nat.leb maxConcurrency _).
    + destruct (race _ _) as [w|].
      * destruct (value_of w).
        -- now apply Hnext.
        -- exists 1. reflexivity.
      * exists 1. reflexivity.
    + now apply Hnext.
Qed.

(** X6.  The gate never hangs and never invents a failure: it either
    returns one outcome per item, in input order, after calling the
    worker on every item; or it throws the rejection of the worker on one
    of the items.  In both cases the worker was called on a prefix of the
    items, each at most once and in input order. *)
Theorem gate_returns_or_throws (maxConcurrency : nat) (items : list I) :
  (processWithConcurrency worker maxConcurrency items =
     {| ended := Returned (List.map (outcome_of worker) items);
        calls := items |} \/
   exists e i,
     ended (processWithConcurrency worker maxConcurrency items) = Escaped e /\
     List.In i items /\ result (worker i) = Rejected e) /\
  exists k,
    calls (processWithConcurrency worker maxConcurrency items)
    = List.firstn k items.
Proof.
  split.
  - apply GateFacts.gate_cases.
  - exact (loop_calls_prefix maxConcurrency items initial).
Qed.

(** X7.  When no call of the worker is rejected, or when there are fewer
    items than the limit, the gate returns the settled result of every
    item, in input order, whatever the latencies. *)
Theorem gate_isolates_when_no_race_rejects (maxConcurrency : nat)
    (items : list I) :
  (forall i, List.In i items -> exists v, result (worker i) = Fulfilled v) \/
  List.length items < maxConcurrency ->
  processWithConcurrency worker maxConcurrency items =
  {| ended := Returned (List.map (outcome_of worker) items); calls := items |}.
Proof.
  intros [Hok | Hfew].
  - now apply GateFacts.gate_all_fulfilled.
  - now apply GateFacts.gate_below_limit.
Qed.

(** ** Batching *)

(** The batches are consecutive slices; every batch but the last has
    exactly [batchSize] items, and no batch is empty. *)
Lemma make_batches_shape (items : list I) (batchSize : nat) :
  1 <= batchSize ->
  forall fuel i batches,
    make_batches fuel i items batchSize = Some batches ->
    List.Forall (fun b => 1 <= List.length b <= batchSize) batches /\
    (forall pre last, batches = pre ++ [last] ->
       List.Forall (fun b => List.length b = batchSize) pre).
Proof.
  intros Hsize. induction fuel as [|fuel IH]; intros i batches; simpl.
  - destruct (Nat.ltb i (List.length items)); [discriminate |].
    intros [= <-]. split; [constructor |].
    intros pre last H. now destruct pre.
  - destruct (Nat.ltb i (List.length items)) eqn:Hi.
    2:{ intros [= <-]. split; [constructor |].
        intros pre last H. now destruct pre. }
    apply Nat.ltb_lt in Hi.
    destruct (make_batches fuel (i + batchSize) items batchSize)
      as [rest|] eqn:Hrest; [| discriminate].
    intros [= <-]. destruct (IH _ _ Hrest) as [Hall Hfull].
    assert (Hlen : List.length (slice i (i + batchSize) items)
                   = Nat.min batchSize (List.length items - i)).
    { unfold slice. rewrite List.length_firstn, List.length_skipn.
      f_equal. lia. }
    split.
    + constructor; [lia | exact Hall].
    + intros pre last Heq. destruct pre as [|p pre].
      * constructor.
      * simpl in Heq. injection Heq as <- Heq.
        constructor; [| now apply (Hfull pre last)].
        rewrite Hlen. apply Nat.min_l.
        (* a further batch exists, so the index after this one is in range *)
        destruct (Nat.le_gt_cases (i + batchSize) (List.length items)) as [|Hgt];
          [lia |].
        exfalso. destruct fuel; simpl in Hrest.
        -- replace (Nat.ltb (i + batchSize) (List.length items)) with false
             in Hrest by (symmetry; apply Nat.ltb_ge; lia).
           injection Hrest as <-. now destruct pre.
        -- replace (Nat.ltb (i + batchSize) (List.length items)) with false
             in Hrest by (symmetry; apply Nat.ltb_ge; lia).
           injection Hrest as <-. now destruct pre.
Qed.

(** X8.  With a batch size of one at least, the orchestrator cuts the
    input into consecutive batches: their concatenation is the input, no
    batch is empty or longer than the batch size, and every batch but
    the last is full. *)
Theorem batches_partition_the_input (items : list I) (batchSize : nat) :
  1 <= batchSize ->
  exists batches,
    make_batches (List.length items) 0 items batchSize = Some batches /\
    List.concat batches = items /\
    List.Forall (fun b => 1 <= List.length b <= batchSize) batches /\
    (forall pre last, batches = pre ++ [last] ->
       List.Forall (fun b => List.length b = batchSize) pre).
Proof.
  intros Hsize.
  destruct (@BatchFacts.make_batches_covers I items batchSize Hsize
              (List.length items) 0) as (batches & Hb & Hcat & _); [lia |].
  exists batches. split; [exact Hb |]. split; [exact Hcat |].
  exact (make_batches_shape Hsize Hb).
Qed.

(** X9.  The two edges of the batching loop.  On an empty input the
    orchestrator returns at once, with no outcome, no pacing delay and
    the metrics untouched, whatever the batch size.  With a batch size of
    zero and an input that is not empty, it never returns: the index of
    the loop does not advance. *)
Theorem orchestrator_edges (batchSize fuel : nat) (m : metrics)
    (items : list I) :
  processBatchWithRetry worker fuel [] batchSize m =
    Some {| allResults := []; perf := m; paced := [] |} /\
  (items <> [] -> processBatchWithRetry worker fuel items 0 m = None).
Proof.
  split.
  - unfold processBatchWithRetry. now destruct fuel.
  - intros Hne. unfold processBatchWithRetry.
    now rewrite BatchFacts.make_batches_zero.
Qed.

(** ** Accounting *)

Lemma one_batch_returned (count idx : nat) (batch : list I)
    (st : batch_state O E) (outs : list (settled O E)) :
  ended (processWithConcurrency worker MAX_CONCURRENT_REQUESTS batch)
    = Returned outs ->
  one_batch worker count idx batch st =
  Some {| allResults := allResults st ++ outs;
          paced := if Nat.ltb idx (count - 1)
                   then paced st ++ [REQUEST_DELAY] else paced st;
          perf :=
            {| totalRequests := totalRequests (perf st) + List.length batch;
               successfulRequests :=
                 successfulRequests (perf st) +
                 List.length (List.filter (@is_fulfilled O E) outs);
               failedRequests :=
                 failedRequests (perf st) +
                 List.length (List.filter (@is_rejected O E) outs);
               averageResponseTime := averageResponseTime (perf st);
               lastResetTime := lastResetTime (perf st) |} |}.
Proof. intros H. unfold one_batch. now rewrite H. Qed.

(** What every batch does to the counters, thrown or not. *)
Lemma each_batch_accounting (batches : list (list I)) :
  forall count idx (st st' : batch_state O E),
    each_batch worker count idx batches st = Some st' ->
    successfulRequests (perf st') + failedRequests (perf st')
      = successfulRequests (perf st) + failedRequests (perf st)
        + List.length (List.concat batches) /\
    totalRequests (perf st')
      <= totalRequests (perf st) + List.length (List.concat batches) /\
    averageResponseTime (perf st') = averageResponseTime (perf st) /\
    lastResetTime (perf st') = lastResetTime (perf st).
Proof.
  induction batches as [|batch rest IH]; intros count idx st st'; simpl.
  - intros [= <-]. repeat split; lia.
  - unfold one_batch at 1.
    destruct (GateFacts.gate_cases worker MAX_CONCURRENT_REQUESTS batch)
      as [Hdone | (e & i & Hesc & _)].
    + rewrite Hdone. cbn [ended]. intros Hrest.
      destruct (IH _ _ _ _ Hrest) as (Hsum & Htot & Havg & Hreset).
      cbn [perf successfulRequests failedRequests totalRequests
             averageResponseTime lastResetTime] in *.
      pose proof (BatchFacts.fulfilled_plus_rejected
                    (List.map (outcome_of worker) batch)) as Hsplit.
      rewrite List.length_map in Hsplit.
      rewrite length_app. repeat split; lia.
    + rewrite Hesc. intros Hrest.
      destruct (IH _ _ _ _ Hrest) as (Hsum & Htot & Havg & Hreset).
      cbn [perf successfulRequests failedRequests totalRequests
             averageResponseTime lastResetTime] in *.
      rewrite length_app. repeat split; lia.
Qed.

(** X10.  Whatever the worker does and whatever the batch size (one at
    least), the orchestrator returns, and the run counts every item
    exactly once as successful or as failed; [totalRequests] grows by
    the number of items at most, and [averageResponseTime] and
    [lastResetTime] are never written. *)
Theorem every_item_is_counted_once (items : list I) (batchSize : nat)
    (m : metrics) :
  1 <= batchSize ->
  exists st : batch_state O E,
    processBatchWithRetry worker (List.length items) items batchSize m
      = Some st /\
    successfulRequests (perf st) + failedRequests (perf st)
      = successfulRequests m + failedRequests m + List.length items /\
    totalRequests (perf st) <= totalRequests m + List.length items /\
    averageResponseTime (perf st) = averageResponseTime m /\
    lastResetTime (perf st) = lastResetTime m.
Proof.
  intros Hsize. unfold processBatchWithRetry.
  destruct (@BatchFacts.make_batches_covers I items batchSize Hsize
              (List.length items) 0) as (batches & Hb & Hcat & _); [lia |].
  change (List.skipn 0 items) with items in Hcat.
  rewrite Hb.
  destruct (@BatchFacts.each_batch_returns I O E worker batches
              (List.length batches) 0
              {| allResults := []; perf := m; paced := [] |})
    as (st & Hrun & _).
  exists st. split; [exact Hrun |].
  destruct (each_batch_accounting Hrun) as (H1 & H2 & H3 & H4).
  cbn [perf] in *. rewrite Hcat in *. repeat split; assumption.
Qed.

(** The pacing delays of a run in which no batch throws. *)
Lemma each_batch_pacing (batches : list (list I)) :
  (forall b, List.In b batches ->
     ended (processWithConcurrency worker MAX_CONCURRENT_REQUESTS b)
     = Returned (List.map (outcome_of worker) b)) ->
  forall idx (st : batch_state O E),
  exists st',
    each_batch worker (idx + List.length batches) idx batches st = Some st' /\
    paced st' = paced st
                ++ List.repeat REQUEST_DELAY (List.length batches - 1) /\
    totalRequests (perf st')
      = totalRequests (perf st) + List.length (List.concat batches).
Proof.
  induction batches as [|batch rest IH]; intros Hret idx st.
  - exists st. simpl. rewrite app_nil_r. split; [reflexivity |].
    split; [reflexivity | lia].
  - cbn [each_batch].
    rewrite (one_batch_returned _ _ _ (Hret batch (or_introl eq_refl))).
    cbn [List.length].
    replace (idx + S (List.length rest)) with (S idx + List.length rest) by lia.
    match goal with
    | |- context [each_batch _ _ _ rest ?s] =>
        destruct (IH (fun b Hb => Hret b (or_intror Hb)) (S idx) s)
          as (st' & Hst' & Hp & Ht)
    end.
    exists st'. split; [exact Hst' |].
    cbn [paced perf totalRequests] in Hp, Ht.
    split.
    + rewrite Hp. clear Hp Ht Hst' IH Hret.
      destruct rest as [|b2 rest']; cbn [List.length].
      * replace (Nat.ltb idx (S idx + 0 - 1)) with false
          by (symmetry; apply Nat.ltb_ge; lia).
        reflexivity.
      * replace (Nat.ltb idx (S idx + S (List.length rest') - 1)) with true
          by (symmetry; apply Nat.ltb_lt; lia).
        replace (S (S (List.length rest')) - 1) with (S (List.length rest'))
          by lia.
        replace (S (List.length rest') - 1) with (List.length rest') by lia.
        cbn [List.repeat]. now rewrite <- app_assoc.
    + rewrite Ht. cbn [List.concat]. rewrite length_app. lia.
Qed.

End General.

Import Scenarios.

(** X7 at work: three items under limit two, all fulfilled, completing
    out of order. *)
Lemma gate_isolates_when_no_race_rejects_witness :
  processWithConcurrency double_or_fail 2 [8; 2; 6] =
  {| ended := Returned [Fulfilled 16; Fulfilled 4; Fulfilled 12];
     calls := [8; 2; 6] |}.
Proof.
  apply (@gate_isolates_when_no_race_rejects nat nat nat double_or_fail 2
           [8; 2; 6]).
  left. intros i [<- | [<- | [<- | []]]]; eexists; reflexivity.
Defined.

(** X8 at work: five items in batches of two. *)
Lemma batches_partition_the_input_witness :
  exists batches,
    make_batches 5 0 [1; 2; 3; 4; 5] 2 = Some batches /\
    List.concat batches = [1; 2; 3; 4; 5] /\
    List.Forall (fun b => 1 <= List.length b <= 2) batches /\
    (forall pre last, batches = pre ++ [last] ->
       List.Forall (fun b => List.length b = 2) pre).
Proof.
  apply (@batches_partition_the_input nat [1; 2; 3; 4; 5] 2). lia.
Defined.

(** X10 at work: twelve rejected calls in batches of twelve. *)
Lemma every_item_is_counted_once_witness :
  exists st : batch_state nat nat,
    processBatchWithRetry always_fails (List.length twelve_items)
      twelve_items 12 (fresh_metrics 0) = Some st /\
    successfulRequests (perf st) + failedRequests (perf st)
      = successfulRequests (fresh_metrics 0) + failedRequests (fresh_metrics 0)
        + List.length twelve_items /\
    totalRequests (perf st)
      <= totalRequests (fresh_metrics 0) + List.length twelve_items /\
    averageResponseTime (perf st) = averageResponseTime (fresh_metrics 0) /\
    lastResetTime (perf st) = lastResetTime (fresh_metrics 0).
Proof.
  apply (@every_item_is_counted_once nat nat nat always_fails twelve_items 12
           (fresh_metrics 0)).
  lia.
Defined.

End GateMore.

(* ===================================================================== *)
(** * The order of calls and pacing delays *)
(* ===================================================================== *)

Module BatchTraceFacts.

Import Gate Batch.

Section General.

Variables (I O E : Type).
Variable worker : processor I O E.

Lemma pauses_app (log log' : list (BatchTrace.event I)) :
  BatchTrace.pauses (log ++ log')
  = BatchTrace.pauses log ++ BatchTrace.pauses log'.
Proof.
  induction log as [|[i|ms] log IH]; simpl; [reflexivity | exact IH |
    now rewrite IH].
Qed.

Lemma pauses_calls (items : list I) :
  BatchTrace.pauses (List.map (@BatchTrace.Called I) items) = [].
Proof. induction items as [|i items IH]; [reflexivity | exact IH]. Qed.

(** The log refines the state of [Batch]: its delays are the ones the
    state counts, and both runs return together. *)
Lemma each_batch_erased (batches : list (list I)) :
  forall count idx (st : batch_state O E) (log : list (BatchTrace.event I)),
    BatchTrace.pauses log = paced st ->
    match each_batch worker count idx batches st,
          BatchTrace.each_batch worker count idx batches log with
    | Some st', Some log' => BatchTrace.pauses log' = paced st'
    | None, None => True
    | _, _ => False
    end.
Proof.
  induction batches as [|batch rest IH]; intros count idx st log Hlog.
  - exact Hlog.
  - cbn [each_batch BatchTrace.each_batch].
    unfold one_batch, BatchTrace.one_batch. cbv zeta.
    destruct (ended (processWithConcurrency worker MAX_CONCURRENT_REQUESTS
                       batch)) as [outs | e |].
    + apply IH. cbn [paced].
      destruct (Nat.ltb idx (count - 1)).
      * rewrite !pauses_app, pauses_calls, app_nil_r, Hlog. reflexivity.
      * now rewrite pauses_app, pauses_calls, app_nil_r.
    + apply IH. cbn [paced].
      now rewrite pauses_app, pauses_calls, app_nil_r.
    + exact Logic.I.
Qed.

(** Batches too small for the gate to await a race: every item is
    called, batch after batch, with one delay between two batches. *)
Lemma each_batch_spaced (batches : list (list I)) :
  (forall b, List.In b batches -> List.length b < MAX_CONCURRENT_REQUESTS) ->
  forall idx (log : list (BatchTrace.event I)),
    BatchTrace.each_batch worker (idx + List.length batches) idx batches log
    = Some (log ++ BatchTrace.spaced batches).
Proof.
  induction batches as [|batch rest IH]; intros Hsmall idx log.
  - simpl. now rewrite app_nil_r.
  - cbn [BatchTrace.each_batch]. unfold BatchTrace.one_batch. cbv zeta.
    rewrite (GateFacts.gate_below_limit worker
               (Hsmall batch (or_introl eq_refl))).
    cbn [ended calls List.length].
    replace (idx + S (List.length rest)) with (S idx + List.length rest)
      by lia.
    destruct rest as [|b2 rest'].
    + replace (Nat.ltb idx (S idx + List.length (@nil (list I)) - 1))
        with false by (symmetry; apply Nat.ltb_ge; simpl; lia).
      simpl. now rewrite app_nil_r.
    + replace (Nat.ltb idx (S idx + List.length (b2 :: rest') - 1))
        with true by (symmetry; apply Nat.ltb_lt; simpl; lia).
      rewrite (IH (fun b Hb => Hsmall b (or_intror Hb)) (S idx)).
      cbn [BatchTrace.spaced]. rewrite <- !app_assoc. reflexivity.
Qed.

(** X11.  With a batch size from 1 to 11, below the limit of the gate
    (the default of ten included), a run of the orchestrator calls the
    processor on the items batch after batch, in input order, and sleeps
    the pacing delay once between the last call of a batch and the first
    call of the next batch, and not after the last batch.  The delays
    the metrics' run counts are those of this log, and [totalRequests]
    grows by exactly the number of items. *)
Theorem paced_between_batches (items : list I) (batchSize : nat)
    (m : metrics) :
  1 <= batchSize < MAX_CONCURRENT_REQUESTS ->
  exists batches st,
    make_batches (List.length items) 0 items batchSize = Some batches /\
    BatchTrace.processBatchWithRetry worker (List.length items) items
      batchSize = Some (BatchTrace.spaced batches) /\
    processBatchWithRetry worker (List.length items) items batchSize m
      = Some st /\
    paced st = BatchTrace.pauses (BatchTrace.spaced batches) /\
    totalRequests (perf st) = totalRequests m + List.length items.
Proof.
  intros [Hsize Hlimit].
  destruct (@BatchFacts.make_batches_covers I items batchSize Hsize
              (List.length items) 0) as (batches & Hb & Hcat & Hall); [lia |].
  change (List.skipn 0 items) with items in Hcat.
  assert (Hsmall : forall b, List.In b batches ->
                     List.length b < MAX_CONCURRENT_REQUESTS).
  { intros b Hin. rewrite List.Forall_forall in Hall.
    specialize (Hall b Hin). lia. }
  destruct (@GateMore.each_batch_pacing I O E worker batches) with
      (idx := 0) (st := {| allResults := @nil (settled O E); perf := m;
                           paced := [] |})
    as (st & Hst & _ & Ht).
  { intros b Hin. now rewrite (GateFacts.gate_below_limit worker (Hsmall b Hin)). }
  pose proof (each_batch_spaced Hsmall 0 []) as Hlog.
  pose proof (@each_batch_erased batches (List.length batches) 0
                {| allResults := []; perf := m; paced := [] |} []
                eq_refl) as Hsame.
  cbn [Nat.add] in Hst, Hlog. rewrite Hst, Hlog in Hsame.
  exists batches, st. split; [exact Hb |].
  unfold processBatchWithRetry, BatchTrace.processBatchWithRetry.
  rewrite Hb. split; [exact Hlog |]. split; [exact Hst |].
  split; [now rewrite <- Hsame |].
  cbn [perf] in Ht. now rewrite Hcat in Ht.
Qed.

End General.

Import Scenarios.

(** X11 at work: thirteen items in batches of ten. *)
Lemma paced_between_batches_witness :
  exists batches st,
    make_batches 13 0 (List.seq 1 13) 10 = Some batches /\
    BatchTrace.processBatchWithRetry double_or_fail 13 (List.seq 1 13) 10
      = Some (BatchTrace.spaced batches) /\
    processBatchWithRetry double_or_fail 13 (List.seq 1 13) 10
      (fresh_metrics 0) = Some st /\
    paced st = BatchTrace.pauses (BatchTrace.spaced batches) /\
    totalRequests (perf st) = 0 + 13.
Proof.
  apply (@paced_between_batches nat nat nat double_or_fail (List.seq 1 13) 10
           (fresh_metrics 0)).
  unfold MAX_CONCURRENT_REQUESTS. lia.
Defined.

Example thirteen_items_paced :
  BatchTrace.processBatchWithRetry double_or_fail 13 (List.seq 1 13) 10 =
  Some (List.map (@BatchTrace.Called nat) (List.seq 1 10)
        ++ [BatchTrace.Paused 50]
        ++ List.map (@BatchTrace.Called nat) (List.seq 11 3)).
Proof. vm_compute. reflexivity. Qed.

End BatchTraceFacts.


(* ===================================================================== *)
(** * More on the dashboard aggregation *)
(* ===================================================================== *)

Module DashboardMore.

Import Gate Batch Dashboard DashboardRows.

Section General.

Variables (Course Row : Type).
Variable annotate : Course -> Row -> Row.
Variables (due posted updated : Row -> option Z).
Variable engine_order : (Row -> Row -> option Z) -> list Row -> list Row.
Variables (listAssignments discussion_topics listFiles : Course -> fetched Row).
Variable healthy : credentials -> bool.

(** The rows a processor makes of one card: the rows fetched, annotated
    with the card, or none when the call failed. *)
Lemma fulfilled_values_of_cards (call : Course -> fetched Row)
    (cards : list Course) :
  fulfilled_values
    (List.map (outcome_of (course_processor annotate call)) cards)
  = List.flat_map (rows_of annotate call) cards.
Proof.
  induction cards as [|c cards IH]; [reflexivity |].
  simpl. now rewrite IH.
Qed.

Lemma all_fulfilled (call : Course -> fetched Row) (cards : list Course) :
  List.filter (@is_fulfilled (list Row) unit)
    (List.map (outcome_of (course_processor annotate call)) cards)
  = List.map (outcome_of (course_processor annotate call)) cards /\
  List.filter (@is_rejected (list Row) unit)
    (List.map (outcome_of (course_processor annotate call)) cards) = [].
Proof.
  induction cards as [|c cards [IH1 IH2]]; [now split |].
  simpl. now rewrite IH1, IH2.
Qed.

(** A batch of cards: the processors never reject, so the gate returns
    and every card is counted as a successful request. *)
Lemma each_batch_of_cards (call : Course -> fetched Row)
    (batches : list (list Course)) :
  forall count idx (st : batch_state (list Row) unit),
  exists st',
    each_batch (course_processor annotate call) count idx batches st
      = Some st' /\
    allResults st'
      = allResults st
        ++ List.map (outcome_of (course_processor annotate call))
             (List.concat batches) /\
    totalRequests (perf st')
      = totalRequests (perf st) + List.length (List.concat batches) /\
    successfulRequests (perf st')
      = successfulRequests (perf st) + List.length (List.concat batches) /\
    failedRequests (perf st') = failedRequests (perf st) /\
    averageResponseTime (perf st') = averageResponseTime (perf st) /\
    lastResetTime (perf st') = lastResetTime (perf st).
Proof.
  induction batches as [|batch rest IH]; intros count idx st.
  - exists st. simpl. rewrite app_nil_r. repeat split; lia.
  - cbn [each_batch].
    rewrite (@GateMore.one_batch_returned _ _ _ _ count idx batch st
               (List.map (outcome_of (course_processor annotate call)) batch)).
    2:{ rewrite GateFacts.gate_all_fulfilled; [reflexivity |].
        intros i _. eexists. reflexivity. }
    destruct (all_fulfilled call batch) as [-> ->].
    match goal with
    | |- context [each_batch _ _ _ rest ?s] =>
        destruct (IH count (S idx) s) as (st' & Hst' & Hres & Ht & Hs & Hf & Ha & Hl)
    end.
    exists st'. split; [exact Hst' |].
    cbn [allResults perf totalRequests successfulRequests failedRequests
           averageResponseTime lastResetTime] in *.
    rewrite List.length_map in Hs. cbn [List.concat].
    rewrite List.map_app, length_app.
    split; [rewrite Hres; now rewrite <- app_assoc |].
    change (List.length (@nil (settled (list Row) unit))) with 0 in Hf.
    repeat split; try lia; try assumption.
Qed.

(** ** The stable sort *)

Lemma insert_sorted_perm (cmp : Row -> Row -> Z) (x : Row) (l : list Row) :
  Permutation (insert_sorted cmp x l) (x :: l).
Proof.
  induction l as [|y l IH]; simpl; [reflexivity |].
  destruct (Z.leb (cmp x y) 0); [reflexivity |].
  rewrite IH. apply perm_swap.
Qed.

Lemma stable_sort_perm (cmp : Row -> Row -> Z) (l : list Row) :
  Permutation (stable_sort cmp l) l.
Proof.
  induction l as [|x l IH]; simpl; [reflexivity |].
  unfold stable_sort in IH. rewrite insert_sorted_perm. now constructor.
Qed.

(** The sort only looks at comparisons of elements of the array. *)
Lemma insert_sorted_ext (cmp cmp' : Row -> Row -> Z) (x : Row)
    (l : list Row) :
  (forall y, List.In y l -> cmp x y = cmp' x y) ->
  insert_sorted cmp x l = insert_sorted cmp' x l.
Proof.
  induction l as [|y l IH]; intros H; [reflexivity |].
  cbn [insert_sorted]. rewrite (H y (or_introl eq_refl)).
  destruct (Z.leb (cmp' x y) 0); [reflexivity |].
  f_equal. apply IH. intros z Hz. apply H. now right.
Qed.

Lemma stable_sort_ext (cmp cmp' : Row -> Row -> Z) (l : list Row) :
  (forall x y, List.In x l -> List.In y l -> cmp x y = cmp' x y) ->
  stable_sort cmp l = stable_sort cmp' l.
Proof.
  induction l as [|x l IH]; intros H; [reflexivity |].
  change (insert_sorted cmp x (stable_sort cmp l)
          = insert_sorted cmp' x (stable_sort cmp' l)).
  rewrite IH by (intros a b Ha Hb; apply H; now right).
  apply insert_sorted_ext. intros y Hy.
  apply H; [now left | right].
  apply (Permutation_in y (stable_sort_perm cmp' l) Hy).
Qed.

Section Keyed.

(** A comparator that orders the rows by a key. *)
Variable key : Row -> Z.
Variable cmp : Row -> Row -> Z.
Hypothesis cmp_key : forall a b, (cmp a b <= 0 <-> key a <= key b)%Z.

Lemma insert_sorted_sorted (x : Row) (l : list Row) :
  Sorted.StronglySorted (fun a b => (key a <= key b)%Z) l ->
  Sorted.StronglySorted (fun a b => (key a <= key b)%Z)
    (insert_sorted cmp x l).
Proof using cmp_key.
  induction 1 as [|y l Hl IH Hy]; simpl.
  - repeat constructor.
  - destruct (Z.leb (cmp x y) 0) eqn:Hc.
    + apply Z.leb_le, cmp_key in Hc.
      constructor; [now constructor |].
      constructor; [exact Hc |].
      eapply List.Forall_impl; [| exact Hy]. cbv beta. lia.
    + apply Z.leb_gt in Hc.
      assert (Hyx : (key y <= key x)%Z).
      { destruct (Z.le_gt_cases (key x) (key y)) as [H | H]; [| lia].
        apply cmp_key in H. lia. }
      constructor; [exact IH |].
      rewrite (insert_sorted_perm cmp x l). constructor; assumption.
Qed.

Lemma stable_sort_sorted (l : list Row) :
  Sorted.StronglySorted (fun a b => (key a <= key b)%Z) (stable_sort cmp l).
Proof using cmp_key.
  induction l as [|x l IH]; simpl; [constructor |].
  now apply insert_sorted_sorted.
Qed.

(** The sort is stable: the rows of one key keep their order. *)
Lemma insert_sorted_stable (k : Z) (x : Row) (l : list Row) :
  List.filter (fun r => Z.eqb (key r) k) (insert_sorted cmp x l)
  = List.filter (fun r => Z.eqb (key r) k) (x :: l).
Proof using cmp_key.
  induction l as [|y l IH]; [reflexivity |].
  cbn [insert_sorted].
  destruct (Z.leb (cmp x y) 0) eqn:Hc; [reflexivity |].
  apply Z.leb_gt in Hc.
  assert (Hlt : (key y < key x)%Z).
  { destruct (Z.le_gt_cases (key x) (key y)) as [H | H]; [| lia].
    apply cmp_key in H. lia. }
  cbn [List.filter] in *. rewrite IH.
  destruct (Z.eqb (key y) k) eqn:Hy; [| reflexivity].
  apply Z.eqb_eq in Hy.
  replace (Z.eqb (key x) k) with false; [reflexivity |].
  symmetry. apply Z.eqb_neq. lia.
Qed.

Lemma stable_sort_stable (k : Z) (l : list Row) :
  List.filter (fun r => Z.eqb (key r) k) (stable_sort cmp l)
  = List.filter (fun r => Z.eqb (key r) k) l.
Proof using cmp_key.
  induction l as [|x l IH]; [reflexivity |].
  change (stable_sort cmp (x :: l))
    with (insert_sorted cmp x (stable_sort cmp l)).
  rewrite insert_sorted_stable. cbn [List.filter]. now rewrite IH.
Qed.

End Keyed.

(** ** Sorting rows by their dates *)

Lemma StronglySorted_on (R R' : Row -> Row -> Prop) (P : Row -> Prop)
    (l : list Row) :
  (forall a b, P a -> P b -> R a b -> R' a b) ->
  List.Forall P l ->
  Sorted.StronglySorted R l -> Sorted.StronglySorted R' l.
Proof.
  intros Himp HP. induction 1 as [|x l Hl IH Hx]; [constructor |].
  apply List.Forall_cons_iff in HP. destruct HP as [Px Pl].
  constructor; [now apply IH |].
  rewrite List.Forall_forall in *. intros y Hy.
  apply Himp; auto.
Qed.

Section Dated.

Variable key : Row -> option Z.

Lemma numeric_dated (l : list Row) (flip : bool) :
  dated key l ->
  numeric (fun a b => if flip then minus (key b) (key a)
                      else minus (key a) (key b)) l = true.
Proof.
  intros Hl. unfold numeric. apply List.forallb_forall. intros a Ha.
  apply List.forallb_forall. intros b Hb.
  unfold dated in Hl. rewrite List.Forall_forall in Hl.
  pose proof (Hl a Ha). pose proof (Hl b Hb).
  destruct flip, (key a), (key b); simpl; congruence.
Qed.

(** With valid dates only, the sort is the stable sort by the instants,
    ascending or, with the operands flipped, descending. *)
Lemma sort_ascending (l : list Row) :
  dated key l ->
  sort engine_order (fun a b => minus (key a) (key b)) l
  = stable_sort (fun a b => (number (key a) - number (key b))%Z) l.
Proof.
  intros Hl. unfold sort.
  rewrite (numeric_dated false Hl).
  apply stable_sort_ext. intros a b Ha Hb.
  unfold dated in Hl. rewrite List.Forall_forall in Hl.
  pose proof (Hl a Ha). pose proof (Hl b Hb).
  destruct (key a), (key b); simpl; congruence.
Qed.

Lemma sort_descending (l : list Row) :
  dated key l ->
  sort engine_order (fun a b => minus (key b) (key a)) l
  = stable_sort (fun a b => (number (key b) - number (key a))%Z) l.
Proof.
  intros Hl. unfold sort.
  rewrite (numeric_dated true Hl).
  apply stable_sort_ext. intros a b Ha Hb.
  unfold dated in Hl. rewrite List.Forall_forall in Hl.
  pose proof (Hl a Ha). pose proof (Hl b Hb).
  destruct (key a), (key b); simpl; congruence.
Qed.

Lemma dated_perm (l l' : list Row) :
  Permutation l' l -> dated key l -> dated key l'.
Proof.
  intros Hp Hl. unfold dated in *. rewrite List.Forall_forall in *.
  intros r Hr. apply Hl. exact (Permutation_in r Hp Hr).
Qed.

Lemma at_instant_number (k : Z) (l : list Row) :
  dated key l ->
  List.filter (at_instant key k) l
  = List.filter (fun r => Z.eqb (number (key r)) k) l.
Proof.
  intros Hl. apply List.filter_ext_in. intros r Hr.
  unfold dated in Hl. rewrite List.Forall_forall in Hl.
  specialize (Hl r Hr). unfold at_instant.
  destruct (key r); [reflexivity | congruence].
Qed.

(** What the sort of a category gives on rows with valid dates. *)
Lemma sort_ascending_spec (l : list Row) :
  dated key l ->
  Permutation (sort engine_order (fun a b => minus (key a) (key b)) l) l /\
  Sorted.StronglySorted (not_after key)
    (sort engine_order (fun a b => minus (key a) (key b)) l) /\
  forall k,
    List.filter (at_instant key k)
      (sort engine_order (fun a b => minus (key a) (key b)) l)
    = List.filter (at_instant key k) l.
Proof.
  intros Hl. rewrite (sort_ascending Hl).
  set (cmp := fun a b => (number (key a) - number (key b))%Z).
  assert (Hcmp : forall a b,
             (cmp a b <= 0 <-> number (key a) <= number (key b))%Z)
    by (intros a b; unfold cmp; lia).
  pose proof (stable_sort_perm cmp l) as Hp.
  split; [exact Hp |]. split.
  - apply StronglySorted_on
      with (R := fun a b => (number (key a) <= number (key b))%Z)
           (P := fun r => key r <> None).
    + intros a b Ha Hb. unfold not_after.
      destruct (key a), (key b); simpl; congruence.
    + exact (dated_perm Hp Hl).
    + exact (stable_sort_sorted Hcmp l).
  - intros k. rewrite (at_instant_number k (dated_perm Hp Hl)).
    rewrite (at_instant_number k Hl).
    exact (stable_sort_stable Hcmp k l).
Qed.

Lemma sort_descending_spec (l : list Row) :
  dated key l ->
  Permutation (sort engine_order (fun a b => minus (key b) (key a)) l) l /\
  Sorted.StronglySorted (fun a b => not_after key b a)
    (sort engine_order (fun a b => minus (key b) (key a)) l) /\
  forall k,
    List.filter (at_instant key k)
      (sort engine_order (fun a b => minus (key b) (key a)) l)
    = List.filter (at_instant key k) l.
Proof.
  intros Hl. rewrite (sort_descending Hl).
  set (cmp := fun a b => (number (key b) - number (key a))%Z).
  assert (Hcmp : forall a b,
             (cmp a b <= 0 <-> - number (key a) <= - number (key b))%Z)
    by (intros a b; unfold cmp; lia).
  pose proof (stable_sort_perm cmp l) as Hp.
  split; [exact Hp |]. split.
  - apply StronglySorted_on
      with (R := fun a b => (- number (key a) <= - number (key b))%Z)
           (P := fun r => key r <> None).
    + intros a b Ha Hb. unfold not_after.
      destruct (key a), (key b); simpl; try congruence. lia.
    + exact (dated_perm Hp Hl).
    + exact (stable_sort_sorted Hcmp l).
  - intros k. rewrite (at_instant_number k (dated_perm Hp Hl)).
    rewrite (at_instant_number k Hl).
    assert (Hext : forall l',
               List.filter (fun r => Z.eqb (number (key r)) k) l'
               = List.filter (fun r => Z.eqb (- number (key r)) (- k)) l').
    { intros l'. apply List.filter_ext. intros r.
      destruct (Z.eqb_spec (number (key r)) k),
        (Z.eqb_spec (- number (key r)) (- k)); try reflexivity; lia. }
    rewrite !Hext.
    exact (stable_sort_stable Hcmp (- k)%Z l).
Qed.

End Dated.

(** What the primary path of a category yields. *)
Lemma fetch_category_spec (call : Course -> fetched Row)
    (cmp : Row -> Row -> option Z) (cards : list Course) (m : metrics) :
  exists m',
    fetch_category annotate engine_order call cmp cards m
      = Some (sort engine_order cmp
                (List.flat_map (rows_of annotate call) cards), m') /\
    totalRequests m' = totalRequests m + List.length cards /\
    successfulRequests m' = successfulRequests m + List.length cards /\
    failedRequests m' = failedRequests m /\
    averageResponseTime m' = averageResponseTime m /\
    lastResetTime m' = lastResetTime m.
Proof.
  unfold fetch_category, processBatchWithRetry.
  destruct (@BatchFacts.make_batches_covers Course cards COURSE_BATCH_SIZE)
    with (fuel := S (List.length cards)) (i := 0)
    as (batches & -> & Hcat & _); [unfold COURSE_BATCH_SIZE; lia | lia |].
  change (List.skipn 0 cards) with cards in Hcat.
  destruct (each_batch_of_cards call batches (List.length batches) 0
              {| allResults := []; perf := m; paced := [] |})
    as (st & -> & Hres & Ht & Hs & Hf & Ha & Hl).
  cbn [allResults perf app] in *. rewrite Hcat in *.
  exists (perf st). rewrite Hres, fulfilled_values_of_cards.
  repeat split; assumption.
Qed.

(** The three fetchers in terms of the primary path. *)
Lemma getAllAssignmentsOptimized_eq (cards : list Course) (m : metrics) :
  exists m',
    getAllAssignmentsOptimized annotate due engine_order listAssignments
      cards m
      = Some (sort engine_order (fun a b => minus (due a) (due b))
                (List.flat_map (rows_of annotate listAssignments) cards), m') /\
    totalRequests m' = totalRequests m + List.length cards /\
    successfulRequests m' = successfulRequests m + List.length cards /\
    failedRequests m' = failedRequests m /\
    averageResponseTime m' = averageResponseTime m /\
    lastResetTime m' = lastResetTime m.
Proof.
  unfold getAllAssignmentsOptimized. destruct cards as [|c cards].
  - exists m. simpl. repeat split; lia.
  - cbn [List.length Nat.eqb]. apply fetch_category_spec.
Qed.

Lemma getAllAnnouncementsOptimized_eq (cards : list Course) (m : metrics) :
  exists m',
    getAllAnnouncementsOptimized annotate posted engine_order
      discussion_topics cards m
      = Some (sort engine_order (fun a b => minus (posted b) (posted a))
                (List.flat_map (rows_of annotate discussion_topics) cards), m') /\
    totalRequests m' = totalRequests m + List.length cards /\
    successfulRequests m' = successfulRequests m + List.length cards /\
    failedRequests m' = failedRequests m /\
    averageResponseTime m' = averageResponseTime m /\
    lastResetTime m' = lastResetTime m.
Proof.
  unfold getAllAnnouncementsOptimized. destruct cards as [|c cards].
  - exists m. simpl. repeat split; lia.
  - cbn [List.length Nat.eqb]. apply fetch_category_spec.
Qed.

Lemma getAllFilesOptimized_eq (cards : list Course) (m : metrics) :
  exists m',
    getAllFilesOptimized annotate updated engine_order listFiles cards m
      = Some (sort engine_order (fun a b => minus (updated b) (updated a))
                (List.flat_map (rows_of annotate listFiles)
                   (List.firstn 8 cards)), m') /\
    totalRequests m' = totalRequests m + Nat.min 8 (List.length cards) /\
    successfulRequests m'
      = successfulRequests m + Nat.min 8 (List.length cards) /\
    failedRequests m' = failedRequests m.
Proof.
  unfold getAllFilesOptimized. unfold slice. rewrite Nat.sub_0_r.
  change (List.skipn 0 cards) with cards.
  assert (Hcut : List.firstn (Nat.min 8 (List.length cards)) cards
                 = List.firstn 8 cards).
  { destruct (Nat.le_gt_cases 8 (List.length cards)) as [H | H].
    - now rewrite Nat.min_l.
    - rewrite Nat.min_r by lia.
      rewrite List.firstn_all. symmetry. apply List.firstn_all2. lia. }
  rewrite Hcut.
  destruct (fetch_category_spec listFiles
              (fun a b => minus (updated b) (updated a))
              (List.firstn 8 cards) m)
    as (m' & Heq & Ht & Hs & Hf & _).
  exists m'. split; [exact Heq |].
  rewrite Ht, Hs, List.length_firstn. now repeat split.
Qed.

Lemma slice_from_0 (A : Type) (k : nat) (l : list A) :
  slice 0 k l = List.firstn k l.
Proof. unfold slice. now rewrite Nat.sub_0_r. Qed.

Lemma slice_length (A : Type) (k : nat) (l : list A) :
  List.length (slice 0 k l) <= k.
Proof. rewrite slice_from_0, List.length_firstn. lia. Qed.

(** X12.  [getAllAssignmentsOptimized] always returns.  A card whose
    remote call fails contributes no row and is still counted as a
    successful request: a run adds the number of cards to
    [totalRequests] and to [successfulRequests] and never touches
    [failedRequests].  When every row fetched has a valid due date (an
    absent [due_at] counts as 9999-12-31), the rows returned are all the
    rows fetched for the cards, each annotated with its card, in
    ascending order of their due instant. *)
Theorem assignments_sorted_by_due (cards : list Course) (m : metrics) :
  exists rows m',
    getAllAssignmentsOptimized annotate due engine_order listAssignments
      cards m = Some (rows, m') /\
    totalRequests m' = totalRequests m + List.length cards /\
    successfulRequests m' = successfulRequests m + List.length cards /\
    failedRequests m' = failedRequests m /\
    (dated due (List.flat_map (rows_of annotate listAssignments) cards) ->
     Permutation rows
       (List.flat_map (rows_of annotate listAssignments) cards) /\
     Sorted.StronglySorted (not_after due) rows).
Proof.
  destruct (getAllAssignmentsOptimized_eq cards m)
    as (m' & Heq & Ht & Hs & Hf & _).
  eexists _, m'. split; [exact Heq |].
  split; [exact Ht |]. split; [exact Hs |]. split; [exact Hf |].
  intros Hdated.
  destruct (sort_ascending_spec Hdated) as (Hp & Hsorted & _).
  now split.
Qed.

(** X13.  When every announcement fetched has a valid date
    ([posted_at], or [created_at] in its absence),
    [getAllAnnouncementsOptimized] returns all the rows fetched for the
    cards, annotated, the most recently posted first. *)
Theorem announcements_newest_first (cards : list Course) (m : metrics) :
  dated posted (List.flat_map (rows_of annotate discussion_topics) cards) ->
  exists rows m',
    getAllAnnouncementsOptimized annotate posted engine_order
      discussion_topics cards m = Some (rows, m') /\
    Permutation rows
      (List.flat_map (rows_of annotate discussion_topics) cards) /\
    Sorted.StronglySorted (fun a b => not_after posted b a) rows.
Proof.
  intros Hdated.
  destruct (getAllAnnouncementsOptimized_eq cards m) as (m' & Heq & _).
  eexists _, m'. split; [exact Heq |].
  destruct (sort_descending_spec Hdated) as (Hp & Hsorted & _).
  now split.
Qed.

(** X14.  [getAllFilesOptimized] fetches from the first eight cards
    only, whatever the number of cards: the run counts eight requests at
    most, never touches [failedRequests], and returns the sort of the
    rows fetched for those cards.  When each of these rows has a valid
    date ([updated_at], or [created_at] in its absence), the rows
    returned are exactly these rows, annotated, the most recently
    updated first. *)
Theorem files_from_first_eight_cards (cards : list Course) (m : metrics) :
  exists rows m',
    getAllFilesOptimized annotate updated engine_order listFiles cards m
      = Some (rows, m') /\
    totalRequests m' = totalRequests m + Nat.min 8 (List.length cards) /\
    failedRequests m' = failedRequests m /\
    rows = sort engine_order (fun a b => minus (updated b) (updated a))
             (List.flat_map (rows_of annotate listFiles)
                (List.firstn 8 cards)) /\
    (dated updated
       (List.flat_map (rows_of annotate listFiles) (List.firstn 8 cards)) ->
     Permutation rows
       (List.flat_map (rows_of annotate listFiles) (List.firstn 8 cards)) /\
     Sorted.StronglySorted (fun a b => not_after updated b a) rows).
Proof.
  destruct (getAllFilesOptimized_eq cards m) as (m' & Heq & Ht & _ & Hf).
  eexists _, m'. split; [exact Heq |].
  split; [exact Ht |]. split; [exact Hf |]. split; [reflexivity |].
  intros Hdated.
  destruct (sort_descending_spec Hdated) as (Hp & Hsorted & _).
  now split.
Qed.


(** X16.  The dashboard handler always sends a response.  A 200 goes
    only to a request made under an open session or carrying credentials
    that pass the health check; its payload holds at most 15 courses, 50
    assignments, 30 announcements and 100 files, and [coursesProcessed]
    is the number of courses in it.  The counters of the metrics only
    grow, stay balanced when they were, and [failedRequests] is never
    touched. *)
Theorem dashboard_always_answers (req : request Course) (s : session)
    (m : metrics) :
  exists resp s' m',
    dashboard annotate due posted updated engine_order listAssignments
      discussion_topics listFiles healthy req s m = Some (resp, s', m') /\
    grows m m' /\ (balanced m -> balanced m') /\
    failedRequests m' = failedRequests m /\
    forall body, resp = Ok200 body ->
      List.length (courses body) <= MAX_COURSES /\
      List.length (assignments body) <= 50 /\
      List.length (announcements body) <= 30 /\
      List.length (files body) <= 100 /\
      coursesProcessed (perf_summary body) = List.length (courses body) /\
      exists cur, s' = Some cur /\
        (s = Some cur \/ (query req = Some cur /\ healthy cur = true)).
Proof.
  assert (Hsame : grows m m /\ (balanced m -> balanced m) /\
                  failedRequests m = failedRequests m).
  { unfold grows. repeat split; auto. }
  unfold dashboard.
  destruct (authenticate Row healthy req s) as [resp | [cur|]] eqn:Hauth.
  - eexists _, _, _. split; [reflexivity |].
    destruct Hsame as (? & ? & ?).
    split; [assumption |]. split; [assumption |]. split; [assumption |].
    intros body ->. unfold authenticate in Hauth.
    destruct (query req) as [c|]; [| discriminate].
    destruct (needs_login _ s); [| discriminate].
    destruct (healthy c); discriminate.
  - assert (Hopen : s = Some cur \/
                    (query req = Some cur /\ healthy cur = true)).
    { unfold authenticate in Hauth.
      destruct (query req) as [c|]; [| left; now injection Hauth].
      destruct (needs_login _ s); [| left; now injection Hauth].
      destruct (healthy c) eqn:Hc; [| discriminate].
      right. injection Hauth as <-. now split. }
    destruct (dashboard_cards req) as [message | cards].
    + eexists _, _, _. split; [reflexivity |].
      destruct Hsame as (? & ? & ?).
    split; [assumption |]. split; [assumption |]. split; [assumption |].
      intros body [=].
    + destruct (getAllAssignmentsOptimized_eq (slice 0 MAX_COURSES cards) m)
        as (m1 & -> & Ht1 & Hs1 & Hf1 & _).
      destruct (getAllAnnouncementsOptimized_eq (slice 0 MAX_COURSES cards) m1)
        as (m2 & -> & Ht2 & Hs2 & Hf2 & _).
      destruct (getAllFilesOptimized_eq (slice 0 MAX_COURSES cards) m2)
        as (m3 & -> & Ht3 & Hs3 & Hf3).
      eexists _, _, _. split; [reflexivity |].
      split; [unfold grows; lia |].
      split; [unfold balanced; lia |].
      split; [lia |].
      intros body [= <-]. cbn [courses assignments announcements files
                                 perf_summary coursesProcessed].
      repeat split; try apply slice_length.
      now exists cur.
  - eexists _, _, _. split; [reflexivity |].
    destruct Hsame as (? & ? & ?).
    split; [assumption |]. split; [assumption |]. split; [assumption |].
    intros body [=].
Qed.

End General.

Import Scenarios MoreScenarios.

(** Two cards with two rows each, every row with a valid date. *)
Lemma two_cards_dated :
  dated instant
    (List.flat_map (rows_of (fun _ r => r) two_rows_each) two_cards).
Proof. repeat constructor; discriminate. Qed.

(** X12 at work: the four rows come back in ascending order. *)
Lemma assignments_sorted_by_due_witness :
  exists rows m',
    getAllAssignmentsOptimized (fun _ r => r) instant (fun _ l => l)
      two_rows_each two_cards (fresh_metrics 0) = Some (rows, m') /\
    Permutation rows
      (List.flat_map (rows_of (fun _ r => r) two_rows_each) two_cards) /\
    Sorted.StronglySorted (not_after instant) rows.
Proof.
  destruct (@assignments_sorted_by_due nat nat (fun _ r => r) instant
              (fun _ l => l) two_rows_each two_cards (fresh_metrics 0))
    as (rows & m' & Hrun & _ & _ & _ & Hsorted).
  exists rows, m'. split; [exact Hrun |].
  apply Hsorted. exact two_cards_dated.
Defined.

Lemma announcements_newest_first_witness :
  exists rows m',
    getAllAnnouncementsOptimized (fun _ r => r) instant (fun _ l => l)
      two_rows_each two_cards (fresh_metrics 0) = Some (rows, m') /\
    Permutation rows
      (List.flat_map (rows_of (fun _ r => r) two_rows_each) two_cards) /\
    Sorted.StronglySorted (fun a b => not_after instant b a) rows.
Proof.
  apply (@announcements_newest_first nat nat (fun _ r => r) instant
           (fun _ l => l) two_rows_each two_cards (fresh_metrics 0)).
  exact two_cards_dated.
Defined.

Lemma files_from_first_eight_cards_witness :
  exists rows m',
    getAllFilesOptimized (fun _ r => r) instant (fun _ l => l)
      two_rows_each two_cards (fresh_metrics 0) = Some (rows, m') /\
    Permutation rows
      (List.flat_map (rows_of (fun _ r => r) two_rows_each)
         (List.firstn 8 two_cards)) /\
    Sorted.StronglySorted (fun a b => not_after instant b a) rows.
Proof.
  destruct (@files_from_first_eight_cards nat nat (fun _ r => r) instant
              (fun _ l => l) two_rows_each two_cards (fresh_metrics 0))
    as (rows & m' & Hrun & _ & _ & _ & Hsorted).
  exists rows, m'. split; [exact Hrun |].
  apply Hsorted. exact two_cards_dated.
Defined.


End DashboardMore.

(* ===================================================================== *)
(** * More on the ingestion pipeline *)
(* ===================================================================== *)

Module IngestionMore.

Import Eff Ingestion EffLogic.
Local Open Scope eff_scope.
Local Unset Implicit Arguments.

(** The rules of the logic. *)
Lemma triple_ret {S A} (a : A) (Q : A -> S -> Prop)
    (E : jstr -> S -> Prop) :
  triple (Q a) (ret a) Q E.
Proof. intros s H. exact H. Qed.

Lemma triple_throw {S A} (m : jstr) (Q : A -> S -> Prop)
    (E : jstr -> S -> Prop) :
  triple (E m) (throw m) Q E.
Proof. intros s H. exact H. Qed.

Lemma triple_bind {S A B} (P : S -> Prop) (R : A -> S -> Prop)
    (Q : B -> S -> Prop) (E : jstr -> S -> Prop)
    (c : M S A) (k : A -> M S B) :
  triple P c R E -> (forall a, triple (R a) (k a) Q E) ->
  triple P (bind c k) Q E.
Proof.
  intros Hc Hk s Hs. specialize (Hc s Hs). unfold bind.
  destruct (c s) as [[a|e] s']; [exact (Hk a s' Hc) | exact Hc].
Qed.

Lemma triple_try_catch {S A} (P : S -> Prop) (Q : A -> S -> Prop)
    (R E : jstr -> S -> Prop) (c : M S A) (h : jstr -> M S A) :
  triple P c Q R -> (forall e, triple (R e) (h e) Q E) ->
  triple P (try_catch c h) Q E.
Proof.
  intros Hc Hh s Hs. specialize (Hc s Hs). unfold try_catch.
  destruct (c s) as [[a|e] s']; [exact Hc | exact (Hh e s' Hc)].
Qed.

Lemma triple_attempt {S} (P Q : S -> Prop) (E : jstr -> S -> Prop)
    (c : M S unit) :
  triple P c (fun _ => Q) (fun _ => Q) -> triple P (attempt c) (fun _ => Q) E.
Proof.
  intros Hc. unfold attempt.
  apply triple_try_catch with (R := fun _ => Q); [exact Hc |].
  intros e s Hs. exact Hs.
Qed.

Lemma triple_conseq {S A} (P P' : S -> Prop) (Q Q' : A -> S -> Prop)
    (E E' : jstr -> S -> Prop) (c : M S A) :
  triple P c Q E ->
  (forall s, P' s -> P s) -> (forall a s, Q a s -> Q' a s) ->
  (forall e s, E e s -> E' e s) ->
  triple P' c Q' E'.
Proof.
  intros Hc HP HQ HE s Hs. specialize (Hc s (HP s Hs)).
  destruct (c s) as [[a|e] s']; [exact (HQ a s' Hc) | exact (HE e s' Hc)].
Qed.

(** The calls to the services do not touch the local disk. *)
Lemma keeps_ret {A} (a : A) : keeps_disk (ret a).
Proof. intros d s H. exact H. Qed.

Lemma keeps_throw {A} (m : jstr) : keeps_disk (@throw world A m).
Proof. intros d s H. exact H. Qed.

Lemma keeps_bind {A B} (c : M world A) (k : A -> M world B) :
  keeps_disk c -> (forall a, keeps_disk (k a)) -> keeps_disk (bind c k).
Proof.
  intros Hc Hk d. eapply triple_bind; [apply Hc |]. intros a. apply Hk.
Qed.

Lemma keeps_attempt (c : M world unit) : keeps_disk c -> keeps_disk (attempt c).
Proof.
  intros Hc d. apply triple_attempt. apply Hc.
Qed.

Lemma keeps_log (e : effect) : keeps_disk (log e).
Proof. intros d s H. exact H. Qed.

Lemma keeps_failing (r : option jstr) : keeps_disk (failing r).
Proof. intros d s H. destruct r; exact H. Qed.

Lemma keeps_of_sum {A} (r : jstr + A) : keeps_disk (of_sum r).
Proof. intros d s H. destruct r; exact H. Qed.

Lemma keeps_readFileSync (p : jstr) : keeps_disk (readFileSync p).
Proof.
  intros d s H. unfold readFileSync, bind, get.
  destruct (bool_decide (p ∈ local_files s)); exact H.
Qed.

Lemma keeps_uploadAudioFile (svc : services) (uid rid : jstr) :
  keeps_disk (uploadAudioFile svc uid rid).
Proof.
  intros d s H. unfold uploadAudioFile, failing, bind, get.
  destruct (storage_upload_error svc); [exact H |]. cbn.
  destruct (bool_decide (audio_file_name uid rid ∈ storage s)); exact H.
Qed.

Lemma keeps_updateRecording (svc : services) (rid : jstr) (u : update) :
  keeps_disk (updateRecording svc rid u).
Proof.
  intros d s H. unfold updateRecording, failing, bind, get.
  destruct (recordings_update_error svc u); [exact H |]. cbn.
  destruct (recordings s !! rid); exact H.
Qed.

Lemma keeps_vectorizeRecording (svc : services) (rid : jstr) :
  keeps_disk (vectorizeRecording svc rid).
Proof.
  intros d s H. unfold vectorizeRecording, failing, bind.
  destruct (vectorizeRecording_fails svc); exact H.
Qed.

Lemma keeps_deleteAudioFile (svc : services) (uid rid : jstr) :
  keeps_disk (deleteAudioFile svc uid rid).
Proof.
  intros d s H. unfold deleteAudioFile, failing, bind.
  destruct (storage_remove_error svc); exact H.
Qed.

Lemma temp_copy_truthy (f : upload) :
  truthy (path f) = true -> truthy (path f ++ extension f) = true.
Proof. destruct (path f); [discriminate | reflexivity]. Qed.

Section Cleanup.

Variable f : upload.
Variable before : gset jstr.

Hypothesis path_given : truthy (path f) = true.
Hypothesis upload_on_disk : path f ∈ before.

Lemma unlink_both (E : jstr -> world -> Prop) (c : M world unit) :
  (forall s, c s = unlinkSync (path f) s) ->
  triple (fun s => not_copied before s \/ copied f before s)
    (attempt (c;;; unlink_tempFileWithExt (path f)))
    (fun _ => cleaned f before) E.
Proof using All.
  intros Hc. apply triple_attempt. intros s Hs.
  unfold bind. rewrite Hc.
  destruct Hs as [Hs | Hs]; unfold not_copied, copied, disk in Hs;
    injection Hs as Hfiles Htmp.
  - rewrite IngestionFacts.unlinkSync_exists by (rewrite Hfiles; exact upload_on_disk).
    unfold unlink_tempFileWithExt, bind, get. cbn [tempFileWithExt].
    rewrite Htmp. unfold ret, cleaned. cbn [local_files]. now rewrite Hfiles.
  - rewrite IngestionFacts.unlinkSync_exists
      by (rewrite Hfiles; apply elem_of_union; now right).
    unfold unlink_tempFileWithExt, bind, get. cbn [tempFileWithExt].
    rewrite Htmp. rewrite (temp_copy_truthy f path_given).
    rewrite (bool_decide_eq_false_2 _ (IngestionFacts.temp_copy_differs (f := f))).
    cbn [andb negb].
    rewrite IngestionFacts.unlinkSync_exists.
    + unfold cleaned. cbn [local_files]. rewrite Hfiles.
      intros x. rewrite !elem_of_difference, elem_of_union, !elem_of_singleton.
      tauto.
    + cbn [local_files]. rewrite Hfiles.
      apply elem_of_difference. split.
      * apply elem_of_union. left. now apply elem_of_singleton.
      * rewrite elem_of_singleton.
        apply (IngestionFacts.temp_copy_differs (f := f)).
Qed.

Variable svc : services.
Variables uid cid rid : jstr.

Lemma pipeline_disk :
  triple (not_copied before) (pipeline svc uid cid rid f)
    (fun resp s => resp <> BadRequest400 /\ cleaned f before s)
    (fun _ s => not_copied before s \/ copied f before s).
Proof using All.
  unfold pipeline.
  apply triple_bind with (R := fun _ => not_copied before).
  { eapply triple_conseq; [apply (keeps_readFileSync (path f) (before, None)) | ..];
      auto. }
  intros _.
  apply triple_bind with (R := fun _ => not_copied before).
  { eapply triple_conseq;
      [apply (keeps_uploadAudioFile svc uid rid (before, None)) | ..]; auto. }
  intros _.
  apply triple_bind
    with (R := fun _ s => disk s = (before, Some (path f ++ extension f))).
  { intros s Hs. unfold not_copied, disk in *. cbn.
    injection Hs as -> _. reflexivity. }
  intros _.
  apply triple_bind with (R := fun _ => copied f before).
  { intros s Hs. unfold disk in Hs. injection Hs as Hfiles Htmp.
    rewrite IngestionFacts.copyFileSync_exists
      by (rewrite Hfiles; exact upload_on_disk).
    unfold copied, disk. cbn [local_files tempFileWithExt].
    now rewrite Hfiles, Htmp. }
  intros _.
  apply triple_bind with (R := fun _ => copied f before).
  { eapply triple_conseq;
      [apply (keeps_of_sum (transcribeAudio svc) ({[path f ++ extension f]} ∪ before, Some (path f ++ extension f))) | ..];
      auto. }
  intros transcription.
  destruct (too_short transcription).
  { intros s Hs. cbn. right. exact Hs. }
  apply triple_bind with (R := fun _ => copied f before).
  { eapply triple_conseq; [apply (keeps_of_sum _ ({[path f ++ extension f]} ∪ before, Some (path f ++ extension f))) | ..];
      auto. }
  intros summary.
  apply triple_bind with (R := fun _ => copied f before).
  { eapply triple_conseq;
      [apply (keeps_ret (publicUrl svc (audio_file_name uid rid)) ({[path f ++ extension f]} ∪ before, Some (path f ++ extension f))) | ..]; auto. }
  intros audio_url.
  apply triple_bind with (R := fun _ => copied f before).
  { eapply triple_conseq;
      [apply (keeps_updateRecording svc rid _ ({[path f ++ extension f]} ∪ before, Some (path f ++ extension f))) | ..];
      auto. }
  intros _.
  apply triple_bind with (R := fun _ => copied f before).
  { eapply triple_conseq;
      [apply (keeps_attempt _ (keeps_vectorizeRecording svc rid)
                ({[path f ++ extension f]} ∪ before, Some (path f ++ extension f))) | ..]; auto. }
  intros _.
  apply triple_bind with (R := fun _ => cleaned f before).
  { eapply triple_conseq;
      [apply (unlink_both (fun _ _ => False)); reflexivity | ..].
    - intros s Hs. right. exact Hs.
    - intros a s Hs. exact Hs.
    - intros e s []. }
  intros _.
  apply triple_bind with (R := fun _ => cleaned f before).
  { apply triple_attempt. intros s Hs.
    pose proof (keeps_deleteAudioFile svc uid rid (disk s) s eq_refl) as H.
    destruct (deleteAudioFile svc uid rid s) as [[a|e] s'];
      unfold cleaned, disk in *; injection H as -> _; exact Hs. }
  intros _ s Hs. split; [discriminate | exact Hs].
Qed.

Lemma on_processing_error_disk (message : jstr) (E : jstr -> world -> Prop) :
  (forall m s, cleaned f before s -> E m s) ->
  triple (fun s => not_copied before s \/ copied f before s)
    (on_processing_error svc rid f message)
    (fun resp s => resp <> BadRequest400 /\ cleaned f before s) E.
Proof using All.
  intros HE. unfold on_processing_error.
  apply triple_bind with (R := fun _ s => not_copied before s \/ copied f before s).
  { apply triple_attempt. intros s Hs.
    pose proof (keeps_updateRecording svc rid (failed_update message)
                  (disk s) s eq_refl) as H.
    destruct (updateRecording svc rid (failed_update message) s) as [[a|e] s'];
      unfold not_copied, copied in *; rewrite H; exact Hs. }
  intros _.
  apply triple_bind with (R := fun _ => cleaned f before).
  { apply unlink_both. intros s. now rewrite path_given. }
  intros _ s Hs. apply HE. exact Hs.
Qed.

End Cleanup.

(** X17.  Whatever the services answer, a request with all its fields
    whose upload is on the local disk gets a response, 200 or 500, and
    no exception leaves the handler; when it is done the upload is
    deleted and no file is on the local disk that was not there before,
    the copy made for the transcription included. *)
Theorem temporary_files_never_stay (svc : services)
    (uid cid rid : jstr) (ttl dur : option jstr) (f : upload) (w : world) :
  truthy uid = true /\ truthy cid = true /\ truthy rid = true ->
  truthy (path f) = true /\ path f ∈ local_files w ->
  exists (resp : http) (w' : world),
    process svc
      {| userId := Some uid; courseId := Some cid; recordingId := Some rid;
         title := ttl; duration := dur; audioFile := Some f |} w
    = (Value resp, w') /\
    resp <> BadRequest400 /\
    local_files w' ⊆ local_files w ∖ {[path f]}.
Proof.
  intros (Huid & Hcid & Hrid) (Hpath & Hfile).
  assert (H : triple (fun s => local_files s = local_files w)
                (process svc
                   {| userId := Some uid; courseId := Some cid;
                      recordingId := Some rid; title := ttl; duration := dur;
                      audioFile := Some f |})
                (fun resp s => resp <> BadRequest400 /\
                               local_files s ⊆ local_files w ∖ {[path f]})
                (fun _ _ => False)).
  { unfold process. cbn [audioFile userId courseId recordingId present].
    rewrite Huid, Hcid, Hrid.
    apply triple_try_catch
      with (R := fun _ s => local_files s ⊆ local_files w ∖ {[path f]}).
    - apply triple_bind
        with (R := fun _ s => disk s = (local_files w, None)).
      { intros s Hs. unfold disk. cbn. now rewrite Hs. }
      intros _.
      apply triple_try_catch
        with (R := fun _ s => disk s = (local_files w, None) \/
                     disk s = ({[path f ++ extension f]} ∪ local_files w,
                               Some (path f ++ extension f))).
      + now apply pipeline_disk.
      + intros e. apply on_processing_error_disk; auto.
    - intros e s Hs. split; [discriminate | exact Hs]. }
  specialize (H w eq_refl).
  destruct (process _ _ w) as [[resp|e] w']; [| contradiction].
  exists resp, w'. split; [reflexivity | exact H].
Qed.

Lemma temporary_files_never_stay_witness :
  exists (resp : http) (w' : world),
    process Scenarios.silent_audio
      {| userId := Some (lit "u1"); courseId := Some (lit "422");
         recordingId := Some (lit "r1"); title := Some (lit "Lecture 3");
         duration := Some (lit "61");
         audioFile := Some {| path := lit "uploads/4f2a";
                              mimetype := Some (lit "audio/webm") |} |}
      Scenarios.job_started
    = (Value resp, w') /\
    resp <> BadRequest400 /\
    local_files w' ⊆ local_files Scenarios.job_started ∖ {[lit "uploads/4f2a"]}.
Proof.
  apply (temporary_files_never_stay Scenarios.silent_audio (lit "u1")
           (lit "422") (lit "r1") (Some (lit "Lecture 3")) (Some (lit "61"))
           {| path := lit "uploads/4f2a"; mimetype := Some (lit "audio/webm") |}
           Scenarios.job_started).
  - repeat split.
  - split; [reflexivity |].
    change (lit "uploads/4f2a" ∈ ({[ lit "uploads/4f2a" ]} : gset jstr)).
    now apply elem_of_singleton_2.
Defined.

(** The two steps of the pipeline whose failure is only logged. *)
Lemma attempt_vectorizeRecording (svc : services) (rid : jstr) (s : world) :
  exists tr,
    attempt (vectorizeRecording svc rid) s =
    (Value tt, {| recordings := recordings s; local_files := local_files s;
                  storage := storage s; trace := tr;
                  tempFileWithExt := tempFileWithExt s |}).
Proof.
  unfold attempt, try_catch, vectorizeRecording, failing, bind.
  destruct (vectorizeRecording_fails svc).
  - exists (trace s). now destruct s.
  - eexists. reflexivity.
Qed.

Lemma attempt_deleteAudioFile (svc : services) (uid rid : jstr) (s : world) :
  exists tr,
    attempt (deleteAudioFile svc uid rid) s =
    (Value tt,
     {| recordings := recordings s; local_files := local_files s;
        storage := match storage_remove_error svc with
                   | None => storage s ∖ {[audio_file_name uid rid]}
                   | Some _ => storage s
                   end;
        trace := tr;
        tempFileWithExt := tempFileWithExt s |}).
Proof.
  unfold attempt, try_catch, deleteAudioFile, failing, bind.
  destruct (storage_remove_error svc).
  - exists (trace s). now destruct s.
  - eexists. reflexivity.
Qed.

(** X18.  When the audio is stored, the transcription has ten code units
    or more, the summary is generated and the store accepts the write on
    the job's row, the handler answers 200 with the transcription and the
    summary, and the row holds status [completed], both texts, the public
    URL of the blob and the time of the write.  Neither a failed
    vectorisation nor a failed removal of the blob changes the response:
    the blob is gone from storage when the removal went through, and is
    still there when it did not. *)
Theorem transcribed_recording_is_completed (svc : services)
    (uid cid rid : jstr) (ttl dur : option jstr) (f : upload) (w : world)
    (row : recording) (text summary : jstr) :
  truthy uid = true /\ truthy cid = true /\ truthy rid = true ->
  truthy (path f) = true /\ path f ∈ local_files w ->
  recordings w !! rid = Some row ->
  storage_upload_error svc = None /\ audio_file_name uid rid ∉ storage w ->
  transcribeAudio svc = inr (Some text) /\ too_short (Some text) = false ->
  generateLectureSummary svc text = inr summary ->
  recordings_update_error svc
    {| set_status := lit "completed"; set_summary := summary;
       set_transcription := Some text;
       set_audio_url := Some (publicUrl svc (audio_file_name uid rid)) |}
    = None ->
  exists w' : world,
    process svc
      {| userId := Some uid; courseId := Some cid; recordingId := Some rid;
         title := ttl; duration := dur; audioFile := Some f |} w
    = (Value (Ok200 text summary), w') /\
    recordings w' !! rid =
      Some {| rec_status := lit "completed";
              rec_summary := Some summary;
              rec_transcription := Some text;
              rec_audio_url := Some (publicUrl svc (audio_file_name uid rid));
              rec_processed_at := Some (date_now svc) |} /\
    (storage_remove_error svc = None -> storage w' = storage w) /\
    (storage_remove_error svc <> None ->
     audio_file_name uid rid ∈ storage w').
Proof.
  intros (Huid & Hcid & Hrid) (Hpath & Hfile) Hrow (Hup & Hfresh)
    (Htr & Hlong) Hsum Hacc.
  set (u := {| set_status := lit "completed"; set_summary := summary;
               set_transcription := Some text;
               set_audio_url := Some (publicUrl svc (audio_file_name uid rid)) |})
    in *.
  set (s4 := {| recordings := alter (apply_update u (date_now svc)) rid
                                (recordings w);
                local_files := {[path f ++ extension f]} ∪ local_files w;
                storage := {[audio_file_name uid rid]} ∪ storage w;
                trace := ((trace w ++ [Uploaded (audio_file_name uid rid)]) ++
                          [Copied (path f) (path f ++ extension f)]) ++
                         [RowUpdated rid u];
                tempFileWithExt := Some (path f ++ extension f) |}).
  destruct (attempt_vectorizeRecording svc rid s4) as (tr5 & H5).
  set (s5 := {| recordings := recordings s4; local_files := local_files s4;
                storage := storage s4; trace := tr5;
                tempFileWithExt := tempFileWithExt s4 |}) in *.
  set (s6 := {| recordings := recordings s5;
                local_files := (local_files s5 ∖ {[path f]})
                               ∖ {[path f ++ extension f]};
                storage := storage s5;
                trace := (trace s5 ++ [Unlinked (path f)]) ++
                         [Unlinked (path f ++ extension f)];
                tempFileWithExt := tempFileWithExt s5 |}).
  destruct (attempt_deleteAudioFile svc uid rid s6) as (tr7 & H7).
  eexists. split.
  - unfold process. cbn [audioFile userId courseId recordingId present].
    rewrite Huid, Hcid, Hrid.
    unfold try_catch at 1.
    erewrite IngestionFacts.bind_value by reflexivity.
    unfold try_catch at 1. unfold pipeline.
    erewrite IngestionFacts.bind_value
      by (apply IngestionFacts.readFileSync_exists; exact Hfile).
    erewrite IngestionFacts.bind_value
      by (now apply IngestionFacts.uploadAudioFile_fresh).
    erewrite IngestionFacts.bind_value by reflexivity.
    erewrite IngestionFacts.bind_value
      by (apply IngestionFacts.copyFileSync_exists; exact Hfile).
    rewrite Htr. erewrite IngestionFacts.bind_value by reflexivity.
    rewrite Hlong, Hsum.
    erewrite IngestionFacts.bind_value by reflexivity.
    erewrite IngestionFacts.bind_value by reflexivity.
    erewrite IngestionFacts.bind_value
      by (now apply IngestionFacts.updateRecording_existing with (row := row)).
    erewrite IngestionFacts.bind_value by exact H5.
    erewrite IngestionFacts.bind_value with (s' := s6).
    2:{ apply IngestionFacts.attempt_value.
        erewrite IngestionFacts.bind_value.
        2:{ apply IngestionFacts.unlinkSync_exists. cbn [local_files s5 s4].
            apply elem_of_union. now right. }
        unfold unlink_tempFileWithExt.
        erewrite IngestionFacts.bind_value by reflexivity.
        cbn [tempFileWithExt s5 s4].
        rewrite (bool_decide_eq_false_2 _
                   (IngestionFacts.temp_copy_differs (f := f))).
        rewrite (temp_copy_truthy f Hpath). cbn [andb negb].
        apply IngestionFacts.unlinkSync_exists. cbn [local_files s5 s4].
        apply elem_of_difference. split.
        - apply elem_of_union. left. now apply elem_of_singleton.
        - rewrite elem_of_singleton.
          apply (IngestionFacts.temp_copy_differs (f := f)). }
    erewrite IngestionFacts.bind_value by exact H7.
    reflexivity.
  - cbn [recordings storage s6 s5 s4].
    split; [| split].
    + rewrite lookup_alter, Hrow. simpl. case_decide; [| congruence].
      reflexivity.
    + intros ->. apply set_eq. intros x.
      rewrite elem_of_difference, elem_of_union, elem_of_singleton.
      split; [tauto |]. intros Hx. split; [now right |].
      intros ->. contradiction.
    + intros Hrem. destruct (storage_remove_error svc); [| congruence].
      apply elem_of_union. left. now apply elem_of_singleton.
Qed.

Lemma transcribed_recording_is_completed_witness :
  exists w' : world,
    process Scenarios.spoken_audio
      {| userId := Some (lit "u1"); courseId := Some (lit "422");
         recordingId := Some (lit "r1"); title := Some (lit "Lecture 3");
         duration := Some (lit "61");
         audioFile := Some {| path := lit "uploads/4f2a";
                              mimetype := Some (lit "audio/webm") |} |}
      Scenarios.job_started
    = (Value (Ok200 (lit "Today we cover support vector machines.")
                    (lit "summary")), w') /\
    recordings w' !! lit "r1" =
      Some {| rec_status := lit "completed";
              rec_summary := Some (lit "summary");
              rec_transcription :=
                Some (lit "Today we cover support vector machines.");
              rec_audio_url :=
                Some (publicUrl Scenarios.spoken_audio
                        (audio_file_name (lit "u1") (lit "r1")));
              rec_processed_at := Some (date_now Scenarios.spoken_audio) |} /\
    (storage_remove_error Scenarios.spoken_audio = None ->
     storage w' = storage Scenarios.job_started) /\
    (storage_remove_error Scenarios.spoken_audio <> None ->
     audio_file_name (lit "u1") (lit "r1") ∈ storage w').
Proof.
  apply (transcribed_recording_is_completed Scenarios.spoken_audio (lit "u1")
           (lit "422") (lit "r1") (Some (lit "Lecture 3")) (Some (lit "61"))
           {| path := lit "uploads/4f2a"; mimetype := Some (lit "audio/webm") |}
           Scenarios.job_started
           {| rec_status := lit "processing"; rec_summary := None;
              rec_transcription := None; rec_audio_url := None;
              rec_processed_at := None |}
           (lit "Today we cover support vector machines.") (lit "summary")).
  - repeat split.
  - split; [reflexivity |].
    change (lit "uploads/4f2a" ∈ ({[ lit "uploads/4f2a" ]} : gset jstr)).
    now apply elem_of_singleton_2.
  - reflexivity.
  - split; [reflexivity |]. apply not_elem_of_empty.
  - split; reflexivity.
  - reflexivity.
  - reflexivity.
Defined.

(** Every block ends in some way. *)
Lemma triple_any {S A} (P : S -> Prop) (c : M S A) :
  triple P c (fun _ _ => True) (fun _ _ => True).
Proof. intros s _. now destruct (c s) as [[a|e] s']. Qed.

Lemma pipeline_answers (svc : services) (uid cid rid : jstr) (f : upload) :
  triple (fun _ => True) (pipeline svc uid cid rid f)
    (fun resp _ => resp <> BadRequest400) (fun _ _ => True).
Proof.
  unfold pipeline.
  repeat (apply triple_bind with (R := fun _ _ => True);
          [apply triple_any | intros ?]).
  destruct (too_short _); [intros s _; exact I |].
  repeat (apply triple_bind with (R := fun _ _ => True);
          [apply triple_any | intros ?]).
  intros s _. discriminate.
Qed.

(** X19.  The handler answers 400 exactly when the audio file is missing
    or one of [userId], [courseId] and [recordingId] is missing or the
    empty string; it then leaves the table, the storage and the local
    disk as they were. *)
Theorem bad_request_iff_field_missing (svc : services) (req : request)
    (w : world) :
  (fst (process svc req w) = Value BadRequest400 <->
   audioFile req = None \/ present (userId req) = None \/
   present (courseId req) = None \/ present (recordingId req) = None) /\
  (fst (process svc req w) = Value BadRequest400 ->
   snd (process svc req w) = w).
Proof.
  assert (Hvalid : forall f uid cid rid,
             audioFile req = Some f -> present (userId req) = Some uid ->
             present (courseId req) = Some cid ->
             present (recordingId req) = Some rid ->
             fst (process svc req w) <> Value BadRequest400).
  { intros f uid cid rid Hf Hu Hc Hr. unfold process.
    rewrite Hf, Hu, Hc, Hr.
    assert (H : triple (fun _ => True)
                  (try_catch
                     (set_tempFileWithExt None;;;
                      try_catch (pipeline svc uid cid rid f)
                        (on_processing_error svc rid f))
                     (fun message =>
                        ret (Failed500
                               (lit "Failed to process recording: " ++ message))))
                  (fun resp _ => resp <> BadRequest400) (fun _ _ => False)).
    { apply triple_try_catch with (R := fun _ _ => True).
      - apply triple_bind with (R := fun _ _ => True); [apply triple_any |].
        intros _. apply triple_try_catch with (R := fun _ _ => True).
        + apply pipeline_answers.
        + intros e. unfold on_processing_error.
          repeat (apply triple_bind with (R := fun _ _ => True);
                  [apply triple_any | intros ?]).
          intros s _. exact I.
      - intros e s _. discriminate. }
    specialize (H w I). intros Hbad.
    destruct (try_catch _ _ w) as [[resp|e] w']; [| exact H].
    cbn in Hbad. injection Hbad as ->. now apply H. }
  assert (Hmissing :
            audioFile req = None \/ present (userId req) = None \/
            present (courseId req) = None \/ present (recordingId req) = None ->
            process svc req w = (Value BadRequest400, w)).
  { intros H. unfold process.
    destruct (audioFile req); destruct (present (userId req));
      destruct (present (courseId req)); destruct (present (recordingId req));
      try reflexivity.
    destruct H as [H | [H | [H | H]]]; discriminate. }
  split; [split |].
  - intros Hbad.
    destruct (audioFile req) as [f|] eqn:Hf; [| now left].
    destruct (present (userId req)) as [uid|] eqn:Hu; [| now right; left].
    destruct (present (courseId req)) as [cid|] eqn:Hc;
      [| now right; right; left].
    destruct (present (recordingId req)) as [rid|] eqn:Hr;
      [| now right; right; right].
    exfalso. exact (Hvalid f uid cid rid eq_refl eq_refl eq_refl eq_refl Hbad).
  - intros H. now rewrite (Hmissing H).
  - intros Hbad.
    destruct (audioFile req) as [f|] eqn:Hf;
      [| now rewrite Hmissing by now left].
    destruct (present (userId req)) as [uid|] eqn:Hu;
      [| now rewrite Hmissing by (right; now left)].
    destruct (present (courseId req)) as [cid|] eqn:Hc;
      [| now rewrite Hmissing by (right; right; now left)].
    destruct (present (recordingId req)) as [rid|] eqn:Hr;
      [| now rewrite Hmissing by (right; right; now right)].
    exfalso. exact (Hvalid f uid cid rid eq_refl eq_refl eq_refl eq_refl Hbad).
Qed.

End IngestionMore.

(* ===================================================================== *)
(** * More on the query service *)
(* ===================================================================== *)

Module GeminiMore.

Import Gemini GeminiSearch JsFacts.

(** A pattern that matches has every tail of it match as well. *)
Lemma startsWith_split (a b s : jstr) :
  startsWith (a ++ b) s = true ->
  exists s', s = a ++ s' /\ startsWith b s' = true.
Proof.
  revert s. induction a as [|x a IH]; intros s H.
  - exists s. split; [reflexivity | exact H].
  - destruct s as [|y s]; [discriminate |]. simpl in H.
    apply andb_true_iff in H. destruct H as [Hxy H].
    apply N.eqb_eq in Hxy. subst y.
    destruct (IH s H) as (s' & -> & Hb). now exists s'.
Qed.

Lemma includes_nil (s : jstr) : includes [] s = true.
Proof. destruct s; reflexivity. Qed.

Lemma includes_tail (a b s : jstr) :
  includes (a ++ b) s = true -> includes b s = true.
Proof.
  induction s as [|c s IH]; intros H.
  - simpl in H. rewrite orb_false_r in H.
    destruct (startsWith_split H) as (s' & Hs & Hb).
    symmetry in Hs. apply app_eq_nil in Hs. destruct Hs as [_ ->].
    destruct b; [reflexivity | discriminate].
  - change (startsWith (a ++ b) (c :: s) || includes (a ++ b) s = true) in H.
    apply orb_true_iff in H. destruct H as [H | H].
    + destruct (startsWith_split H) as (s' & -> & Hb).
      apply includes_app_r.
      destruct s'; simpl; now rewrite Hb.
    + change (startsWith b (c :: s) || includes b s = true).
      rewrite (IH H). apply orb_true_r.
Qed.

Lemma test_ci_tail (a b : string) (s : jstr) :
  test_ci (a ++ b) s = true -> test_ci b s = true.
Proof.
  unfold test_ci, lit. intros H.
  apply includes_tail with (a := List.map canon (lit a)).
  unfold lit. rewrite <- List.map_app, <- List.map_app.
  replace (list_ascii_of_string a ++ list_ascii_of_string b)
    with (list_ascii_of_string (a ++ b)); [exact H |].
  clear H. induction a as [|c a IH]; [reflexivity |].
  simpl. now rewrite IH.
Qed.

(** What the three tests on the time leave over. *)
Lemma detect_timeFilter_eq (userQuery : jstr) :
  detect_timeFilter userQuery =
  if any_ci ["week"; "due"; "deadline"]%string userQuery
  then Some (lit "this_week") else None.
Proof.
  unfold detect_timeFilter, any_ci.
  cbn [List.existsb]. rewrite !orb_false_r.
  assert (Hthis : test_ci "this week" userQuery = true ->
                  test_ci "week" userQuery = true)
    by exact (@test_ci_tail "this " "week" userQuery).
  assert (Hnext : test_ci "next week" userQuery = true ->
                  test_ci "week" userQuery = true)
    by exact (@test_ci_tail "next " "week" userQuery).
  destruct (test_ci "week" userQuery).
  - rewrite orb_true_r. reflexivity.
  - destruct (test_ci "this week" userQuery);
      [discriminate (Hthis eq_refl) |].
    destruct (test_ci "next week" userQuery);
      [discriminate (Hnext eq_refl) |].
    reflexivity.
Qed.

(** X20.  The fallback never answers [next_week]: a query that matches
    [/next week/i] matches [/this week|week/i] before it.  Its time
    filter is [this_week] when the query has [week], [due] or [deadline]
    in it, in any case, and [null] otherwise. *)
Theorem fallback_never_next_week (userQuery : jstr)
    (userCourses : list course) :
  timeFilter (fallbackQueryProcessing userQuery userCourses) =
    (if any_ci ["week"; "due"; "deadline"]%string userQuery
     then Some (lit "this_week") else None) /\
  timeFilter (fallbackQueryProcessing userQuery userCourses)
    <> Some (lit "next_week").
Proof.
  cbn [fallbackQueryProcessing timeFilter]. rewrite detect_timeFilter_eq.
  split; [reflexivity |].
  destruct (any_ci _ userQuery); discriminate.
Qed.

(** X21.  The search configuration built from the fallback's parameters.
    The fallback lists no specific items, so the limit is 20 for
    [get_course_info] and 10 otherwise, never the 5 of a focused search;
    the type filter is the singular of the search type and the query is
    the keywords followed by it, or there is no type filter and the
    query is the original one; both boosts are set together. *)
Theorem search_config_of_fallback (userQuery : jstr)
    (userCourses : list course) :
  let p := fallbackQueryProcessing userQuery userCourses in
  let c := buildSearchQuery p userQuery in
  limit c = (if negb (isAssignment userQuery) && isCourse userQuery
             then 20 else 10) /\
  match type (config_filters c) with
  | Some t =>
      searchType p = t ++ lit "s" /\
      query c = join (lit " ") (keywords p) ++ lit " " ++ t
  | None =>
      (searchType p = lit "courses" \/ searchType p = lit "general") /\
      query c = userQuery
  end /\
  recent (config_boost c) = dueDate (config_boost c) /\
  recent (config_boost c) =
    any_ci ["week"; "due"; "deadline"; "urgent"]%string userQuery.
Proof.
  intros p c.
  split; [| split; [| split]].
  - subst c p. unfold buildSearchQuery.
    cbn [fallbackQueryProcessing intent specificItems limit List.length
         Nat.ltb Nat.leb].
    destruct (isAssignment userQuery), (isCourse userQuery);
      compare_literals; reflexivity.
  - subst c p. unfold buildSearchQuery.
    cbn [fallbackQueryProcessing intent specificItems searchType keywords
         config_filters type query List.length Nat.ltb Nat.leb].
    rewrite andb_false_r.
    destruct (isAssignment userQuery), (isAnnouncement userQuery),
      (isFile userQuery), (isCourse userQuery);
      compare_literals; cbn [andb fst snd]; auto.
  - reflexivity.
  - subst c p. unfold buildSearchQuery. cbn [config_boost recent].
    cbn [fallbackQueryProcessing priority timeFilter].
    rewrite detect_timeFilter_eq. unfold any_ci.
    cbn [List.existsb]. rewrite !orb_false_r.
    destruct (test_ci "week" userQuery), (test_ci "due" userQuery),
      (test_ci "deadline" userQuery), (test_ci "urgent" userQuery);
      cbn [orb]; compare_literals; reflexivity.
Qed.

(** X22.  The summary of a search is never the empty string, and it is
    [General search] exactly when the parameters say nothing: the search
    type is [general], no course and no time filter is given and no
    specific item is listed. *)
Theorem generateSearchSummary_general (p : query_params) :
  generateSearchSummary p <> [] /\
  (generateSearchSummary p = lit "General search" <->
   searchType p = lit "general" /\ given (courseFilter p) = None /\
   given (timeFilter p) = None /\ specificItems p = []).
Proof.
  unfold generateSearchSummary, parts.
  destruct (specificItems p) as [|item items] eqn:Hitems;
    cbn [List.length Nat.ltb Nat.leb];
    destruct (given (timeFilter p)) as [t|] eqn:Htime;
    destruct (given (courseFilter p)) as [c|] eqn:Hcourse;
    case_bool_decide as Htype;
    (split; [intros H; vm_compute in H; discriminate H |]);
    (split;
     [ intros H;
       first [ repeat split; solve [assumption | reflexivity]
             | vm_compute in H; discriminate H ]
     | intros (H1 & H2 & H3 & H4);
       first [ reflexivity | congruence | discriminate ] ]).
Qed.

End GeminiMore.

(* ===================================================================== *)
(** * More on the conversation service *)
(* ===================================================================== *)

Module ConversationMore.

Import Eff Conversation ConversationService.

(** ** Titles *)

Lemma trimStart_suffix (s : jstr) : exists spaces, s = spaces ++ trimStart s.
Proof.
  induction s as [|c s (spaces & IH)]; [now exists [] |]. simpl.
  destruct (is_space c); [| now exists []].
  exists (c :: spaces). simpl. now rewrite <- IH.
Qed.

Lemma trimStart_Forall (P : N -> Prop) (s : jstr) :
  List.Forall P s -> List.Forall P (trimStart s).
Proof.
  intros H. destruct (trimStart_suffix s) as (spaces & Hs).
  rewrite Hs in H. now apply List.Forall_app in H.
Qed.

Lemma trimStart_head (s : jstr) :
  match trimStart s with
  | c :: _ => is_space c = false
  | [] => True
  end.
Proof.
  induction s as [|c s IH]; simpl; [exact I |].
  destruct (is_space c) eqn:Hc; [exact IH | exact Hc].
Qed.

Lemma trimStart_keeps_last (s : jstr) (c : N) :
  is_space c = false -> exists s', trimStart (s ++ [c]) = s' ++ [c].
Proof.
  intros Hc. induction s as [|d s (s' & IH)]; simpl.
  - rewrite Hc. now exists [].
  - destruct (is_space d); [now exists s' |]. now exists (d :: s ).
Qed.

Lemma trim_Forall (P : N -> Prop) (s : jstr) :
  List.Forall P s -> List.Forall P (trim s).
Proof.
  intros H. unfold trim.
  apply List.Forall_rev, trimStart_Forall, List.Forall_rev.
  now apply trimStart_Forall.
Qed.

Lemma trim_head (s : jstr) :
  match trim s with
  | c :: _ => is_space c = false
  | [] => True
  end.
Proof.
  unfold trim. pose proof (trimStart_head s) as Hhead.
  destruct (trimStart s) as [|c d]; [exact I |].
  cbn [List.rev].
  destruct (trimStart_keeps_last (List.rev d) Hhead) as (s' & ->).
  rewrite List.rev_app_distr. exact Hhead.
Qed.

(** X23.  A generated title is never empty and has 50 code units at
    most; it is made of ASCII letters, digits, underscores and white
    space only, and does not begin with white space. *)
Theorem generateTitle_shape (firstMessage : jstr) :
  generateTitle firstMessage <> [] /\
  List.length (generateTitle firstMessage) <= 50 /\
  List.Forall (fun c => is_word c || is_space c = true)
    (generateTitle firstMessage) /\
  match generateTitle firstMessage with
  | c :: _ => is_space c = false
  | [] => False
  end.
Proof.
  unfold generateTitle.
  set (kept := List.filter (fun c => is_word c || is_space c) firstMessage).
  assert (Hkept : List.Forall (fun c => is_word c || is_space c = true) kept).
  { apply List.Forall_forall. intros c Hc.
    now apply List.filter_In in Hc. }
  pose proof (trim_Forall Hkept) as Hall.
  pose proof (trim_head kept) as Hhead.
  destruct (trim kept) as [|c rest].
  - cbn. split; [discriminate |]. split; [lia |].
    split; [| reflexivity].
    repeat constructor.
  - cbn [List.firstn truthy].
    split; [discriminate |]. split; [| split; [| exact Hhead]].
    + cbn [List.length]. pose proof (List.firstn_le_length 49 rest). lia.
    + change (c :: List.firstn 49 rest) with (List.firstn 50 (c :: rest)).
      rewrite <- (List.firstn_skipn 50 (c :: rest)) in Hall.
      apply List.Forall_app in Hall. exact (proj1 Hall).
Qed.

(** ** The store *)

Section Store.

Variable meta : Type.
Variable env : environment.

Lemma isAvailable_bind {A} (k : bool -> M (world meta) A) (w : world meta) :
  bind (isAvailable (meta := meta)) k w = k (configured w) w.
Proof. reflexivity. Qed.

Lemma touch_keeps_ids (cid : jstr) (new_title : option jstr)
    (rows : list conversation) :
  List.map conv_id (List.map (touch env cid new_title) rows) =
  List.map conv_id rows.
Proof.
  induction rows as [|c rows IH]; [reflexivity |].
  cbn [List.map]. rewrite IH. f_equal.
  unfold touch. now destruct (bool_decide (conv_id c = cid)).
Qed.

(** [updateConversation] never throws; it leaves the messages alone and
    neither adds nor removes a conversation. *)
Lemma updateConversation_frame (cid : jstr) (new_title : option jstr)
    (w : world meta) :
  exists w',
    updateConversation env cid new_title w = (Value tt, w') /\
    configured w' = configured w /\
    messages (db w') = messages (db w) /\
    List.map conv_id (conversations (db w')) =
    List.map conv_id (conversations (db w)).
Proof.
  unfold updateConversation, attempt, try_catch, isAvailable, bind, get, ret,
    modify, throw.
  cbv beta iota.
  destruct (negb (configured w) || startsWith (lit "temp-") cid).
  - exists w. repeat split.
  - destruct (update_error env); cbv beta iota.
    + exists w. repeat split.
    + eexists. split; [reflexivity |]. cbn [configured db messages conversations].
      repeat split. apply touch_keeps_ids.
Qed.

(** X24.  [addMessage] never throws.  The message it returns echoes the
    conversation id, the content, the role and the metadata it was
    given.  Either the message carries a temporary id and the store is
    exactly as it was, or it is the row the store took: the store is
    configured, the conversation id is not a temporary one, the insert
    went through, the row is the last of [messages], and no conversation
    was added or removed, whatever became of the update of the
    conversation's timestamp. *)
Theorem addMessage_never_throws (w : world meta)
    (conversationId text who : jstr) (data : meta) :
  exists (m : message meta) (w' : world meta),
    addMessage env conversationId text who data w = (Value m, w') /\
    conversation_id m = conversationId /\ content m = text /\
    role m = who /\ metadata m = data /\
    configured w' = configured w /\
    ((id m = temp_id env /\ w' = w) \/
     (id m = fresh_id env /\
      configured w = true /\
      startsWith (lit "temp-") conversationId = false /\
      insert_error env = None /\
      messages (db w') = messages (db w) ++ [m] /\
      List.map conv_id (conversations (db w')) =
      List.map conv_id (conversations (db w)))).
Proof.
  unfold addMessage. rewrite isAvailable_bind.
  destruct (configured w) eqn:Hon; cbn [negb]; cbv iota.
  2:{ eexists _, w. split; [reflexivity |]. cbn. repeat split; auto. }
  destruct (startsWith (lit "temp-") conversationId) eqn:Htemp.
  { eexists _, w. split; [reflexivity |]. cbn. repeat split; auto. }
  destruct (insert_error env) eqn:Hins.
  { eexists _, w. split; [reflexivity |]. cbn. repeat split; auto. }
  set (row := {| id := fresh_id env; conversation_id := conversationId;
                 content := text; role := who; metadata := data |}).
  set (w1 := {| configured := configured w;
                db := {| conversations := conversations (db w);
                         messages := messages (db w) ++ [row] |} |}).
  destruct (updateConversation_frame conversationId None w1)
    as (w2 & Hrun & Hconf & Hmsgs & Hids).
  exists row, w2. split.
  { unfold try_catch.
    erewrite IngestionFacts.bind_value by reflexivity.
    erewrite IngestionFacts.bind_value by exact Hrun.
    reflexivity. }
  cbn [conversation_id content role metadata id row].
  split; [reflexivity |]. split; [reflexivity |]. split; [reflexivity |].
  split; [reflexivity |]. split; [now rewrite Hconf |].
  right. split; [reflexivity |]. split; [reflexivity |].
  split; [reflexivity |]. split; [reflexivity |].
  split; [exact Hmsgs | exact Hids].
Qed.

(** [createConversation] never throws either, and the conversation it
    returns has the title asked for. *)
Lemma createConversation_frame (userId title : jstr) (courseId : option Z)
    (w : world meta) :
  exists c w',
    createConversation env userId title courseId w = (Value c, w') /\
    conv_title c = title /\ user_id c = userId /\ course_id c = courseId /\
    configured w' = configured w /\
    messages (db w') = messages (db w) /\
    (w' = w \/
     conversations (db w') = conversations (db w) ++ [c]).
Proof.
  unfold createConversation, try_catch, isAvailable, bind, get, ret, throw,
    modify.
  cbv beta iota.
  destruct (configured w) eqn:Hon; cbn [negb]; cbv iota.
  - destruct (insert_error env); cbv beta iota.
    + eexists _, w. split; [reflexivity |]. cbn. repeat split; auto.
    + eexists _, _. split; [reflexivity |]. cbn. repeat split; auto.
  - eexists _, w. split; [reflexivity |]. cbn. repeat split; auto.
Qed.

(** X25.  [getOrCreateConversation] never throws, and the conversation it
    returns always carries the title asked for; no message is touched.
    When the store is not configured, or the lookup fails, the result is
    a temporary conversation and nothing is written.  When the lookup
    finds a conversation, that one is returned and no conversation is
    added to the store. *)
Theorem getOrCreateConversation_result
    (existingConversations : jstr + list conversation)
    (userId title : jstr) (courseId : option Z) (w : world meta) :
  exists (c : conversation) (w' : world meta),
    getOrCreateConversation env existingConversations userId title courseId w
    = (Value c, w') /\
    conv_title c = title /\
    configured w' = configured w /\
    messages (db w') = messages (db w) /\
    (configured w = false \/ (exists e, existingConversations = inl e) ->
     conv_id c = temp_id env /\ w' = w) /\
    (forall found rest,
       configured w = true -> existingConversations = inr (found :: rest) ->
       conv_id c = conv_id found /\
       List.map conv_id (conversations (db w')) =
       List.map conv_id (conversations (db w))).
Proof.
  unfold getOrCreateConversation. rewrite isAvailable_bind.
  destruct (configured w) eqn:Hon; cbn [negb]; cbv iota.
  2:{ eexists _, w. split; [reflexivity |]. cbn [conv_title conv_id].
      repeat split; auto. intros; discriminate. }
  unfold try_catch.
  destruct existingConversations as [e | [| found rest]].
  - eexists _, w. split; [reflexivity |]. cbn [conv_title conv_id].
    split; [reflexivity |]. split; [exact Hon |]. split; [reflexivity |].
    split; [intros _; split; reflexivity |].
    intros found rest _ [=].
  - destruct (createConversation_frame userId title courseId w)
      as (c & w' & Hrun & Htitle & _ & _ & Hconf & Hmsgs & _).
    rewrite Hrun. exists c, w'. split; [reflexivity |].
    split; [exact Htitle |]. split; [now rewrite Hconf |].
    split; [exact Hmsgs |].
    split; [| intros found rest _ [=]].
    intros [Hoff | (e & [=])]. discriminate Hoff.
  - assert (Hstep : exists w',
               (if bool_decide (conv_title found = title) then ret tt
                else updateConversation env (conv_id found) (Some title)) w
               = (Value tt, w') /\
               configured w' = configured w /\
               messages (db w') = messages (db w) /\
               List.map conv_id (conversations (db w')) =
               List.map conv_id (conversations (db w))).
    { destruct (bool_decide (conv_title found = title)).
      - exists w. repeat split.
      - apply updateConversation_frame. }
    destruct Hstep as (w' & Hrun & Hconf & Hmsgs & Hids).
    exists (retitled title found), w'. split.
    { erewrite IngestionFacts.bind_value by exact Hrun. reflexivity. }
    cbn [retitled conv_title conv_id].
    split; [reflexivity |]. split; [now rewrite Hconf |].
    split; [exact Hmsgs |].
    split.
    + intros [Hoff | (e & [=])]. discriminate Hoff.
    + intros found' rest' _ [= <- _]. split; [reflexivity | exact Hids].
Qed.

Variables fetchError deleteError : option jstr.

(** X26.  [deleteConversation] changes the store only for the owner: when
    the world is not as it was afterwards, the call returned [true], a
    conversation with the given id belonged to the given user, and what
    is gone is every conversation with that id together with its
    messages, all others being kept in order.  On a configured store
    where no conversation has both the id and the user, it throws
    [Conversation not found or access denied] and deletes nothing. *)
Theorem deleteConversation_owner_only (conversationId userId : jstr)
    (w : world meta) :
  (snd (deleteConversation fetchError deleteError conversationId userId w) = w
   \/
   (fst (deleteConversation fetchError deleteError conversationId userId w)
    = Value true /\
    (exists c, List.In c (conversations (db w)) /\
               conv_id c = conversationId /\ user_id c = userId) /\
    snd (deleteConversation fetchError deleteError conversationId userId w) =
    {| configured := configured w;
       db := {| conversations :=
                  List.filter
                    (fun c => negb (bool_decide (conv_id c = conversationId)))
                    (conversations (db w));
                messages :=
                  List.filter
                    (fun m => negb (bool_decide
                                      (conversation_id m = conversationId)))
                    (messages (db w)) |} |})) /\
  (configured w = true ->
   (forall c, List.In c (conversations (db w)) ->
              conv_id c = conversationId -> user_id c <> userId) ->
   deleteConversation fetchError deleteError conversationId userId w
   = (Throws not_found, w)).
Proof.
  unfold deleteConversation. rewrite isAvailable_bind.
  unfold try_catch, bind, get, ret, throw, modify.
  assert (Hrow : forall c,
             List.In c (List.filter
                          (fun c => bool_decide (conv_id c = conversationId)
                                    && bool_decide (user_id c = userId))
                          (conversations (db w))) ->
             List.In c (conversations (db w)) /\
             conv_id c = conversationId /\ user_id c = userId).
  { intros c Hin. apply List.filter_In in Hin. destruct Hin as [Hin Hc].
    apply andb_true_iff in Hc. destruct Hc as [Hid Huser].
    apply bool_decide_eq_true_1 in Hid, Huser. auto. }
  split.
  - destruct (configured w) eqn:Hon; cbn [negb]; cbv beta iota; [| now left].
    destruct fetchError; [now left |].
    destruct (List.filter _ (conversations (db w))) as [|c [|c' more]];
      [now left | | now left].
    destruct deleteError; [now left |].
    right. cbn [fst snd]. split; [reflexivity |].
    split; [| now rewrite Hon].
    exists c. apply Hrow. now left.
  - intros Hon Hnone. rewrite Hon. cbn [negb]. cbv beta iota.
    destruct (List.filter _ (conversations (db w))) as [|c more].
    + now destruct fetchError.
    + destruct (Hrow c (or_introl eq_refl)) as (Hin & Hid & Huser).
      now destruct (Hnone c Hin Hid).
Qed.

End Store.

End ConversationMore.
